(** * VRP optimizer: route-construction environment, constructive heuristic,
      learned-policy rollout and request validation.

    A shallow embedding of
      - [backend/rl/vrp_environment.py]  (module [Env]),
      - [backend/rl/dqn_agent.py]        (modules [Agent] and
        [PrioritizedReplayBuffer]),
      - [backend/services/optimization_service.py] (module [Service]),
      - [backend/schemas/schemas.py], [backend/api/routes/optimization.py]
        (module [Api]),
      - [backend/services/training_service.py] (module [Training]),
    followed by the properties of the specification that were checked
    against it, and by further properties of the code.

    Python [float] and [numpy.float64] are IEEE 754 binary64: they are
    modelled by Rocq's primitive floats, whose operations are the same
    correctly rounded ones.  Python [int] is [Z].  A Python exception is
    [None] in the option monad (the models say which exception at the
    place where it is raised). *)

From Stdlib Require Import ZArith Floats Lia.
From stdpp Require Import base option list strings pretty.

#[local] Set Warnings "-inexact-float".
#[local] Open Scope Z_scope.

(** ** Python primitives *)
Module Py.

(** [float(z)] for an [int]: the nearest binary64 (ties to even). *)
Definition float_of_Z (z : Z) : float :=
  SF2Prim (binary_normalize prec emax z 0 false).

(** A float that is neither an infinity nor a NaN. *)
Definition is_finite (f : float) : bool :=
  match Prim2SF f with
  | S754_zero _ | S754_finite _ _ _ => true
  | S754_infinity _ | S754_nan => false
  end.

(** [int(f)]: truncation towards zero; [OverflowError] on an infinity and
    [ValueError] on a NaN. *)
Definition int_of_float (f : float) : option Z :=
  match Prim2SF f with
  | S754_zero _ => Some 0
  | S754_finite s m e =>
      let v := if 0 <=? e then Z.pos m * 2 ^ e else Z.pos m / 2 ^ (- e) in
      Some (if s then - v else v)
  | S754_infinity _ | S754_nan => None
  end.

(** [a / b] on two [int]s: [ZeroDivisionError] when [b = 0], else the
    float quotient.  (Python rounds the exact quotient once; dividing the
    two converted operands is the same value as long as both are below
    2^53 in magnitude, which loads, demands, capacities and counts are.) *)
Definition truediv (a b : Z) : option float :=
  if b =? 0 then None else Some (float_of_Z a / float_of_Z b)%float.

(** [a % b] on two [int]s (the sign follows the divisor, as [Z.modulo]). *)
Definition mod_ (a b : Z) : option Z :=
  if b =? 0 then None else Some (a mod b).

(** [numpy.float32(f)]: rounding of a binary64 to binary32, the result
    kept as the binary64 of the same value. *)
Definition f32 (f : float) : float :=
  match Prim2SF f with
  | S754_finite s m e =>
      SF2Prim
        match binary_round 24 128 s m e with
        | S754_finite s' m' e' => binary_round prec emax s' m' e'
        | r => r
        end
  | _ => f
  end.

(** The position that index [i] designates in a list of length [n]:
    negative indices count from the end, anything else out of range is an
    [IndexError]. *)
Definition index (n : nat) (i : Z) : option nat :=
  if (0 <=? i) && (i <? Z.of_nat n) then Some (Z.to_nat i)
  else if (i <? 0) && (- Z.of_nat n <=? i) then Some (Z.to_nat (Z.of_nat n + i))
  else None.

(** [l[i]]. *)
Definition getitem {A} (l : list A) (i : Z) : option A :=
  n ← index (length l) i; l !! n.

(** [l[i] = v]. *)
Definition setitem {A} (l : list A) (i : Z) (v : A) : option (list A) :=
  n ← index (length l) i; Some (<[n := v]> l).

(** [x != y] on floats (true as soon as one side is a NaN). *)
Definition fne (x y : float) : bool := negb (x =? y)%float.

(** [sum(1 for x in l if p x)]. *)
Definition count {A} (p : A → bool) (l : list A) : Z :=
  Z.of_nat (length (filter (λ x, p x = true) l)).

(** Python numbers where the code mixes [int] and [float] ([sum] starts at
    the int [0], [round] and [int] keep an [int] as it is). *)
Inductive number := Int (z : Z) | Flt (f : float).

Definition to_float (a : number) : float :=
  match a with Int z => float_of_Z z | Flt f => f end.

Definition add (a b : number) : number :=
  match a, b with
  | Int x, Int y => Int (x + y)
  | _, _ => Flt (to_float a + to_float b)%float
  end.

Definition mul (a b : number) : number :=
  match a, b with
  | Int x, Int y => Int (x * y)
  | _, _ => Flt (to_float a * to_float b)%float
  end.

(** [sum(l)]: left to right from the int [0]. *)
Definition sum (l : list number) : number := foldl add (Int 0) l.

(** [int(a)]. *)
Definition int (a : number) : option Z :=
  match a with Int z => Some z | Flt f => int_of_float f end.

End Py.

(** ** Instance data handed to the strategies
    ([depot], [customers], [vehicles]: Python dicts; a key read with
    [.get(key, default)] is an [option]). *)
Module Data.

Record Depot := mkDepot { d_id : string; d_lat : float; d_lon : float }.

Record CustomerData := mkCustomerData {
  cd_id : string;
  cd_lat : float;
  cd_lon : float;
  cd_demand : option Z;      (* c.get("demand", 1) *)
  cd_priority : option Z     (* c.get("priority", 1) *)
}.

Record VehicleData := mkVehicleData {
  vd_id : string;
  vd_capacity : option Z     (* v.get("capacity", 100) *)
}.

(** [c.get("demand", 1)] *)
Definition demand_of (c : CustomerData) : Z := default 1 (cd_demand c).
(** [c.get("priority", 1)] *)
Definition priority_of (c : CustomerData) : Z := default 1 (cd_priority c).

End Data.

(** ** The route-construction environment ([vrp_environment.py]) *)
Module Env.

Record Customer := mkCustomer {
  c_id : Z;
  c_x : float;
  c_y : float;
  c_demand : Z;
  c_priority : Z;
  c_time_window_start : option float;
  c_time_window_end : option float;
  c_visited : bool
}.

Record Vehicle := mkVehicle {
  v_id : Z;
  v_capacity : Z;
  v_current_load : Z;
  v_current_x : float;
  v_current_y : float;
  v_route : list Z;
  v_total_distance : float
}.

(** The attributes of a [VRPEnvironment] object.  [action_space.n] is
    [num_customers + 1] from [__init__] on. *)
Record t := mkEnv {
  num_customers : Z;
  num_vehicles : Z;
  vehicle_capacity : Z;
  grid_size : float;
  max_demand : Z;
  use_time_windows : bool;
  depot_x : float;
  depot_y : float;
  customers : list Customer;
  vehicles : list Vehicle;
  current_vehicle_idx : Z;
  current_time : float;
  total_reward : float;
  steps : Z;
  max_steps : Z
}.

Definition action_space_n (e : t) : Z := num_customers e + 1.

(** The [info] dictionary of [_get_info]. *)
Record Info := mkInfo {
  i_total_distance : Py.number;
  i_customers_visited : Z;
  i_customers_remaining : Z;
  i_current_vehicle : Z;
  i_steps : Z;
  i_total_reward : float
}.

(** What [step] returns. *)
Record StepResult := mkStepResult {
  observation : list float;
  reward : float;
  terminated : bool;
  truncated : bool;
  info : Info
}.

(** Attribute assignments. *)
Definition set_visited (c : Customer) (b : bool) : Customer :=
  mkCustomer (c_id c) (c_x c) (c_y c) (c_demand c) (c_priority c)
    (c_time_window_start c) (c_time_window_end c) b.

Definition set_vehicles_customers (e : t) (vs : list Vehicle) (cs : list Customer) : t :=
  mkEnv (num_customers e) (num_vehicles e) (vehicle_capacity e) (grid_size e)
    (max_demand e) (use_time_windows e) (depot_x e) (depot_y e)
    cs vs (current_vehicle_idx e) (current_time e) (total_reward e)
    (steps e) (max_steps e).

Definition set_counters (e : t) (idx : Z) (tr : float) (st : Z) : t :=
  mkEnv (num_customers e) (num_vehicles e) (vehicle_capacity e) (grid_size e)
    (max_demand e) (use_time_windows e) (depot_x e) (depot_y e)
    (customers e) (vehicles e) idx (current_time e) tr st (max_steps e).

Definition set_depot (e : t) (x y : float) : t :=
  mkEnv (num_customers e) (num_vehicles e) (vehicle_capacity e) (grid_size e)
    (max_demand e) (use_time_windows e) x y
    (customers e) (vehicles e) (current_vehicle_idx e) (current_time e)
    (total_reward e) (steps e) (max_steps e).

(** [__init__]: the depot is the centre of the unit square, nothing is
    generated before [reset].  [spaces.Discrete(num_customers + 1)]
    asserts that its size is positive. *)
Definition init_attrs (num_customers num_vehicles vehicle_capacity : Z) (grid_size : float)
    (max_demand : Z) (use_time_windows : bool) : t :=
  mkEnv num_customers num_vehicles vehicle_capacity grid_size max_demand
    use_time_windows 0.5 0.5 [] [] 0 0 0 0 (num_customers * 3).

Definition init (num_customers num_vehicles vehicle_capacity : Z) (grid_size : float)
    (max_demand : Z) (use_time_windows : bool) : option t :=
  if 0 <? num_customers + 1
  then Some (init_attrs num_customers num_vehicles vehicle_capacity grid_size max_demand
               use_time_windows)
  else None.

Section WithLibm.

(** [x ** y] on floats is the C library's [pow]. *)
Variable pow : float → float → float.

(** [_calculate_distance]: [np.sqrt((x2 - x1) ** 2 + (y2 - y1) ** 2)]. *)
Definition _calculate_distance (x1 y1 x2 y2 : float) : float :=
  sqrt (pow (x2 - x1) 2 + pow (y2 - y1) 2)%float.

(** [_get_observation]: [IndexError] without an active vehicle,
    [ZeroDivisionError] on a zero [max_demand], capacity, [num_vehicles] or
    [num_customers]; the vector is cast to float32. *)
Definition _get_observation (e : t) : option (list float) :=
  vehicle ← Py.getitem (vehicles e) (current_vehicle_idx e);
  per_customer ← mapM (λ customer,
      d ← Py.truediv (c_demand customer) (max_demand e);
      Some [ c_x customer; c_y customer; d;
             if c_visited customer then 1%float else 0%float;
             _calculate_distance (v_current_x vehicle) (v_current_y vehicle)
               (c_x customer) (c_y customer) ]) (customers e);
  load_ratio ← Py.truediv (v_current_load vehicle) (v_capacity vehicle);
  free_ratio ← Py.truediv (v_capacity vehicle - v_current_load vehicle) (v_capacity vehicle);
  idx_ratio ← Py.truediv (current_vehicle_idx e) (num_vehicles e);
  unvisited ← Py.truediv (Py.count (λ c, negb (c_visited c)) (customers e)) (num_customers e);
  Some (Py.f32 <$> (concat per_customer ++ [load_ratio; free_ratio; idx_ratio; unvisited])).

(** [_get_info] *)
Definition _get_info (e : t) : Info :=
  mkInfo (Py.sum ((λ v, Py.Flt (v_total_distance v)) <$> vehicles e))
    (Py.count c_visited (customers e))
    (Py.count (λ c, negb (c_visited c)) (customers e))
    (current_vehicle_idx e) (steps e) (total_reward e).

(** The vehicle after a return to the depot: distance charged, position
    the depot, load emptied ([step], both depot-return blocks). *)
Definition returned (e : t) (vehicle : Vehicle) (distance : float) : Vehicle :=
  mkVehicle (v_id vehicle) (v_capacity vehicle) 0 (depot_x e) (depot_y e)
    (v_route vehicle) (v_total_distance vehicle + distance)%float.

(** The vehicle after serving [customer] over a leg of length [distance]. *)
Definition served (vehicle : Vehicle) (customer : Customer) (distance : float) : Vehicle :=
  mkVehicle (v_id vehicle) (v_capacity vehicle)
    (v_current_load vehicle + c_demand customer) (c_x customer) (c_y customer)
    (v_route vehicle ++ [c_id customer]) (v_total_distance vehicle + distance)%float.

(** The closing loop of a terminating [step]: every vehicle that is not
    at the depot is charged its way back (its position is left as it is). *)
Fixpoint close_routes (e : t) (vs : list Vehicle) (reward : float) : list Vehicle * float :=
  match vs with
  | [] => ([], reward)
  | v :: vs' =>
      if Py.fne (v_current_x v) (depot_x e) || Py.fne (v_current_y v) (depot_y e) then
        let dist := _calculate_distance (v_current_x v) (v_current_y v) (depot_x e) (depot_y e) in
        let '(vs'', reward') := close_routes e vs' (reward - dist * 0.1)%float in
        (mkVehicle (v_id v) (v_capacity v) (v_current_load v) (v_current_x v)
           (v_current_y v) (v_route v) (v_total_distance v + dist)%float :: vs'', reward')
      else
        let '(vs'', reward') := close_routes e vs' reward in
        (v :: vs'', reward')
  end.

(** What the action branch of [step] leaves behind: the vehicles, the
    customers, the active-vehicle index and the branch's reward. *)
Definition branch_result : Type := list Vehicle * list Customer * Z * float.

(** [step], the branch on [action] (lines 188-248). *)
Definition step_action (e : t) (action : Z) : option branch_result :=
  vehicle ← Py.getitem (vehicles e) (current_vehicle_idx e);
  if action =? num_customers e then
    (* return to the depot, hand over to the next vehicle *)
    let distance := _calculate_distance (v_current_x vehicle) (v_current_y vehicle)
                      (depot_x e) (depot_y e) in
    vs ← Py.setitem (vehicles e) (current_vehicle_idx e) (returned e vehicle distance);
    idx ← Py.mod_ (current_vehicle_idx e + 1) (num_vehicles e);
    Some (vs, customers e, idx, (- distance * 0.1)%float)
  else if (0 <=? action) && (action <? num_customers e) then
    customer ← Py.getitem (customers e) action;
    if c_visited customer then
      Some (vehicles e, customers e, current_vehicle_idx e, (-1.0)%float)
    else if v_capacity vehicle <? v_current_load vehicle + c_demand customer then
      (* capacity exceeded: forced return to the depot *)
      let distance := _calculate_distance (v_current_x vehicle) (v_current_y vehicle)
                        (depot_x e) (depot_y e) in
      vs ← Py.setitem (vehicles e) (current_vehicle_idx e) (returned e vehicle distance);
      Some (vs, customers e, current_vehicle_idx e, (-0.5 - distance * 0.1)%float)
    else
      (* a valid visit *)
      let distance := _calculate_distance (v_current_x vehicle) (v_current_y vehicle)
                        (c_x customer) (c_y customer) in
      let vehicle' := served vehicle customer distance in
      vs ← Py.setitem (vehicles e) (current_vehicle_idx e) vehicle';
      cs ← Py.setitem (customers e) action (set_visited customer true);
      let reward := (- distance * 0.1 + 0.5 * Py.float_of_Z (c_priority customer))%float in
      load_efficiency ← Py.truediv (v_current_load vehicle') (v_capacity vehicle');
      Some (vs, cs, current_vehicle_idx e,
            if (0.7 <? load_efficiency)%float then (reward + 0.2)%float else reward)
  else
    Some (vehicles e, customers e, current_vehicle_idx e, (-1.0)%float).

(** [step] *)
Definition step (e : t) (action : Z) : option (t * StepResult) :=
  let steps' := steps e + 1 in
  '(vs, cs, idx, reward) ← step_action e action;
  let total_reward' := (total_reward e + reward)%float in
  (* termination: every customer visited *)
  let all_visited := forallb c_visited cs in
  let '(vs, reward, terminated) :=
    if all_visited then
      let '(vs', reward') := close_routes e vs reward in
      (vs', (reward' + 10.0)%float, true)
    else (vs, reward, false) in
  (* truncation: the step budget is used up *)
  let truncated := max_steps e <=? steps' in
  let reward :=
    if truncated then
      (reward - Py.float_of_Z (Py.count (λ c, negb (c_visited c)) cs) * 2.0)%float
    else reward in
  let e' := set_counters (set_vehicles_customers e vs cs) idx total_reward' steps' in
  observation ← _get_observation e';
  Some (e', mkStepResult observation reward terminated truncated (_get_info e')).

(** [get_valid_actions] *)
Definition get_valid_actions (e : t) : option (list Z) :=
  vehicle ← Py.getitem (vehicles e) (current_vehicle_idx e);
  let valid :=
    omap (λ '(i, customer),
        if negb (c_visited customer)
           && (v_current_load vehicle + c_demand customer <=? v_capacity vehicle)
        then Some (Z.of_nat i) else None)
      (imap (λ i customer, (i, customer)) (customers e)) in
  Some (valid ++ [num_customers e]).

(** [get_action_mask]: [mask[action] = 1.0] for every valid action over
    [np.zeros(action_space.n)] ([IndexError] outside the array). *)
Definition get_action_mask (e : t) : option (list float) :=
  valid ← get_valid_actions e;
  foldl (λ mask action, m ← mask; Py.setitem m action 1.0%float)
    (Some (replicate (Z.to_nat (action_space_n e)) 0%float)) valid.

(** [_calculate_reference_distance]: the nearest-neighbour tour over all
    customers from the depot, closed at the depot ([visited] is as long
    as [customers] once the environment is reset). *)
Definition nearest (cs : list Customer) (visited : list bool) (x y : float)
    : float * option nat :=
  foldl (λ '(best_dist, best_idx) '(i, c),
      if negb (default true (visited !! i)) then
        let dist := _calculate_distance x y (c_x c) (c_y c) in
        if (dist <? best_dist)%float then (dist, Some i) else (best_dist, best_idx)
      else (best_dist, best_idx))
    (infinity, None) (imap (λ i c, (i, c)) cs).

Fixpoint reference_tour (rounds : nat) (cs : list Customer) (visited : list bool)
    (x y total_dist : float) : float * float * float :=
  match rounds with
  | O => (x, y, total_dist)
  | S k =>
      match nearest cs visited x y with
      | (best_dist, Some best_idx) =>
          match cs !! best_idx with
          | Some c =>
              reference_tour k cs (<[best_idx := true]> visited) (c_x c) (c_y c)
                (total_dist + best_dist)%float
          | None => reference_tour k cs visited x y total_dist
          end
      | (_, None) => reference_tour k cs visited x y total_dist
      end
  end.

Definition _calculate_reference_distance (e : t) : float :=
  let n := Z.to_nat (num_customers e) in
  let '(x, y, total_dist) :=
    reference_tour n (customers e) (replicate n false) (depot_x e) (depot_y e) 0 in
  (total_dist + _calculate_distance x y (depot_x e) (depot_y e))%float.

(** The dictionary of [get_solution_quality]. *)
Record Quality := mkQuality {
  q_total_distance : Py.number;
  q_customers_served : Z;
  q_service_rate : float;
  q_efficiency_ratio : float;
  q_avg_distance_per_customer : float
}.

(** [max(a, b)] on floats: [b] only when [b > a]. *)
Definition fmax (a b : float) : float := if (a <? b)%float then b else a.

Definition get_solution_quality (e : t) : option Quality :=
  let total_distance := Py.sum ((λ v, Py.Flt (v_total_distance v)) <$> vehicles e) in
  let customers_served := Py.count c_visited (customers e) in
  let ref_distance := _calculate_reference_distance e in
  service_rate ← Py.truediv customers_served (num_customers e);
  Some (mkQuality total_distance customers_served service_rate
          (ref_distance / fmax (Py.to_float total_distance) 0.001)%float
          (Py.to_float total_distance / Py.float_of_Z (Z.max customers_served 1))%float).

(** *** [reset]: new random customers, all vehicles at the depot *)

(** [numpy.random]'s global generator: its state, seeding, and the two
    draws [reset] makes ([randint] raises [ValueError] when [low >= high]). *)
Variable rng : Type.
Variable np_seed : Z → rng.
Variable np_uniform : float → float → rng → float * rng.
Variable np_randint : Z → Z → rng → option (Z * rng).

Fixpoint gen_customers (e : t) (n : nat) (i : Z) (g : rng) : option (list Customer * rng) :=
  match n with
  | O => Some ([], g)
  | S k =>
      let '(x, g) := np_uniform 0.1 0.9 g in
      let '(y, g) := np_uniform 0.1 0.9 g in
      '(demand, g) ← np_randint 1 (max_demand e + 1) g;
      '(priority, g) ← np_randint 1 6 g;
      let '(tw, g) :=
        if use_time_windows e then
          let '(start, g) := np_uniform 0 0.5 g in
          let '(len, g) := np_uniform 0.2 0.5 g in
          (Some (start, (start + len)%float), g)
        else (None, g) in
      '(rest, g) ← gen_customers e k (i + 1) g;
      Some (mkCustomer i x y demand priority (fst <$> tw) (snd <$> tw) false :: rest, g)
  end.

(** [Vehicle(id=i, capacity=..., current_x=depot_x, current_y=depot_y)] *)
Definition fresh_vehicle (e : t) (i : Z) (capacity : Z) : Vehicle :=
  mkVehicle i capacity 0 (depot_x e) (depot_y e) [] 0.

Definition reset (e : t) (seed : option Z) (g : rng)
    : option (t * list float * Info * rng) :=
  let g := match seed with Some s => np_seed s | None => g end in
  '(cs, g) ← gen_customers e (Z.to_nat (num_customers e)) 0 g;
  let vs := imap (λ i _, fresh_vehicle e (Z.of_nat i) (vehicle_capacity e))
              (replicate (Z.to_nat (num_vehicles e)) ()) in
  let e' := mkEnv (num_customers e) (num_vehicles e) (vehicle_capacity e) (grid_size e)
              (max_demand e) (use_time_windows e) (depot_x e) (depot_y e)
              cs vs 0 0 0 0 (max_steps e) in
  observation ← _get_observation e';
  Some (e', observation, _get_info e', g).

(** *** [VRPEnvironmentWithRealData] *)

(** [min(l)] and [max(l)] on a non-empty list of floats: the first
    element, replaced by a later one that is smaller (greater). *)
Definition list_min (x : float) (l : list float) : float :=
  foldl (λ m y, if (y <? m)%float then y else m) x l.
Definition list_max (x : float) (l : list float) : float :=
  foldl (λ m y, if (m <? y)%float then y else m) x l.

Record RealData := mkRealData {
  base : t;
  customers_data : list Data.CustomerData;
  vehicles_data : list Data.VehicleData;
  depot_data : Data.Depot;
  lat_min : float;
  lat_max : float;
  lon_min : float;
  lon_max : float
}.

(** [__init__] with [_normalize_coordinates]: the bounding box of the
    customers and the depot, the depot rescaled into it. *)
Definition real_init (customers_data : list Data.CustomerData)
    (vehicles_data : list Data.VehicleData) (depot_data : Data.Depot) : RealData :=
  let e := init_attrs (Z.of_nat (length customers_data)) (Z.of_nat (length vehicles_data))
             (match vehicles_data with
              | v :: _ => default 100 (Data.vd_capacity v)
              | [] => 100
              end) 100.0 20 false in
  let all_lats := (Data.cd_lat <$> customers_data) ++ [Data.d_lat depot_data] in
  let all_lons := (Data.cd_lon <$> customers_data) ++ [Data.d_lon depot_data] in
  let lat_min := list_min (default (Data.d_lat depot_data) (head all_lats)) (tail all_lats) in
  let lat_max := list_max (default (Data.d_lat depot_data) (head all_lats)) (tail all_lats) in
  let lon_min := list_min (default (Data.d_lon depot_data) (head all_lons)) (tail all_lons) in
  let lon_max := list_max (default (Data.d_lon depot_data) (head all_lons)) (tail all_lons) in
  let lat_range := fmax (lat_max - lat_min) 0.001 in
  let lon_range := fmax (lon_max - lon_min) 0.001 in
  mkRealData
    (set_depot e ((Data.d_lon depot_data - lon_min) / lon_range)%float
                 ((Data.d_lat depot_data - lat_min) / lat_range)%float)
    customers_data vehicles_data depot_data lat_min lat_max lon_min lon_max.

(** [reset]: the random reset of the base class first (its observation is
    computed and thrown away), then the customers and vehicles of the
    instance. *)
Definition real_reset (r : RealData) (seed : option Z) (g : rng)
    : option (RealData * list float * Info * rng) :=
  '(e, _, _, g) ← reset (base r) seed g;
  let lat_range := fmax (lat_max r - lat_min r) 0.001 in
  let lon_range := fmax (lon_max r - lon_min r) 0.001 in
  let cs := imap (λ i c,
      mkCustomer (Z.of_nat i)
        ((Data.cd_lon c - lon_min r) / lon_range)%float
        ((Data.cd_lat c - lat_min r) / lat_range)%float
        (Data.demand_of c) (Data.priority_of c) None None false) (customers_data r) in
  let vs := imap (λ i v,
      fresh_vehicle e (Z.of_nat i) (default (vehicle_capacity e) (Data.vd_capacity v)))
      (vehicles_data r) in
  let e' := set_vehicles_customers e vs cs in
  observation ← _get_observation e';
  Some (mkRealData e' (customers_data r) (vehicles_data r) (depot_data r)
          (lat_min r) (lat_max r) (lon_min r) (lon_max r),
        observation, _get_info e', g).

(** What every state after a successful [reset] or [step] satisfies (see
    [reachable_well_formed] below): as many customers as [num_customers]
    says, and an active vehicle. *)
Definition well_formed (e : t) : Prop :=
  Z.of_nat (length (customers e)) = num_customers e
  ∧ is_Some (Py.getitem (vehicles e) (current_vehicle_idx e)).

(** *** Reachable states
    What a caller can hold after [__init__]: the state after a [reset], of
    the base class or of the real-data class, and after any number of
    [step]s from there.  ([__init__] leaves [num_customers >= 0]; a later
    [reset] starts from whatever state the environment is in.) *)
Inductive reachable : t → Prop :=
  | reach_reset e0 seed g e obs i g' :
      0 ≤ num_customers e0 →
      reset e0 seed g = Some (e, obs, i, g') →
      reachable e
  | reach_real_reset r seed g r' obs i g' :
      num_customers (base r) = Z.of_nat (length (customers_data r)) →
      real_reset r seed g = Some (r', obs, i, g') →
      reachable (base r')
  | reach_step e action e' r :
      reachable e →
      step e action = Some (e', r) →
      reachable e'.

(** An episode: the steps taken from a state, with what each returned,
    up to the first terminating or truncating one. *)
Inductive episode : t → list StepResult → t → Prop :=
  | episode_nil e : episode e [] e
  | episode_last e action e' r :
      step e action = Some (e', r) →
      terminated r || truncated r = true →
      episode e [r] e'
  | episode_cons e action e' r rs e'' :
      step e action = Some (e', r) →
      terminated r || truncated r = false →
      episode e' rs e'' →
      episode e (r :: rs) e''.

End WithLibm.

End Env.

(** ** The learned value policy ([dqn_agent.py]) *)
Module Agent.

(** One entry of the replay buffer:
    [(state, action, reward, next_state, done, action_mask)]. *)
Record Transition := mkTransition {
  t_state : list float;
  t_action : Z;
  t_reward : float;
  t_next_state : list float;
  t_done : bool;
  t_action_mask : list float
}.

Section WithTorch.

(** The parts that live in PyTorch and in the random generators: the
    parameters of a [DQNNetwork] and the state of the Adam optimizer with
    its scheduler; a forward pass in training mode (dropout draws random
    numbers) and one in evaluation mode; the Huber loss; one optimizer
    step ([zero_grad], [backward], [clip_grad_norm_], [step]) on a loss
    given as a function of the policy parameters; and the draws of
    [random] and [numpy.random]. *)
Variable Net : Type.
Variable Opt : Type.
Variable rng : Type.
Variable forward_train : Net → rng → list (list float) → list (list float) * rng.
Variable forward_eval : Net → list (list float) → list (list float).
Variable smooth_l1_loss : list float → list float → float.
Variable optimizer_step : (Net → float) → Net → Opt → Net * Opt.
Variable scheduler_step : Opt → Opt.
Variable random_random : rng → float * rng.
Variable random_randrange : Z → rng → option (Z * rng).
Variable random_sample : list Transition → Z → rng → option (list Transition * rng).
Variable np_choice : list Z → rng → option (Z * rng).

Record t := mkAgent {
  state_dim : Z;
  action_dim : Z;
  gamma : float;
  epsilon : float;
  epsilon_end : float;
  epsilon_decay : float;
  batch_size : Z;
  target_update_freq : Z;
  double_dqn : bool;
  policy_net : Net;
  target_net : Net;
  optimizer : Opt;
  memory : list Transition;       (* deque(maxlen=memory_size) *)
  memory_size : Z;
  steps_done : Z;
  episodes_done : Z;
  losses : list float;
  rewards : list float
}.

(** float32 arithmetic of tensors. *)
Definition add32 (a b : float) : float := Py.f32 (Py.f32 a + Py.f32 b)%float.
Definition sub32 (a b : float) : float := Py.f32 (Py.f32 a - Py.f32 b)%float.
Definition mul32 (a b : float) : float := Py.f32 (Py.f32 a * Py.f32 b)%float.

Definition is_nan (x : float) : bool := negb (x =? x)%float.

(** [argmax] of one row: the first index of a maximal value, a NaN
    counting as maximal; [None] on an empty row. *)
Definition argmax (row : list float) : option Z :=
  match row with
  | [] => None
  | x :: rest =>
      Some (fst (fst (foldl (λ '(best_i, best, i) y,
          if (best <? y)%float || (is_nan y && negb (is_nan best))
          then (i, y, i + 1) else (best_i, best, i + 1))
        (0, x, 1) rest)))
  end.

(** [q_values.masked_fill(mask == 0, -inf)]: the shapes must agree. *)
Definition masked_fill (q mask : list float) : option (list float) :=
  if decide (length q = length mask) then
    Some (zip_with (λ x m, if (m =? 0)%float then neg_infinity else x) q mask)
  else None.

(** [np.where(action_mask == 1)[0]] *)
Definition valid_actions (mask : list float) : list Z :=
  omap (λ '(i, m), if (m =? 1)%float then Some (Z.of_nat i) else None)
    (imap (λ i m, (i, m)) mask).

(** [select_action]: epsilon-greedy over the valid actions. *)
Definition select_action (a : t) (state : list float) (action_mask : option (list float))
    (training : bool) (g : rng) : option (Z * rng) :=
  let '(explore, g) :=
    if training then
      let '(u, g) := random_random g in ((u <? epsilon a)%float, g)
    else (false, g) in
  if explore then
    match action_mask with
    | Some mask => np_choice (valid_actions mask) g
    | None => random_randrange (action_dim a) g
    end
  else
    let '(q, g) := forward_train (policy_net a) g [Py.f32 <$> state] in
    row ← head q;
    row ← match action_mask with
          | Some mask => masked_fill row (Py.f32 <$> mask)
          | None => Some row
          end;
    action ← argmax row;
    Some (action, g).

(** [tensor.gather(1, index)]: one entry per row. *)
Definition gather (rows : list (list float)) (idx : list Z) : option (list float) :=
  mapM (λ '(row, i), Py.getitem row i) (zip rows idx).

(** [tensor.max(dim=1)[0]]: the greatest entry of every row. *)
Definition row_max (rows : list (list float)) : option (list float) :=
  mapM (λ row, i ← argmax row; Py.getitem row i) rows.

(** [train_step]: [None] as the loss, and nothing else, while the buffer
    holds fewer than [batch_size] transitions; otherwise one double-DQN
    update on a sampled batch. *)
Definition train_step (a : t) (g : rng) : option (option float * t * rng) :=
  if Z.of_nat (length (memory a)) <? batch_size a then Some (None, a, g)
  else
    '(batch, g) ← random_sample (memory a)
                    (Z.min (batch_size a) (Z.of_nat (length (memory a)))) g;
    let b_states := (λ tr, Py.f32 <$> t_state tr) <$> batch in
    let b_actions := t_action <$> batch in
    let b_rewards := (λ tr, Py.f32 (t_reward tr)) <$> batch in
    let b_next_states := (λ tr, Py.f32 <$> t_next_state tr) <$> batch in
    let b_dones := (λ tr, if t_done tr then 1%float else 0%float) <$> batch in
    (* current Q-values, as a function of the policy parameters *)
    let g_current := g in
    let '(q, g) := forward_train (policy_net a) g b_states in
    _ ← gather q b_actions;
    (* target Q-values *)
    '(next_q, g) ←
      (if double_dqn a then
         let '(qn, g) := forward_train (policy_net a) g b_next_states in
         next_actions ← mapM argmax qn;
         nq ← gather (forward_eval (target_net a) b_next_states) next_actions;
         Some (nq, g)
       else
         nq ← row_max (forward_eval (target_net a) b_next_states);
         Some (nq, g));
    let target_q :=
      zip_with (λ r '(nq, d), add32 r (mul32 (mul32 (gamma a) nq) (sub32 1 d)))
        b_rewards (zip next_q b_dones) in
    let loss := λ θ,
      smooth_l1_loss
        (default [] (gather (fst (forward_train θ g_current b_states)) b_actions)) target_q in
    let '(policy', optimizer') := optimizer_step loss (policy_net a) (optimizer a) in
    let loss_item := loss (policy_net a) in
    Some (Some loss_item,
          mkAgent (state_dim a) (action_dim a) (gamma a) (epsilon a) (epsilon_end a)
            (epsilon_decay a) (batch_size a) (target_update_freq a) (double_dqn a)
            policy' (target_net a) optimizer' (memory a) (memory_size a)
            (steps_done a + 1) (episodes_done a) (losses a ++ [loss_item]) (rewards a),
          g).

(** [ReplayBuffer.push] through [store_transition]: append, the oldest
    entry dropped when the deque is full ([np.ones(1)] stands for a
    missing mask). *)
Definition store_transition (a : t) (state : list float) (action : Z) (reward : float)
    (next_state : list float) (done : bool) (action_mask : option (list float)) : t :=
  let tr := mkTransition state action reward next_state done
              (default [1%float] action_mask) in
  let buffer := memory a ++ [tr] in
  let buffer := if memory_size a <? Z.of_nat (length buffer) then tail buffer else buffer in
  mkAgent (state_dim a) (action_dim a) (gamma a) (epsilon a) (epsilon_end a)
    (epsilon_decay a) (batch_size a) (target_update_freq a) (double_dqn a)
    (policy_net a) (target_net a) (optimizer a) buffer (memory_size a)
    (steps_done a) (episodes_done a) (losses a) (rewards a).

(** [end_episode]: count the episode, decay epsilon down to its floor,
    step the scheduler, and copy the policy parameters into the target
    network every [target_update_freq] episodes. *)
Definition end_episode (a : t) (total_reward : float) : option t :=
  let episodes := episodes_done a + 1 in
  let eps := Env.fmax (epsilon_end a) (epsilon a * epsilon_decay a)%float in
  r ← Py.mod_ episodes (target_update_freq a);
  Some (mkAgent (state_dim a) (action_dim a) (gamma a) eps (epsilon_end a)
          (epsilon_decay a) (batch_size a) (target_update_freq a) (double_dqn a)
          (policy_net a) (if r =? 0 then policy_net a else target_net a)
          (scheduler_step (optimizer a)) (memory a) (memory_size a)
          (steps_done a) episodes (losses a) (rewards a ++ [total_reward])).

End WithTorch.

Arguments mkAgent {Net Opt}.
Arguments state_dim {Net Opt}.
Arguments action_dim {Net Opt}.
Arguments gamma {Net Opt}.
Arguments epsilon {Net Opt}.
Arguments epsilon_end {Net Opt}.
Arguments epsilon_decay {Net Opt}.
Arguments batch_size {Net Opt}.
Arguments target_update_freq {Net Opt}.
Arguments double_dqn {Net Opt}.
Arguments policy_net {Net Opt}.
Arguments target_net {Net Opt}.
Arguments optimizer {Net Opt}.
Arguments memory {Net Opt}.
Arguments memory_size {Net Opt}.
Arguments steps_done {Net Opt}.
Arguments episodes_done {Net Opt}.
Arguments losses {Net Opt}.
Arguments rewards {Net Opt}.

End Agent.

(** ** The optimization service ([optimization_service.py]) *)
Module Service.

(** [{"lat": ..., "lon": ...}] *)
Record Coord := mkCoord { lat : float; lon : float }.

(** One stop of a route. *)
Record RoutePoint := mkRoutePoint {
  customer_id : string;
  location : Coord;
  demand : Z;
  sequence : Z
}.

(** One vehicle's route in the result. *)
Record Route := mkRoute {
  vehicle_id : string;
  points : list RoutePoint;
  total_distance_km : Py.number;
  total_time_minutes : Z;
  total_demand : Z;
  geometry : list Coord
}.

Inductive Metrics :=
  | MethodGreedy
  | MethodOrtools
  | MetricsRL (rl_reward : Py.number) (efficiency : Env.Quality).

(** The result dictionary every strategy returns. *)
Record Result := mkResult {
  success : bool;
  routes : list Route;
  r_total_distance_km : Py.number;
  r_total_time_minutes : Z;
  customers_served : Z;
  customers_unserved : Z;
  metrics : Metrics
}.

(** [list.remove(x)]: the first occurrence goes. *)
Fixpoint remove_first (x : nat) (l : list nat) : list nat :=
  match l with
  | [] => []
  | y :: l' => if decide (y = x) then l' else y :: remove_first x l'
  end.

(** [math.radians] *)
Definition radians (x : float) : float := (x * (3.141592653589793 / 180))%float.

(** [math.sqrt]: [ValueError] below zero. *)
Definition math_sqrt (x : float) : option float :=
  if (x <? 0)%float then None else Some (sqrt x).

Definition is_inf (x : float) : bool := (x =? infinity)%float || (x =? neg_infinity)%float.

Section WithWorld.

(** The C library ([x ** y] is [pow]; [math.sin] and [math.cos] raise
    [ValueError] on an infinite argument, which the wrappers below add). *)
Variable pow : float → float → float.
Variable sin : float → float.
Variable cos : float → float.
Variable atan2 : float → float → float.
(** The built-in [round(x, 2)] on a float, and numpy's on a float64. *)
Variable round2 : float → float.
Variable np_round2 : float → float.
(** The public road router: for the way points of a route, the road
    polyline with its length in km and its duration in minutes, or nothing
    (no answer in time, an error status, no route). *)
Variable osrm : list Coord → option (list Coord * float * float).

Definition math_sin (x : float) : option float := if is_inf x then None else Some (sin x).
Definition math_cos (x : float) : option float := if is_inf x then None else Some (cos x).

(** [round(a, 2)] *)
Definition round_2 (a : Py.number) : Py.number :=
  match a with Py.Int z => Py.Int z | Py.Flt f => Py.Flt (round2 f) end.

(** [_haversine_distance], in km. *)
Definition _haversine_distance (lat1 lon1 lat2 lon2 : float) : option float :=
  let R := Py.float_of_Z 6371 in
  let lat1 := radians lat1 in
  let lon1 := radians lon1 in
  let lat2 := radians lat2 in
  let lon2 := radians lon2 in
  let dlat := (lat2 - lat1)%float in
  let dlon := (lon2 - lon1)%float in
  s1 ← math_sin (dlat / 2)%float;
  c1 ← math_cos lat1;
  c2 ← math_cos lat2;
  s2 ← math_sin (dlon / 2)%float;
  let a := (pow s1 2 + c1 * c2 * pow s2 2)%float in
  ra ← math_sqrt a;
  rb ← math_sqrt (1 - a)%float;
  let c := (2 * atan2 ra rb)%float in
  Some (R * c)%float.

(** [_calculate_total_distance]: the legs of a polyline, summed from the
    int [0]. *)
Fixpoint _calculate_total_distance_from (total : Py.number) (pts : list Coord)
    : option Py.number :=
  match pts with
  | p :: (q :: _) as rest =>
      d ← _haversine_distance (lat p) (lon p) (lat q) (lon q);
      _calculate_total_distance_from (Py.add total (Py.Flt d)) rest
  | _ => Some total
  end.
Definition _calculate_total_distance (pts : list Coord) : option Py.number :=
  _calculate_total_distance_from (Py.Int 0) pts.

(** [_get_road_geometry]: the router's answer, else the straight lines
    with five minutes per point. *)
Definition _get_road_geometry (pts : list Coord)
    : option (list Coord * Py.number * Py.number) :=
  if (length pts <? 2)%nat then Some (pts, Py.Int 0, Py.Int 0)
  else
    match osrm pts with
    | Some (geometry, distance_km, duration_min) =>
        Some (geometry, Py.Flt distance_km, Py.Flt duration_min)
    | None =>
        d ← _calculate_total_distance pts;
        Some (pts, d, Py.Int (Z.of_nat (length pts) * 5))
    end.

Definition depot_coord (depot : Data.Depot) : Coord :=
  mkCoord (Data.d_lat depot) (Data.d_lon depot).

(** [_build_geometry]: depot, the stops, depot. *)
Definition _build_geometry (depot : Data.Depot) (pts : list RoutePoint) : list Coord :=
  [depot_coord depot] ++ (location <$> pts) ++ [depot_coord depot].

(** [_build_geometry_with_roads] *)
Definition _build_geometry_with_roads (depot : Data.Depot) (pts : list RoutePoint)
    : option (list Coord * Py.number * Py.number) :=
  _get_road_geometry ([depot_coord depot] ++ (location <$> pts) ++ [depot_coord depot]).

(** *** The constructive heuristic ([optimize_greedy]) *)

(** The local variables of the loop that fills one vehicle. *)
Record Filling := mkFilling {
  route_points : list RoutePoint;
  current_lat : float;
  current_lon : float;
  current_load : Z;
  total_distance : Py.number;
  unassigned : list nat
}.

(** The inner [for idx in unassigned]: the nearest customer that still
    fits, the first one met among equally near ones ([dist < best_dist] is
    strict). *)
Fixpoint nearest_feasible (customers : list Data.CustomerData) (f : Filling) (capacity : Z)
    (best_idx : option nat) (best_dist : float) (candidates : list nat)
    : option (option nat * float) :=
  match candidates with
  | [] => Some (best_idx, best_dist)
  | idx :: rest =>
      c ← customers !! idx;
      if current_load f + Data.demand_of c <=? capacity then
        dist ← _haversine_distance (current_lat f) (current_lon f)
                 (Data.cd_lat c) (Data.cd_lon c);
        if (dist <? best_dist)%float
        then nearest_feasible customers f capacity (Some idx) dist rest
        else nearest_feasible customers f capacity best_idx best_dist rest
      else nearest_feasible customers f capacity best_idx best_dist rest
  end.

(** The body of [while unassigned] after a customer was chosen. *)
Definition assign (f : Filling) (best_idx : nat) (best_dist : float) (c : Data.CustomerData)
    : Filling :=
  mkFilling
    (route_points f ++
       [mkRoutePoint (Data.cd_id c) (mkCoord (Data.cd_lat c) (Data.cd_lon c))
          (Data.demand_of c) (Z.of_nat (length (route_points f)))])
    (Data.cd_lat c) (Data.cd_lon c)
    (current_load f + Data.demand_of c)
    (Py.add (total_distance f) (Py.Flt best_dist))
    (remove_first best_idx (unassigned f)).

(** [while unassigned: ...]: every round removes one index, so
    [length unassigned] rounds are all the loop can make. *)
Fixpoint fill (rounds : nat) (customers : list Data.CustomerData) (capacity : Z) (f : Filling)
    : option Filling :=
  match rounds with
  | O => Some f
  | S k =>
      match unassigned f with
      | [] => Some f
      | _ :: _ =>
          '(best_idx, best_dist) ←
            nearest_feasible customers f capacity None infinity (unassigned f);
          match best_idx with
          | None => Some f                         (* break *)
          | Some b =>
              c ← customers !! b;
              fill k customers capacity (assign f b best_dist c)
          end
      end
  end.

(** One round of [for vehicle in vehicles]: fill the vehicle, and when it
    got a customer close its route at the depot and append the route. *)
Definition route_vehicle (depot : Data.Depot) (customers : list Data.CustomerData)
    (use_real_roads : bool) (vehicle : Data.VehicleData)
    (acc : list Route * list nat) : option (list Route * list nat) :=
  let '(routes, remaining) := acc in
  let capacity := default 100 (Data.vd_capacity vehicle) in
  f ← fill (length remaining) customers capacity
        (mkFilling [] (Data.d_lat depot) (Data.d_lon depot) 0 (Py.Int 0) remaining);
  match route_points f with
  | [] => Some (routes, unassigned f)
  | _ :: _ =>
      back ← _haversine_distance (current_lat f) (current_lon f)
               (Data.d_lat depot) (Data.d_lon depot);
      let total_distance := Py.add (total_distance f) (Py.Flt back) in
      route ←
        (if use_real_roads then
           '(geometry, road_distance, road_time) ←
             _build_geometry_with_roads depot (route_points f);
           minutes ← Py.int road_time;
           Some (mkRoute (Data.vd_id vehicle) (route_points f) (round_2 road_distance)
                   minutes (current_load f) geometry)
         else
           minutes ← Py.int (Py.mul total_distance (Py.Int 2));
           Some (mkRoute (Data.vd_id vehicle) (route_points f) (round_2 total_distance)
                   minutes (current_load f) (_build_geometry depot (route_points f))));
      Some (routes ++ [route], unassigned f)
  end.

Definition optimize_greedy (depot : Data.Depot) (customers : list Data.CustomerData)
    (vehicles : list Data.VehicleData) (use_real_roads : bool) : option Result :=
  '(routes, remaining) ←
    foldl (λ acc vehicle, acc ≫= route_vehicle depot customers use_real_roads vehicle)
      (Some ([], seq 0 (length customers))) vehicles;
  let total_dist := Py.sum (total_distance_km <$> routes) in
  let served := foldl Z.add 0 ((λ r, Z.of_nat (length (points r))) <$> routes) in
  minutes ← Py.int (Py.mul total_dist (Py.Int 2));
  Some (mkResult true routes (round_2 total_dist) minutes served
          (Z.of_nat (length remaining)) MethodGreedy).

(** The demands of the stops of a route, summed. *)
Definition demand_sum (pts : list RoutePoint) : Z := foldr Z.add 0 (demand <$> pts).

(** The places of an instance, and the check that every leg between two
    of them that the distance function computes is a proper distance:
    below infinity, hence no NaN either. *)
Definition places (depot : Data.Depot) (customers : list Data.CustomerData) : list Coord :=
  depot_coord depot :: ((λ c, mkCoord (Data.cd_lat c) (Data.cd_lon c)) <$> customers).

Definition proper_legs (pts : list Coord) : bool :=
  forallb (λ p,
    forallb (λ q,
      match _haversine_distance (lat p) (lon p) (lat q) (lon q) with
      | Some d => (d <? infinity)%float
      | None => true
      end) pts) pts.

(** *** The learned-policy strategy ([optimize_with_rl]) *)

(** PyTorch and the random generators, as [Agent] and [Env] take them. *)
Variable Net : Type.
Variable Opt : Type.
Variable rng : Type.
Variable forward_train : Net → rng → list (list float) → list (list float) * rng.
Variable random_random : rng → float * rng.
Variable random_randrange : Z → rng → option (Z * rng).
Variable np_choice : list Z → rng → option (Z * rng).
Variable np_seed : Z → rng.
Variable np_uniform : float → float → rng → float * rng.
Variable np_randint : Z → Z → rng → option (Z * rng).

Definition select_action :=
  Agent.select_action Net Opt rng forward_train random_random random_randrange np_choice.

(** [_build_routes_from_env]: a route for every vehicle whose [route] is
    not empty; its [total_demand] is the vehicle's [current_load]. *)
Definition vehicle_route (customers : list Data.CustomerData)
    (vehicles : list Data.VehicleData) (i : nat) (vehicle : Env.Vehicle)
    : option (option Route) :=
  match Env.v_route vehicle with
  | [] => Some None                                   (* continue *)
  | _ :: _ =>
      route_points ← mapM (λ '(seq, customer_idx),
          c ← Py.getitem customers customer_idx;
          Some (mkRoutePoint (Data.cd_id c) (mkCoord (Data.cd_lat c) (Data.cd_lon c))
                  (Data.demand_of c) (Z.of_nat seq)))
        (imap (λ seq customer_idx, (seq, customer_idx)) (Env.v_route vehicle));
      match route_points with
      | [] => Some None
      | _ :: _ =>
          v ← vehicles !! i;
          minutes ← Py.int_of_float (Env.v_total_distance vehicle * 100 * 2)%float;
          Some (Some (mkRoute (Data.vd_id v) route_points
                        (Py.Flt (np_round2 (Env.v_total_distance vehicle * 100)%float))
                        minutes (Env.v_current_load vehicle) []))
      end
  end.

Definition _build_routes_from_env (e : Env.t) (customers : list Data.CustomerData)
    (vehicles : list Data.VehicleData) : option (list Route) :=
  rs ← mapM (λ '(i, vehicle), vehicle_route customers vehicles i vehicle)
          (imap (λ i vehicle, (i, vehicle)) (Env.vehicles e));
  Some (omap id rs).

(** The capacity the environment gives a vehicle of the instance:
    its own, else the first vehicle's, else 100 ([real_init],
    [real_reset]). *)
Definition rl_capacity (vehicles : list Data.VehicleData) (v : Data.VehicleData) : Z :=
  default (match vehicles with
           | v0 :: _ => default 100 (Data.vd_capacity v0)
           | [] => 100
           end) (Data.vd_capacity v).

(** The inference episode, [while not done]: mask, greedy action of the
    policy, step.  The outer [None] is a run out of [rounds] (the step
    budget of the environment ends the loop before that, see
    [rollout_rounds] below), the inner one an exception. *)
Fixpoint rollout (rounds : nat) (agent : Agent.t Net Opt) (e : Env.t) (state : list float)
    (total_reward : Py.number) (g : rng)
    : option (option (Env.t * Env.Info * Py.number * rng)) :=
  match rounds with
  | O => None
  | S k =>
      match
        action_mask ← Env.get_action_mask e;
        '(action, g) ← select_action agent state (Some action_mask) false g;
        '(e', r) ← Env.step pow e action;
        Some (e', r, g)
      with
      | None => Some None
      | Some (e', r, g) =>
          let total_reward := Py.add total_reward (Py.Flt (Env.reward r)) in
          if Env.terminated r || Env.truncated r
          then Some (Some (e', Env.info r, total_reward, g))
          else rollout k agent e' (Env.observation r) total_reward g
      end
  end.

(** The rounds [rollout] is given: the step budget, and one more. *)
Definition rollout_rounds (e : Env.t) : nat := S (Z.to_nat (Env.max_steps e - Env.steps e)).

(** [optimize_with_rl] on a service whose attributes are [agent] and
    [model_loaded]. *)
Definition optimize_with_rl (agent : option (Agent.t Net Opt)) (model_loaded : bool)
    (depot : Data.Depot) (customers : list Data.CustomerData)
    (vehicles : list Data.VehicleData) (use_real_roads : bool) (g : rng)
    : option (option (Result * rng)) :=
  let env := Env.real_init customers vehicles depot in
  match agent with
  | Some a =>
      if negb model_loaded then
        Some (r ← optimize_greedy depot customers vehicles use_real_roads; Some (r, g))
      else
        match Env.real_reset pow rng np_seed np_uniform np_randint env None g with
        | None => Some None
        | Some (env, state, _, g) =>
            run ← rollout (rollout_rounds (Env.base env)) a (Env.base env) state (Py.Int 0) g;
            Some ('(e, info, total_reward, g) ← run;
                  routes ← _build_routes_from_env e customers vehicles;
                  let km := Py.mul (Env.i_total_distance info) (Py.Int 100) in
                  minutes ← Py.int (Py.mul km (Py.Int 2));
                  quality ← Env.get_solution_quality pow e;
                  Some (mkResult true routes km minutes
                          (Env.i_customers_visited info) (Env.i_customers_remaining info)
                          (MetricsRL total_reward quality), g))
        end
  | None =>
      Some (r ← optimize_greedy depot customers vehicles use_real_roads; Some (r, g))
  end.

(** *** The exact-solver adapter ([optimize_with_ortools]) *)

(** What OR-Tools answers for a distance matrix in metres, the demand of
    every node (the depot, node 0, has none) and the vehicles' capacities:
    for every vehicle the nodes from its start up to its end, or no
    solution within the time limit, or an exception of the library. *)
Inductive SolverAnswer :=
  | Solution (paths : list (list Z))
  | NoSolution
  | SolverError.

(** The demand a path picks up, as the capacity dimension counts it:
    that of every node but the depot. *)
Definition path_demand (demands : list Z) (path : list Z) : Z :=
  foldr (λ node acc,
           if 0 <? node then default 0 (Py.getitem demands node) + acc else acc) 0 path.

(** The contract of the capacity dimension: what the path of a vehicle
    picks up is within the capacity of that vehicle. *)
Definition respects_capacities (demands capacities : list Z) (answer : SolverAnswer) : Prop :=
  match answer with
  | Solution paths =>
      ∀ i path capacity, paths !! i = Some path → capacities !! i = Some capacity →
        path_demand demands path ≤ capacity
  | NoSolution | SolverError => True
  end.

(** The library when it can be imported. *)
Variable ortools : option (list (list Z) → list Z → list Z → SolverAnswer).

(** [distance_matrix]: haversine between all locations, in whole metres. *)
Definition distance_matrix (locations : list Coord) : option (list (list Z)) :=
  mapM (λ '(i, p),
      mapM (λ '(j, q),
          if decide (i = j) then Some 0
          else d ← _haversine_distance (lat p) (lon p) (lat q) (lon q);
               Py.int_of_float (d * 1000)%float)
        (imap (λ j q, (j, q)) locations))
    (imap (λ i p, (i, p)) locations).

(** The arc costs along a path that ends at the depot. *)
Fixpoint path_cost (matrix : list (list Z)) (path : list Z) : option Z :=
  match path with
  | [] => Some 0
  | a :: rest =>
      row ← Py.getitem matrix a;
      cost ← Py.getitem row (default 0 (head rest));
      tail_cost ← path_cost matrix rest;
      Some (cost + tail_cost)
  end.

(** The stops of a path: every node but the depot is a customer. *)
Fixpoint path_points (customers : list Data.CustomerData) (path : list Z)
    (acc : list RoutePoint) : option (list RoutePoint) :=
  match path with
  | [] => Some acc
  | node :: rest =>
      if 0 <? node then
        c ← Py.getitem customers (node - 1);
        path_points customers rest
          (acc ++ [mkRoutePoint (Data.cd_id c) (mkCoord (Data.cd_lat c) (Data.cd_lon c))
                     (Data.demand_of c) (Z.of_nat (length acc))])
      else path_points customers rest acc
  end.

(** One round of [for vehicle_idx in range(len(vehicles))]. *)
Definition extract_route (depot : Data.Depot) (customers : list Data.CustomerData)
    (use_real_roads : bool) (matrix : list (list Z)) (paths : list (list Z))
    (acc : list Route * Py.number) (iv : nat * Data.VehicleData)
    : option (list Route * Py.number) :=
  let '(routes, total_distance) := acc in
  let '(vehicle_idx, vehicle) := iv in
  path ← paths !! vehicle_idx;
  route_points ← path_points customers path [];
  route_distance ← path_cost matrix path;
  let route_demand := foldl Z.add 0 (demand <$> route_points) in
  match route_points with
  | [] => Some (routes, total_distance)
  | _ :: _ =>
      distance_km ← Py.truediv route_distance 1000;
      route ←
        (if use_real_roads then
           '(geometry, road_distance, road_time) ←
             _build_geometry_with_roads depot route_points;
           minutes ← Py.int road_time;
           Some (mkRoute (Data.vd_id vehicle) route_points (round_2 road_distance)
                   minutes route_demand geometry)
         else
           minutes ← Py.int_of_float (distance_km * 2)%float;
           Some (mkRoute (Data.vd_id vehicle) route_points (Py.Flt (round2 distance_km))
                   minutes route_demand (_build_geometry depot route_points)));
      Some (routes ++ [route], Py.add total_distance (Py.Flt distance_km))
  end.

Definition optimize_with_ortools (depot : Data.Depot) (customers : list Data.CustomerData)
    (vehicles : list Data.VehicleData) (use_real_roads : bool) : option Result :=
  match ortools with
  | None => optimize_greedy depot customers vehicles use_real_roads
  | Some solve =>
      let locations :=
        depot_coord depot :: ((λ c, mkCoord (Data.cd_lat c) (Data.cd_lon c)) <$> customers) in
      matrix ← distance_matrix locations;
      match solve matrix (0 :: (Data.demand_of <$> customers))
              ((λ v, default 100 (Data.vd_capacity v)) <$> vehicles) with
      | SolverError => None
      | NoSolution => optimize_greedy depot customers vehicles false
      | Solution paths =>
          '(routes, total_distance) ←
            foldl (λ acc iv, acc ≫= (λ a, extract_route depot customers use_real_roads
                                            matrix paths a iv))
              (Some ([], Py.Int 0)) (imap (λ i v, (i, v)) vehicles);
          let served := foldl Z.add 0 ((λ r, Z.of_nat (length (points r))) <$> routes) in
          minutes ← Py.int (Py.mul total_distance (Py.Int 2));
          Some (mkResult true routes (round_2 total_distance) minutes served
                  (Z.of_nat (length customers) - served) MethodOrtools)
      end
  end.

End WithWorld.

End Service.

(** ** The request schema and the endpoints
    ([schemas.py], [api/routes/optimization.py]) *)
Module Api.

Inductive OptimizationMethod := RL | GREEDY | GENETIC | ORTOOLS.

(** The fields of an [OptimizationRequest] as they arrive. *)
Record OptimizationRequest := mkRequest {
  depot_id : string;
  customer_ids : list string;
  vehicle_ids : list string;
  method : OptimizationMethod;
  max_time_minutes : option Z;
  consider_time_windows : bool;
  consider_traffic : bool;
  use_real_roads : bool
}.

(** The field constraints of the schema: [min_length=1] on both id lists,
    [ge=60] on [max_time_minutes]. *)
Definition valid_request (q : OptimizationRequest) : bool :=
  (1 <=? length (customer_ids q))%nat
  && (1 <=? length (vehicle_ids q))%nat
  && match max_time_minutes q with Some m => 60 <=? m | None => true end.

(** What a call of an endpoint ends in: a response body, or an HTTP error
    (422 is the framework's answer to a request the schema refuses). *)
Inductive Outcome (A : Type) :=
  | Ok (body : A)
  | HttpError (status : Z) (detail : string).
Arguments Ok {A} body.
Arguments HttpError {A} status detail.

(** [OptimizationResponse] *)
Record OptimizationResponse := mkResponse {
  success : bool;
  method_used : OptimizationMethod;
  routes : list Service.Route;
  total_distance_km : Py.number;
  total_time_minutes : Z;
  customers_served : Z;
  customers_unserved : Z;
  metrics : Service.Metrics
}.

Section WithWorld.

Variable pow : float → float → float.
Variable sin : float → float.
Variable cos : float → float.
Variable atan2 : float → float → float.
Variable round2 : float → float.
Variable osrm : list Service.Coord → option (list Service.Coord * float * float).
Variable ortools : option (list (list Z) → list Z → list Z → Service.SolverAnswer).

(** The database: the depot of an id, the customers among a list of ids,
    and the vehicles among a list of ids whose status is available. *)
Variable db_depot : string → option Data.Depot.
Variable db_customers : list string → list Data.CustomerData.
Variable db_vehicles : list string → list Data.VehicleData.

Definition optimize_greedy := Service.optimize_greedy pow sin cos atan2 round2 osrm.
Definition optimize_with_ortools :=
  Service.optimize_with_ortools pow sin cos atan2 round2 osrm ortools.

(** [OptimizationService()] as the endpoints build it has no agent and no
    model loaded, so [optimize_with_rl] builds its environment and hands
    over to the constructive heuristic. *)
Definition optimize_with_rl (depot : Data.Depot) (customers : list Data.CustomerData)
    (vehicles : list Data.VehicleData) (use_real_roads : bool) : option Service.Result :=
  let _ := Env.real_init customers vehicles depot in
  optimize_greedy depot customers vehicles use_real_roads.

(** [POST /optimize] *)
Definition optimize_routes (q : OptimizationRequest) : Outcome OptimizationResponse :=
  if negb (valid_request q) then HttpError 422 "validation error"
  else
    match db_depot (depot_id q) with
    | None => HttpError 404 "Depósito no encontrado"
    | Some depot =>
        let customers := db_customers (customer_ids q) in
        if negb (length customers =? length (customer_ids q))%nat
        then HttpError 404 "Algunos clientes no encontrados"
        else
          let vehicles := db_vehicles (vehicle_ids q) in
          if (length vehicles =? 0)%nat
          then HttpError 400 "No hay vehículos disponibles"
          else
            match
              match method q with
              | RL => optimize_with_rl depot customers vehicles (use_real_roads q)
              | GREEDY => optimize_greedy depot customers vehicles (use_real_roads q)
              | ORTOOLS => optimize_with_ortools depot customers vehicles (use_real_roads q)
              | GENETIC => optimize_greedy depot customers vehicles (use_real_roads q)
              end
            with
            | None => HttpError 500 "Error en optimización"
            | Some r =>
                Ok (mkResponse (Service.success r) (method q) (Service.routes r)
                      (Service.r_total_distance_km r) (Service.r_total_time_minutes r)
                      (Service.customers_served r) (Service.customers_unserved r)
                      (Service.metrics r))
            end
    end.

(** [POST /optimize/quick]: no schema, no database; the instance is built
    from the query ([range(num_vehicles)] vehicles of one capacity). *)
Definition quick_optimize (depot_lat depot_lon : float)
    (customer_coords : list (float * float * option Z * option Z))
    (num_vehicles vehicle_capacity : Z) (method : OptimizationMethod)
    : option (bool * list Service.Route * Py.number) :=
  let depot_data := Data.mkDepot "temp" depot_lat depot_lon in
  let customers_data :=
    imap (λ i '(lat, lon, demand, priority),
        Data.mkCustomerData ("customer_" +:+ pretty i) lat lon
          (Some (default 1 demand)) (Some (default 1 priority))) customer_coords in
  let vehicles_data :=
    imap (λ i _, Data.mkVehicleData ("vehicle_" +:+ pretty i) (Some vehicle_capacity))
      (replicate (Z.to_nat num_vehicles) ()) in
  r ← match method with
      | RL => optimize_with_rl depot_data customers_data vehicles_data false
      | _ => optimize_greedy depot_data customers_data vehicles_data false
      end;
  Some (Service.success r, Service.routes r, Service.r_total_distance_km r).

End WithWorld.

End Api.

(** ** The prioritized replay buffer ([dqn_agent.py]) *)
Module PrioritizedReplayBuffer.

(** [deque.append] on a [deque(maxlen=...)]: the oldest entry goes when
    the deque is full. *)
Definition deque_append {A} (maxlen : Z) (d : list A) (x : A) : list A :=
  let d := d ++ [x] in
  if maxlen <? Z.of_nat (length d) then tail d else d.

Section WithPow.

(** What is kept as a priority: the value of a [**] (a float, and for a
    negative base a complex number).  [**] on Python floats raises
    [ZeroDivisionError] or [OverflowError] where [float_pow] has no value;
    numpy's on a float64 raises nothing. *)
Variable V : Type.
Variable float_pow : float → float → option V.
Variable np_power : float → float → V.

Record t := mk {
  buffer : list Agent.Transition;
  priorities : list V;
  maxlen : Z;
  alpha : float
}.

(** [push]: the transition goes into the buffer and [priority ** alpha]
    into the priorities. *)
Definition push (b : t) (state : list float) (action : Z) (reward : float)
    (next_state : list float) (done : bool) (action_mask : option (list float))
    (priority : float) : option t :=
  let buffer' := deque_append (maxlen b) (buffer b)
                   (Agent.mkTransition state action reward next_state done
                      (default [1%float] action_mask)) in
  p ← float_pow priority (alpha b);
  Some (mk buffer' (deque_append (maxlen b) (priorities b) p) (maxlen b) (alpha b)).

(** [update_priorities]: [priorities[idx] = (abs(td_error) + 1e-6) ** alpha]
    along [zip(indices, td_errors)] ([IndexError] outside the deque). *)
Definition update_priorities (b : t) (indices : list Z) (td_errors : list float) : option t :=
  ps ← foldl (λ acc '(idx, td_error),
               ps ← acc;
               Py.setitem ps idx (np_power (abs td_error + 1e-6)%float (alpha b)))
        (Some (priorities b)) (zip indices td_errors);
  Some (mk (buffer b) ps (maxlen b) (alpha b)).

End WithPow.

Arguments mk {V}.
Arguments buffer {V}.
Arguments priorities {V}.
Arguments maxlen {V}.
Arguments alpha {V}.

End PrioritizedReplayBuffer.

(** ** The training service ([training_service.py]) *)
Module Training.

Section WithWorld.

(** The C library, PyTorch and the random generators, as [Env] and
    [Agent] take them. *)
Variable pow : float → float → float.
Variable Net : Type.
Variable Opt : Type.
Variable rng : Type.
Variable forward_train : Net → rng → list (list float) → list (list float) * rng.
Variable forward_eval : Net → list (list float) → list (list float).
Variable smooth_l1_loss : list float → list float → float.
Variable optimizer_step : (Net → float) → Net → Opt → Net * Opt.
Variable scheduler_step : Opt → Opt.
Variable random_random : rng → float * rng.
Variable random_randrange : Z → rng → option (Z * rng).
Variable random_sample : list Agent.Transition → Z → rng → option (list Agent.Transition * rng).
Variable np_choice : list Z → rng → option (Z * rng).
Variable np_seed : Z → rng.
Variable np_uniform : float → float → rng → float * rng.
Variable np_randint : Z → Z → rng → option (Z * rng).

(** The loop of [_run_episode], [while not done]: mask, epsilon-greedy
    action, step, store the transition, one training update.  The outer
    [None] is a run out of [rounds] (the step budget of the environment
    ends the loop before that), the inner one an exception. *)
Fixpoint episode_steps (rounds : nat) (agent : Agent.t Net Opt) (e : Env.t)
    (state : list float) (total_reward : Py.number) (g : rng)
    : option (option (Agent.t Net Opt * Env.t * Py.number * rng)) :=
  match rounds with
  | O => None
  | S k =>
      match
        action_mask ← Env.get_action_mask e;
        '(action, g) ← Agent.select_action Net Opt rng forward_train random_random
                         random_randrange np_choice agent state (Some action_mask) true g;
        '(e', r) ← Env.step pow e action;
        let done := Env.terminated r || Env.truncated r in
        let agent := Agent.store_transition Net Opt agent state action (Env.reward r)
                       (Env.observation r) done (Some action_mask) in
        '(_, agent, g) ← Agent.train_step Net Opt rng forward_train forward_eval
                           smooth_l1_loss optimizer_step random_sample agent g;
        Some (agent, e', r, g)
      with
      | None => Some None
      | Some (agent, e', r, g) =>
          let total_reward := Py.add total_reward (Py.Flt (Env.reward r)) in
          if Env.terminated r || Env.truncated r
          then Some (Some (agent, e', total_reward, g))
          else episode_steps k agent e' (Env.observation r) total_reward g
      end
  end.

(** [_run_episode]: reset the environment, run the loop, and close the
    episode on the agent with the summed reward, which is also what is
    returned. *)
Definition _run_episode (agent : Agent.t Net Opt) (e : Env.t) (g : rng)
    : option (option (Agent.t Net Opt * Env.t * Py.number * rng)) :=
  match Env.reset pow rng np_seed np_uniform np_randint e None g with
  | None => Some None
  | Some (e, state, _, g) =>
      run ← episode_steps (Service.rollout_rounds e) agent e state (Py.Int 0) g;
      Some ('(agent, e, total_reward, g) ← run;
            agent ← Agent.end_episode Net Opt scheduler_step agent (Py.to_float total_reward);
            Some (agent, e, total_reward, g))
  end.

End WithWorld.

End Training.

(** ** Sample instances
    Stand-ins for what lies outside the repository, to run the models on
    concrete data: a C library, the two [round]s, a random generator, a
    road router that never answers, and a value network that scores the
    actions by a fixed preference. *)
Module Sample.

(** [pow] at the only exponent the code uses. *)
Definition pow (x y : float) : float := if (y =? 2)%float then (x * x)%float else nan.

(** Truncated series for sine and cosine, a rational approximation of
    the arc tangent: coarse, and enough for distances on sample data. *)
Definition sin (x : float) : float := (x - x * x * x / 6 + x * x * x * x * x / 120)%float.
Definition cos (x : float) : float := (1 - x * x / 2 + x * x * x * x / 24)%float.
Definition atan (t : float) : float :=
  if (t <=? 1)%float then (t / (1 + 0.28125 * t * t))%float
  else (1.5707963267948966 - t / (t * t + 0.28125))%float.
Definition atan2 (y x : float) : float :=
  if (0 <? x)%float then if (0 <=? y)%float then atan (y / x) else (- atan (- y / x))%float
  else if (0 <? y)%float then 1.5707963267948966%float
  else 0%float.

(** The integer nearest to the rational [m * 2^e], ties to even. *)
Definition nearest_even (m : positive) (e : Z) : Z :=
  if 0 <=? e then Z.pos m * 2 ^ e
  else
    let d := 2 ^ (- e) in
    let q := Z.pos m / d in
    let r := Z.pos m mod d in
    match 2 * r ?= d with
    | Lt => q
    | Gt => q + 1
    | Eq => if Z.even q then q else q + 1
    end.

(** [round(x, 2)] of Python: the two-decimal number nearest to the exact
    value of [x] (ties to even), as the nearest float. *)
Definition round2 (x : float) : float :=
  match Prim2SF x with
  | S754_finite s m e =>
      let q := nearest_even (m * 100) e in
      (Py.float_of_Z (if s then - q else q) / 100)%float
  | _ => x
  end.

(** [round(x, 2)] of numpy: [rint(x * 100) / 100]. *)
Definition np_round2 (x : float) : float :=
  match Prim2SF (x * 100)%float with
  | S754_finite s m e =>
      let q := nearest_even m e in
      (Py.float_of_Z (if s then - q else q) / 100)%float
  | _ => (x * 100 / 100)%float
  end.

(** No road router in reach. *)
Definition osrm (pts : list Service.Coord) : option (list Service.Coord * float * float) :=
  None.

(** A random generator: a counter, every draw a fixed function of it. *)
Definition rng : Type := Z.
Definition np_seed (s : Z) : rng := s.
Definition np_uniform (lo hi : float) (g : rng) : float * rng :=
  ((lo + (hi - lo) * (Py.float_of_Z (g mod 8) / 8))%float, g + 1).
Definition np_randint (lo hi : Z) (g : rng) : option (Z * rng) :=
  if lo <? hi then Some (lo + g mod (hi - lo), g + 1) else None.
Definition random_random (g : rng) : float * rng :=
  ((Py.float_of_Z (g mod 8) / 8)%float, g + 1).
Definition random_randrange (n : Z) (g : rng) : option (Z * rng) :=
  if 0 <? n then Some (g mod n, g + 1) else None.
Definition np_choice (l : list Z) (g : rng) : option (Z * rng) :=
  x ← Py.getitem l (g mod Z.of_nat (length l)); Some (x, g + 1).

(** A value network that ignores the state: its parameters are the
    scores it gives to the actions. *)
Definition Net : Type := list float.
Definition Opt : Type := unit.
Definition forward_train (net : Net) (g : rng) (states : list (list float))
    : list (list float) * rng :=
  ((λ _, net) <$> states, g).

(** An agent around such a network. *)
Definition agent (scores : list float) : Agent.t Net Opt :=
  Agent.mkAgent (Z.of_nat (length scores) * 5 - 1) (Z.of_nat (length scores))
    0.99 0.01 0.01 0.995 64 10 true scores scores () [] 100000 0 0 [] [].

(** One depot, three customers of demand 5 each, one vehicle of capacity
    10 (the scenario of the specification), the customers a kilometre or
    two from the depot. *)
Definition depot : Data.Depot := Data.mkDepot "depot" 0 0.
Definition customers : list Data.CustomerData :=
  [ Data.mkCustomerData "a" 0 0.01 (Some 5) (Some 1);
    Data.mkCustomerData "b" 0.01 0 (Some 5) (Some 2);
    Data.mkCustomerData "c" 0.01 0.01 (Some 5) (Some 1) ].
Definition vehicles : list Data.VehicleData := [ Data.mkVehicleData "van" (Some 10) ].

(** An environment of the base class: two customers, one vehicle of
    capacity 5; [env1] is its state after [reset] (the generator above
    draws demands 3 and 7, so the second customer never fits), and
    [after e actions] the state after stepping through [actions]. *)
Definition env0 : Env.t := Env.init_attrs 2 1 5 100 20 false.

Definition env1 : Env.t :=
  match Env.reset pow rng np_seed np_uniform np_randint env0 None 0 with
  | Some (e, _, _, _) => e
  | None => env0
  end.

Definition after (e : Env.t) (actions : list Z) : Env.t :=
  foldl (λ e action, match Env.step pow e action with
                     | Some (e', _) => e'
                     | None => e
                     end) e actions.

(** A real-data environment: the depot at the origin, one customer one
    unit north of it, one vehicle; [real1] is its state after [reset]. *)
Definition real0 : Env.RealData :=
  Env.real_init [Data.mkCustomerData "n" 1 0 (Some 5) (Some 1)]
    [Data.mkVehicleData "van" (Some 10)] (Data.mkDepot "depot" 0 0).

Definition real1 : Env.t :=
  match Env.real_reset pow rng np_seed np_uniform np_randint real0 None 0 with
  | Some (r, _, _, _) => Env.base r
  | None => Env.base real0
  end.

(** A solver that answers every instance with one path, depot to the
    first and to the third customer. *)
Definition solver (matrix : list (list Z)) (demands capacities : list Z)
    : Service.SolverAnswer :=
  Service.Solution [[0; 1; 3]].

(** A database that knows the sample depot, the sample customers and the
    sample vehicle under any id. *)
Definition db_depot (id : string) : option Data.Depot := Some depot.
Definition db_customers (ids : list string) : list Data.CustomerData :=
  take (length ids) customers.
Definition db_vehicles (ids : list string) : list Data.VehicleData :=
  take (length ids) vehicles.

(** The rest of PyTorch for the sample network: evaluation is the
    forward pass without the generator, the loss is zero, the optimizer
    and its scheduler leave everything as it is, and a batch is the
    oldest transitions of the buffer. *)
Definition forward_eval (net : Net) (states : list (list float)) : list (list float) :=
  (λ _, net) <$> states.
Definition smooth_l1_loss (current target : list float) : float := 0%float.
Definition optimizer_step (loss : Net → float) (net : Net) (opt : Opt) : Net * Opt :=
  (net, opt).
Definition scheduler_step (opt : Opt) : Opt := opt.
Definition random_sample (buffer : list Agent.Transition) (k : Z) (g : rng)
    : option (list Agent.Transition * rng) :=
  if (0 <=? k) && (k <=? Z.of_nat (length buffer))
  then Some (take (Z.to_nat k) buffer, g + 1) else None.


(** A prioritized buffer for two transitions, still empty, whose
    priorities are floats. *)
Definition float_pow (x y : float) : option float := Some (pow x y).
Definition prioritized : PrioritizedReplayBuffer.t float :=
  PrioritizedReplayBuffer.mk [] [] 2 0.6.

End Sample.

(** * Properties *)

(** Inversion of a successful run in the option monad: every bound
    computation succeeded. *)
Ltac bind_inv :=
  repeat match goal with
  | H : (?m ≫= _) = Some _ |- _ =>
      let E := fresh "E" in destruct m eqn:E; simpl in H; [|discriminate H]
  | H : (let '(_, _) := ?p in _) = Some _ |- _ => destruct p
  | H : Some _ = Some _ |- _ => injection H as H; try subst
  | H : (_, _) = (_, _) |- _ => injection H as ? ?; try subst
  | H : None = Some _ |- _ => discriminate H
  end.

(** ** Python indexing *)

Lemma index_in_range (n : nat) (i : Z) :
  0 ≤ i < Z.of_nat n → Py.index n i = Some (Z.to_nat i).
Proof.
  intros [H0 H1]. unfold Py.index.
  destruct (Z.leb_spec 0 i); [|lia]. destruct (Z.ltb_spec i (Z.of_nat n)); [|lia]. done.
Qed.

Lemma index_Some (n : nat) (i : Z) (k : nat) :
  Py.index n i = Some k → (k < n)%nat.
Proof.
  unfold Py.index.
  destruct (Z.leb_spec 0 i), (Z.ltb_spec i (Z.of_nat n)), (Z.ltb_spec i 0),
    (Z.leb_spec (- Z.of_nat n) i); simpl; intros [= <-]; lia.
Qed.

Lemma index_nonneg (n : nat) (i : Z) (k : nat) :
  0 ≤ i → Py.index n i = Some k → k = Z.to_nat i ∧ i < Z.of_nat n.
Proof.
  unfold Py.index. intros H0.
  destruct (Z.leb_spec 0 i); [|lia]. destruct (Z.ltb_spec i (Z.of_nat n)); simpl.
  - intros [= <-]. done.
  - destruct (Z.ltb_spec i 0); [lia|]. simpl. done.
Qed.

Lemma getitem_nonneg {A} (l : list A) (i : Z) (x : A) :
  0 ≤ i → Py.getitem l i = Some x → l !! Z.to_nat i = Some x ∧ i < Z.of_nat (length l).
Proof.
  unfold Py.getitem. intros H0 H.
  destruct (Py.index (length l) i) as [k|] eqn:Hk; simpl in H; [|done].
  destruct (index_nonneg _ _ _ H0 Hk) as [-> ?]. done.
Qed.

Lemma getitem_lookup {A} (l : list A) (i : nat) (x : A) :
  l !! i = Some x → Py.getitem l (Z.of_nat i) = Some x.
Proof.
  intros H. unfold Py.getitem. rewrite index_in_range.
  - simpl. by rewrite Nat2Z.id.
  - apply lookup_lt_Some in H. lia.
Qed.

Lemma setitem_length {A} (l l' : list A) (i : Z) (x : A) :
  Py.setitem l i x = Some l' → length l' = length l.
Proof.
  unfold Py.setitem. destruct (Py.index (length l) i); simpl; [|done].
  intros [= <-]. by rewrite length_insert.
Qed.

Lemma setitem_getitem {A} (l : list A) (i : Z) (x y : A) :
  Py.getitem l i = Some y → ∃ k, Py.index (length l) i = Some k ∧ l !! k = Some y
    ∧ Py.setitem l i x = Some (<[k := x]> l).
Proof.
  unfold Py.getitem, Py.setitem.
  destruct (Py.index (length l) i) as [k|]; simpl; [|done]. eauto.
Qed.

Lemma getitem_setitem {A} (l l' : list A) (i : Z) (x : A) :
  Py.setitem l i x = Some l' → Py.getitem l' i = Some x.
Proof.
  unfold Py.setitem, Py.getitem.
  destruct (Py.index (length l) i) as [k|] eqn:Hk; simpl; [|done].
  intros [= <-]. rewrite length_insert, Hk. simpl.
  apply list_lookup_insert_eq. by eapply index_Some.
Qed.

Lemma setitem_is_Some {A} (l : list A) (i : Z) (x y : A) :
  Py.getitem l i = Some y → is_Some (Py.setitem l i x).
Proof. intros (k & _ & _ & ->)%(setitem_getitem l i x). eauto. Qed.

Lemma truediv_is_Some (a b : Z) : is_Some (Py.truediv a b) ↔ b ≠ 0.
Proof.
  unfold Py.truediv. destruct (Z.eqb_spec b 0); split; done.
Qed.

(** ** The environment: states after [reset] and [step] are well formed *)
Section EnvInvariant.

Variable pow : float → float → float.
Variable rng : Type.
Variable np_seed : Z → rng.
Variable np_uniform : float → float → rng → float * rng.
Variable np_randint : Z → Z → rng → option (Z * rng).

Lemma observation_active (e : Env.t) (o : list float) :
  Env._get_observation pow e = Some o →
  is_Some (Py.getitem (Env.vehicles e) (Env.current_vehicle_idx e)).
Proof.
  unfold Env._get_observation.
  destruct (Py.getitem (Env.vehicles e) (Env.current_vehicle_idx e)); [eauto|done].
Qed.

Lemma gen_customers_length (e : Env.t) (n : nat) (i : Z) (g g' : rng) (cs : list Env.Customer) :
  Env.gen_customers rng np_uniform np_randint e n i g = Some (cs, g') → length cs = n.
Proof.
  revert i g cs g'. induction n as [|n IH]; intros i g cs g'; simpl.
  - by intros [= <- <-].
  - destruct (np_uniform 0.1 0.9 g) as [x g1].
    destruct (np_uniform 0.1 0.9 g1) as [y g2].
    destruct (np_randint 1 (Env.max_demand e + 1) g2) as [[d g3]|]; simpl; [|done].
    destruct (np_randint 1 6 g3) as [[p g4]|]; simpl; [|done].
    destruct (Env.use_time_windows e).
    + destruct (np_uniform 0 0.5 g4) as [s g5]. destruct (np_uniform 0.2 0.5 g5) as [l g6].
      destruct (Env.gen_customers _ _ _ e n (i + 1) g6) as [[rest g7]|] eqn:Hrest;
        simpl; [|done].
      intros [= <- <-]. simpl. f_equal. eauto.
    + destruct (Env.gen_customers _ _ _ e n (i + 1) g4) as [[rest g7]|] eqn:Hrest;
        simpl; [|done].
      intros [= <- <-]. simpl. f_equal. eauto.
Qed.

Lemma reset_well_formed (e0 e : Env.t) seed g obs i g' :
  0 ≤ Env.num_customers e0 →
  Env.reset pow rng np_seed np_uniform np_randint e0 seed g = Some (e, obs, i, g') →
  Env.well_formed e ∧ Env.num_customers e = Env.num_customers e0.
Proof.
  intros Hn. unfold Env.reset.
  destruct (Env.gen_customers _ _ _ e0 _ 0 _) as [[cs g1]|] eqn:Hcs; simpl; [|done].
  match goal with |- context [Env._get_observation pow ?x] =>
    destruct (Env._get_observation pow x) as [o|] eqn:Ho end; simpl; [|done].
  intros [= <- <- <- <-]. split; [|done]. split.
  - simpl. apply gen_customers_length in Hcs. rewrite Hcs. lia.
  - by apply observation_active in Ho.
Qed.

Lemma real_reset_well_formed (r r' : Env.RealData) seed g obs i g' :
  Env.num_customers (Env.base r) = Z.of_nat (length (Env.customers_data r)) →
  Env.real_reset pow rng np_seed np_uniform np_randint r seed g = Some (r', obs, i, g') →
  Env.well_formed (Env.base r').
Proof.
  intros Hn. unfold Env.real_reset.
  destruct (Env.reset _ _ _ _ _ (Env.base r) seed g) as [[[[e o0] i0] g1]|] eqn:Hreset;
    simpl; [|done].
  apply reset_well_formed in Hreset as [_ Hnum]; [|lia].
  match goal with |- context [Env._get_observation pow ?x] =>
    destruct (Env._get_observation pow x) as [o|] eqn:Ho end; simpl; [|done].
  intros [= <- <- <- <-]. simpl. split.
  - simpl. rewrite length_imap. lia.
  - by apply observation_active in Ho.
Qed.

Lemma step_action_customers (e : Env.t) action vs cs idx rw :
  Env.step_action pow e action = Some (vs, cs, idx, rw) →
  length cs = length (Env.customers e).
Proof.
  unfold Env.step_action. intros H.
  destruct (Py.getitem (Env.vehicles e) _) as [vehicle|]; simpl in H; [|done].
  repeat first [progress bind_inv | case_match]; try done.
  by eapply setitem_length.
Qed.

Lemma step_well_formed (e e' : Env.t) action r :
  Env.well_formed e → Env.step pow e action = Some (e', r) → Env.well_formed e'.
Proof.
  intros [Hlen _]. unfold Env.step.
  destruct (Env.step_action pow e action) as [[[[vs cs] idx] rw]|] eqn:Hact; simpl; [|done].
  apply step_action_customers in Hact.
  destruct (forallb Env.c_visited cs).
  - destruct (Env.close_routes pow e vs rw) as [vs' rw'].
    match goal with |- context [Env._get_observation pow ?x] =>
      destruct (Env._get_observation pow x) as [o|] eqn:Ho end; simpl; [|done].
    intros [= <- <-]. split; [simpl; lia|]. by apply observation_active in Ho.
  - match goal with |- context [Env._get_observation pow ?x] =>
      destruct (Env._get_observation pow x) as [o|] eqn:Ho end; simpl; [|done].
    intros [= <- <-]. split; [simpl; lia|]. by apply observation_active in Ho.
Qed.

Lemma reachable_well_formed (e : Env.t) :
  Env.reachable pow rng np_seed np_uniform np_randint e → Env.well_formed e.
Proof.
  induction 1 as [e0 seed g e obs i g' Hn Hr | r seed g r' obs i g' Hn Hr | e a e' r _ IH Hs].
  - by eapply reset_well_formed.
  - by eapply real_reset_well_formed.
  - by eapply step_well_formed.
Qed.

End EnvInvariant.

(** ** The action mask *)

(** Writing [1.0] at every index of a list of in-range indices. *)
Lemma mask_writes (valid : list Z) (m : list float) :
  Forall (λ a, 0 ≤ a < Z.of_nat (length m)) valid →
  ∃ m', foldl (λ mask action, mask ≫= λ m, Py.setitem m action 1%float) (Some m) valid
          = Some m'
    ∧ length m' = length m
    ∧ ∀ j : nat, (j < length m)%nat →
        m' !! j = if decide (Z.of_nat j ∈ valid) then Some 1%float else m !! j.
Proof.
  revert m. induction valid as [|a valid IH]; intros m Hall.
  - exists m. split; [done|]. split; [done|]. intros j _.
    destruct (decide _) as [Hin|]; [by apply elem_of_nil in Hin|done].
  - apply Forall_cons in Hall as [Ha Hall]. simpl.
    unfold Py.setitem at 2. rewrite (index_in_range _ _ Ha). simpl.
    destruct (IH (<[Z.to_nat a := 1%float]> m)) as (m' & Hfold & Hlen & Hget).
    { by rewrite length_insert. }
    exists m'. split; [done|]. rewrite length_insert in Hlen. split; [done|].
    intros j Hj. rewrite Hget by (by rewrite length_insert).
    destruct (decide (Z.of_nat j ∈ valid)) as [Hin|Hnin].
    + rewrite decide_True; [done|]. apply elem_of_cons. by right.
    + destruct (decide (Z.to_nat a = j)) as [<-|Hne].
      * rewrite list_lookup_insert_eq by done.
        rewrite decide_True; [done|]. rewrite Z2Nat.id by lia. apply elem_of_cons. by left.
      * rewrite list_lookup_insert_ne by done.
        rewrite decide_False; [done|]. intros [Heq|Hin]%elem_of_cons; [lia|done].
Qed.

(** The customer indices of [get_valid_actions]. *)
Lemma valid_customer_index (vehicle : Env.Vehicle) (cs : list Env.Customer) (a : Z) :
  a ∈ omap (λ '(i, customer),
             if negb (Env.c_visited customer)
                && (Env.v_current_load vehicle + Env.c_demand customer
                      <=? Env.v_capacity vehicle)
             then Some (Z.of_nat i) else None)
        (imap (λ i customer, (i, customer)) cs)
  ↔ ∃ (i : nat) customer, a = Z.of_nat i ∧ cs !! i = Some customer
      ∧ negb (Env.c_visited customer)
        && (Env.v_current_load vehicle + Env.c_demand customer <=? Env.v_capacity vehicle)
        = true.
Proof.
  rewrite list_elem_of_omap. split.
  - intros ([i c] & Hin & Hf). apply elem_of_lookup_imap in Hin as (i' & c' & [= -> ->] & Hl).
    exists i', c'. destruct (negb _ && _); [|done]. by injection Hf as <-.
  - intros (i & c & -> & Hl & Hc). exists (i, c). split.
    + apply elem_of_lookup_imap. eauto.
    + by rewrite Hc.
Qed.

(** C4. In every reachable state the action mask has one entry per
    customer and one more for the depot return; the depot-return entry
    (index N, the customer count) is 1; the entry of customer [i] is 1
    exactly when the customer is unvisited and its demand added to the
    active vehicle's load does not exceed that vehicle's capacity, and 0
    otherwise. *)
Theorem action_mask_spec (pow : float → float → float) (rng : Type) (np_seed : Z → rng)
    (np_uniform : float → float → rng → float * rng)
    (np_randint : Z → Z → rng → option (Z * rng)) (e : Env.t) :
  Env.reachable pow rng np_seed np_uniform np_randint e →
  ∃ mask vehicle,
    Env.get_action_mask e = Some mask
    ∧ Py.getitem (Env.vehicles e) (Env.current_vehicle_idx e) = Some vehicle
    ∧ Z.of_nat (length (Env.customers e)) = Env.num_customers e
    ∧ length mask = S (length (Env.customers e))
    ∧ mask !! length (Env.customers e) = Some 1%float
    ∧ ∀ (i : nat) customer, Env.customers e !! i = Some customer →
        mask !! i = Some (if negb (Env.c_visited customer)
                             && (Env.v_current_load vehicle + Env.c_demand customer
                                   <=? Env.v_capacity vehicle)
                          then 1%float else 0%float).
Proof.
  intros [Hlen [vehicle Hv]]%reachable_well_formed.
  unfold Env.get_action_mask, Env.get_valid_actions. rewrite Hv. simpl.
  set (valid := omap _ _ ++ [Env.num_customers e]).
  set (n := S (length (Env.customers e))).
  assert (Hn : Z.to_nat (Env.action_space_n e) = n) by (unfold Env.action_space_n, n; lia).
  rewrite Hn.
  destruct (mask_writes valid (replicate n 0%float)) as (mask & Hfold & Hlm & Hget).
  { rewrite length_replicate. apply Forall_forall. intros a [Ha|Ha]%elem_of_app.
    - apply valid_customer_index in Ha as (i & c & -> & Hl & _).
      apply lookup_lt_Some in Hl. unfold n. lia.
    - apply list_elem_of_singleton in Ha as ->. unfold n. lia. }
  rewrite length_replicate in Hlm, Hget.
  exists mask, vehicle. split; [exact Hfold|]. split; [done|]. split; [done|].
  split; [done|]. split.
  - rewrite Hget by (unfold n; lia). rewrite decide_True; [done|].
    apply elem_of_app. right. apply list_elem_of_singleton. lia.
  - intros i c Hl. pose proof (lookup_lt_Some _ _ _ Hl) as Hi.
    rewrite Hget by (unfold n; lia).
    destruct (negb (Env.c_visited c) && _) eqn:Hc.
    + rewrite decide_True; [done|]. apply elem_of_app. left.
      apply valid_customer_index. eauto.
    + rewrite decide_False.
      * by rewrite lookup_replicate_2 by (unfold n; lia).
      * intros [Ha|Ha]%elem_of_app.
        -- apply valid_customer_index in Ha as (i' & c' & Heq & Hl' & Hc').
           apply Nat2Z.inj in Heq as <-. rewrite Hl in Hl'. injection Hl' as <-.
           by rewrite Hc in Hc'.
        -- apply list_elem_of_singleton in Ha. lia.
Qed.

(** ** One step of the environment *)
Section EnvStep.

Variable pow : float → float → float.
Variable rng : Type.
Variable np_seed : Z → rng.
Variable np_uniform : float → float → rng → float * rng.
Variable np_randint : Z → Z → rng → option (Z * rng).

#[local] Abbreviation reachable := (Env.reachable pow rng np_seed np_uniform np_randint).

(** The observation of a reachable state is defined: computing it was
    the last thing the [reset] or [step] before did. *)
Lemma reachable_observable (e : Env.t) :
  reachable e → is_Some (Env._get_observation pow e).
Proof.
  destruct 1 as [e0 seed g e obs i g' Hn Hr | r seed g r' obs i g' Hn Hr | e a e' r _ Hs].
  - unfold Env.reset in Hr. bind_inv. eauto.
  - unfold Env.real_reset in Hr. bind_inv. repeat case_match. bind_inv. simpl. eauto.
  - unfold Env.step in Hs. bind_inv. repeat case_match. bind_inv. eauto.
Qed.

(** The observation does not read the counters. *)
Lemma observation_set_counters (e : Env.t) (tr : float) (st : Z) :
  Env._get_observation pow (Env.set_counters e (Env.current_vehicle_idx e) tr st)
  = Env._get_observation pow e.
Proof. done. Qed.

Lemma set_vehicles_customers_same (e : Env.t) :
  Env.set_vehicles_customers e (Env.vehicles e) (Env.customers e) = e.
Proof. by destruct e. Qed.

(** C6 (amended). A step onto a customer that is already visited, in a
    reachable state where some customer is still unvisited, returns; it
    leaves every vehicle, every customer and the active-vehicle index as
    they are, adds the penalty -1.0 to [total_reward] and one to the step
    counter; it neither terminates nor, before the step budget is used up,
    truncates; the reward it returns is -1.0, or on the step that uses up
    the budget -1.0 less 2.0 for every unvisited customer. *)
Theorem step_visited (e : Env.t) (action : Z) (customer : Env.Customer) :
  reachable e →
  0 ≤ action < Env.num_customers e →
  Py.getitem (Env.customers e) action = Some customer →
  Env.c_visited customer = true →
  forallb Env.c_visited (Env.customers e) = false →
  ∃ obs,
    Env._get_observation pow e = Some obs ∧
    let e' := Env.set_counters e (Env.current_vehicle_idx e)
                (Env.total_reward e + -1.0)%float (Env.steps e + 1) in
    Env.step pow e action =
      Some (e', Env.mkStepResult obs
                  (if Env.max_steps e <=? Env.steps e + 1
                   then (-1.0 - Py.float_of_Z
                                  (Py.count (λ c, negb (Env.c_visited c)) (Env.customers e))
                                * 2.0)%float
                   else (-1.0)%float)
                  false (Env.max_steps e <=? Env.steps e + 1) (Env._get_info e')).
Proof.
  intros Hreach [H0 HN] Hc Hvis Hall.
  destruct (reachable_observable e Hreach) as [obs Hobs].
  destruct (reachable_well_formed _ _ _ _ _ _ Hreach) as [_ [vehicle Hv]].
  exists obs. split; [done|]. intros e'.
  unfold Env.step, Env.step_action. rewrite Hv. simpl.
  destruct (Z.eqb_spec action (Env.num_customers e)); [lia|].
  destruct (Z.leb_spec 0 action); [|lia].
  destruct (Z.ltb_spec action (Env.num_customers e)); [|lia].
  simpl. rewrite Hc. simpl. rewrite Hvis. simpl. rewrite Hall.
  rewrite set_vehicles_customers_same.
  by rewrite observation_set_counters, Hobs.
Qed.

(** When the observation is defined. *)
Lemma observation_is_Some (e : Env.t) :
  is_Some (Env._get_observation pow e) ↔
  ∃ vehicle, Py.getitem (Env.vehicles e) (Env.current_vehicle_idx e) = Some vehicle
    ∧ (Env.customers e = [] ∨ Env.max_demand e ≠ 0)
    ∧ Env.v_capacity vehicle ≠ 0 ∧ Env.num_vehicles e ≠ 0 ∧ Env.num_customers e ≠ 0.
Proof.
  unfold Env._get_observation.
  destruct (Py.getitem (Env.vehicles e) (Env.current_vehicle_idx e)) as [vehicle|];
    simpl; [|split; [by intros [? ?]|by intros (? & ? & _)]].
  match goal with |- context [mapM ?f _] => set (per := f) end.
  assert (Hper : is_Some (mapM per (Env.customers e))
                 ↔ Env.customers e = [] ∨ Env.max_demand e ≠ 0).
  { rewrite mapM_is_Some. split.
    - destruct (Env.customers e) as [|c cs]; [by left|]. intros Hall. right.
      apply Forall_cons in Hall as [Hc _]. unfold per, compose, Py.truediv in Hc.
      simpl in Hc. destruct (Z.eqb_spec (Env.max_demand e) 0); [by destruct Hc|done].
    - intros [->|Hmd]; [constructor|]. apply Forall_forall. intros c _.
      unfold per, compose, Py.truediv. simpl.
      destruct (Z.eqb_spec (Env.max_demand e) 0); [done|]. simpl. eauto. }
  split.
  - intros [o Ho]. exists vehicle. split; [done|].
    destruct (mapM per (Env.customers e)) as [pc|] eqn:Hpc; simpl in Ho; [|done].
    split; [apply Hper; eauto|]. unfold Py.truediv in Ho.
    destruct (Z.eqb_spec (Env.v_capacity vehicle) 0); [done|]. simpl in Ho.
    destruct (Z.eqb_spec (Env.num_vehicles e) 0); [done|]. simpl in Ho.
    destruct (Z.eqb_spec (Env.num_customers e) 0); [done|]. done.
  - intros (v & [= <-] & Hc & Hcap & Hnv & Hnc).
    apply Hper in Hc as [pc ->]. simpl. unfold Py.truediv.
    destruct (Z.eqb_spec (Env.v_capacity vehicle) 0); [done|]. simpl.
    destruct (Z.eqb_spec (Env.num_vehicles e) 0); [done|]. simpl.
    destruct (Z.eqb_spec (Env.num_customers e) 0); [done|]. simpl. eauto.
Qed.

Lemma not_all_visited (cs : list Env.Customer) (i : Z) (c : Env.Customer) :
  Py.getitem cs i = Some c → Env.c_visited c = false → forallb Env.c_visited cs = false.
Proof.
  unfold Py.getitem. destruct (Py.index (length cs) i) as [k|]; simpl; [|done].
  intros Hl Hv. apply not_true_is_false. intros Hall.
  rewrite forallb_forall in Hall. apply list_elem_of_lookup_2, list_elem_of_In in Hl.
  specialize (Hall _ Hl). congruence.
Qed.

(** C5 (amended). A step onto an unvisited customer whose demand does
    not fit into what is left of the active vehicle's capacity, in a
    reachable state, returns; the active vehicle ends it at the depot with
    load 0 and its distance raised by the way back, the customer stays
    unvisited, [total_reward] grows by -0.5 - 0.1 * distance; the reward
    it returns is that penalty, or on the step that uses up the step
    budget that penalty less 2.0 for every unvisited customer. *)
Theorem step_over_capacity (e : Env.t) (action : Z) (customer : Env.Customer)
    (vehicle : Env.Vehicle) :
  reachable e →
  0 ≤ action < Env.num_customers e →
  Py.getitem (Env.customers e) action = Some customer →
  Env.c_visited customer = false →
  Py.getitem (Env.vehicles e) (Env.current_vehicle_idx e) = Some vehicle →
  Env.v_capacity vehicle < Env.v_current_load vehicle + Env.c_demand customer →
  let distance := Env._calculate_distance pow (Env.v_current_x vehicle)
                    (Env.v_current_y vehicle) (Env.depot_x e) (Env.depot_y e) in
  let penalty := (-0.5 - distance * 0.1)%float in
  ∃ vs obs,
    Py.setitem (Env.vehicles e) (Env.current_vehicle_idx e)
      (Env.returned e vehicle distance) = Some vs ∧
    let e' := Env.set_counters (Env.set_vehicles_customers e vs (Env.customers e))
                (Env.current_vehicle_idx e) (Env.total_reward e + penalty)%float
                (Env.steps e + 1) in
    Env.step pow e action =
      Some (e', Env.mkStepResult obs
                  (if Env.max_steps e <=? Env.steps e + 1
                   then (penalty - Py.float_of_Z
                                     (Py.count (λ c, negb (Env.c_visited c))
                                        (Env.customers e)) * 2.0)%float
                   else penalty)
                  false (Env.max_steps e <=? Env.steps e + 1) (Env._get_info e'))
    ∧ Py.getitem (Env.vehicles e') (Env.current_vehicle_idx e')
      = Some (Env.mkVehicle (Env.v_id vehicle) (Env.v_capacity vehicle) 0
                (Env.depot_x e) (Env.depot_y e) (Env.v_route vehicle)
                (Env.v_total_distance vehicle + distance)%float)
    ∧ Py.getitem (Env.customers e') action = Some customer.
Proof.
  intros Hreach [H0 HN] Hc Hvis Hv Hcap distance penalty.
  destruct (setitem_is_Some _ _ (Env.returned e vehicle distance) _ Hv) as [vs Hvs].
  exists vs.
  set (e' := Env.set_counters _ _ _ _).
  assert (Hobs : is_Some (Env._get_observation pow e')).
  { apply observation_is_Some.
    apply reachable_observable, observation_is_Some in Hreach
      as (v & Hv' & Hmd & Hcp & Hnv & Hnc).
    rewrite Hv in Hv'. injection Hv' as <-.
    exists (Env.returned e vehicle distance). split; [|done].
    simpl. by eapply getitem_setitem. }
  destruct Hobs as [obs Hobs]. exists obs. split; [done|]. split.
  - unfold Env.step, Env.step_action. rewrite Hv. simpl.
    destruct (Z.eqb_spec action (Env.num_customers e)); [lia|].
    destruct (Z.leb_spec 0 action); [|lia].
    destruct (Z.ltb_spec action (Env.num_customers e)); [|lia].
    simpl. rewrite Hc. simpl. rewrite Hvis. simpl.
    destruct (Z.ltb_spec (Env.v_capacity vehicle)
                (Env.v_current_load vehicle + Env.c_demand customer)); [|lia].
    fold distance. rewrite Hvs. simpl.
    rewrite (not_all_visited _ _ _ Hc Hvis).
    fold penalty. fold e'. by rewrite Hobs.
  - split; [|done]. simpl. by eapply getitem_setitem.
Qed.

End EnvStep.

(** ** Order of floats
    [<] and [<=] on binary64, read off their specification. *)

Ltac sf_cases :=
  unfold SFltb, SFleb, SFcompare;
  repeat match goal with
  | |- context [Pos.compare_cont Eq ?a ?b] =>
      change (Pos.compare_cont Eq a b) with (Pos.compare a b)
  end;
  repeat match goal with
  | |- context [Z.compare ?a ?b] => destruct (Z.compare_spec a b)
  | |- context [Pos.compare ?a ?b] => destruct (Pos.compare_spec a b)
  end; simpl; try congruence; try lia.

Lemma SFltb_trans a b c : SFltb a b = true → SFltb b c = true → SFltb a c = true.
Proof.
  destruct a as [[]|[]| |[] ma ea], b as [[]|[]| |[] mb eb], c as [[]|[]| |[] mc ec];
    try (simpl; congruence); sf_cases.
Qed.

Lemma SFleb_ltb_trans a b c : SFleb a b = true → SFltb b c = true → SFltb a c = true.
Proof.
  destruct a as [[]|[]| |[] ma ea], b as [[]|[]| |[] mb eb], c as [[]|[]| |[] mc ec];
    try (simpl; congruence); sf_cases.
Qed.

Lemma SFltb_not_leb a b : SFltb a b = true → SFleb b a = false.
Proof.
  destruct a as [[]|[]| |[] ma ea], b as [[]|[]| |[] mb eb];
    try (simpl; congruence); sf_cases.
Qed.

Lemma ltb_trans (a b c : float) : (a <? b)%float = true → (b <? c)%float = true →
  (a <? c)%float = true.
Proof. rewrite !ltb_spec. apply SFltb_trans. Qed.

Lemma leb_ltb_trans (a b c : float) : (a <=? b)%float = true → (b <? c)%float = true →
  (a <? c)%float = true.
Proof. rewrite leb_spec, !ltb_spec. apply SFleb_ltb_trans. Qed.

Lemma ltb_not_leb (a b : float) : (a <? b)%float = true → (b <=? a)%float = false.
Proof. rewrite leb_spec, ltb_spec. apply SFltb_not_leb. Qed.


(** ** The constructive heuristic *)
Section Greedy.

Variable pow : float → float → float.
Variable sin : float → float.
Variable cos : float → float.
Variable atan2 : float → float → float.
Variable round2 : float → float.
Variable osrm : list Service.Coord → option (list Service.Coord * float * float).

#[local] Abbreviation haversine := (Service._haversine_distance pow sin cos atan2).
#[local] Abbreviation nearest_feasible := (Service.nearest_feasible pow sin cos atan2).
#[local] Abbreviation fill := (Service.fill pow sin cos atan2).
#[local] Abbreviation route_vehicle := (Service.route_vehicle pow sin cos atan2 round2 osrm).
#[local] Abbreviation optimize_greedy := (Service.optimize_greedy pow sin cos atan2 round2 osrm).
(** The customer fits into what is left of the capacity. *)
#[local] Abbreviation fits f capacity c :=
  (Service.current_load f + Data.demand_of c ≤ capacity).
(** The leg from where the vehicle stands to the customer. *)
#[local] Abbreviation leg f c :=
  (haversine (Service.current_lat f) (Service.current_lon f) (Data.cd_lat c) (Data.cd_lon c)).

Lemma remove_first_length (b : nat) (l : list nat) :
  b ∈ l → S (length (Service.remove_first b l)) = length l.
Proof.
  induction l as [|y l IH]; [by intros ?%elem_of_nil|].
  intros Hin. simpl. destruct (decide (y = b)) as [->|Hne]; [done|].
  apply elem_of_cons in Hin as [->|Hin]; [done|]. simpl. by rewrite IH.
Qed.

Lemma remove_first_subset (b j : nat) (l : list nat) :
  j ∈ Service.remove_first b l → j ∈ l.
Proof.
  induction l as [|y l IH]; [done|]. simpl.
  destruct (decide (y = b)); rewrite !elem_of_cons; [by right|]. intros [->|?]; auto.
Qed.

(** What the scan of the candidates returns: the choice it started with,
    when no candidate that fits is strictly nearer; otherwise a candidate
    that fits, strictly nearer than the start, such that every candidate
    before it that fits is strictly farther (or has no comparable
    distance) and no candidate after it that fits is strictly nearer. *)
Lemma nearest_feasible_spec (customers : list Data.CustomerData) (f : Service.Filling)
    (capacity : Z) (candidates : list nat) :
  ∀ best bd r d,
    nearest_feasible customers f capacity best bd candidates = Some (r, d) →
    (r = best ∧ d = bd
     ∧ ∀ j cj dj, j ∈ candidates → customers !! j = Some cj → fits f capacity cj →
         leg f cj = Some dj → (dj <? bd)%float = false)
    ∨ (∃ b c pre post,
         r = Some b ∧ candidates = pre ++ b :: post
         ∧ customers !! b = Some c ∧ fits f capacity c ∧ leg f c = Some d
         ∧ (d <? bd)%float = true
         ∧ (∀ j cj dj, j ∈ pre → customers !! j = Some cj → fits f capacity cj →
              leg f cj = Some dj → (dj <=? d)%float = false)
         ∧ (∀ j cj dj, j ∈ post → customers !! j = Some cj → fits f capacity cj →
              leg f cj = Some dj → (dj <? d)%float = false)).
Proof.
  induction candidates as [|idx rest IH]; intros best bd r d Hrun; simpl in Hrun.
  { injection Hrun as <- <-. left. split; [done|]. split; [done|].
    by intros j cj dj ?%elem_of_nil. }
  destruct (customers !! idx) as [c0|] eqn:Hc0; simpl in Hrun; [|done].
  destruct (Z.leb_spec (Service.current_load f + Data.demand_of c0) capacity) as [Hfit|Hnofit].
  - destruct (leg f c0) as [d0|] eqn:Hd0; simpl in Hrun; [|done].
    destruct (d0 <? bd)%float eqn:Hlt.
    + (* the candidate becomes the best so far *)
      apply IH in Hrun as [(-> & -> & Hrest) | (b & c & pre & post & -> & -> & Hb & Hfb & Hdb
                                                 & Hltb & Hpre & Hpost)].
      * right. exists idx, c0, [], rest. repeat split; try done.
        by intros j cj dj ?%elem_of_nil.
      * right. exists b, c, (idx :: pre), post. repeat split; try done.
        -- by eapply ltb_trans.
        -- intros j cj dj [->|Hj]%elem_of_cons Hcj Hfj Hdj; [|by eapply Hpre].
           rewrite Hc0 in Hcj. injection Hcj as <-. rewrite Hd0 in Hdj. injection Hdj as <-.
           by apply ltb_not_leb.
    + (* the best so far stays *)
      apply IH in Hrun as [(-> & -> & Hrest) | (b & c & pre & post & -> & -> & Hb & Hfb & Hdb
                                                 & Hltb & Hpre & Hpost)].
      * left. repeat split; try done.
        intros j cj dj [->|Hj]%elem_of_cons Hcj Hfj Hdj; [|by eapply Hrest].
        rewrite Hc0 in Hcj. injection Hcj as <-. rewrite Hd0 in Hdj. by injection Hdj as <-.
      * right. exists b, c, (idx :: pre), post. repeat split; try done.
        intros j cj dj [->|Hj]%elem_of_cons Hcj Hfj Hdj; [|by eapply Hpre].
        rewrite Hc0 in Hcj. injection Hcj as <-. rewrite Hd0 in Hdj. injection Hdj as <-.
        destruct (d0 <=? d)%float eqn:Hle; [|done].
        rewrite (leb_ltb_trans _ _ _ Hle Hltb) in Hlt. done.
  - (* the candidate does not fit: it is skipped *)
    apply IH in Hrun as [(-> & -> & Hrest) | (b & c & pre & post & -> & -> & Hb & Hfb & Hdb
                                               & Hltb & Hpre & Hpost)].
    + left. repeat split; try done.
      intros j cj dj [->|Hj]%elem_of_cons Hcj Hfj Hdj; [|by eapply Hrest].
      rewrite Hc0 in Hcj. injection Hcj as <-. lia.
    + right. exists b, c, (idx :: pre), post. repeat split; try done.
      intros j cj dj [->|Hj]%elem_of_cons Hcj Hfj Hdj; [|by eapply Hpre].
      rewrite Hc0 in Hcj. injection Hcj as <-. lia.
Qed.

Lemma demand_sum_app (l1 l2 : list Service.RoutePoint) :
  Service.demand_sum (l1 ++ l2) = Service.demand_sum l1 + Service.demand_sum l2.
Proof.
  unfold Service.demand_sum. rewrite fmap_app.
  induction (Service.demand <$> l1) as [|x xs IH]; simpl; lia.
Qed.

(** Filling one vehicle.  The stops are appended to the route; the load
    grows by their demands and, once a customer is taken, stays within the
    capacity; every stop leaves the unassigned list; and the loop ends
    only when nobody is left or the scan finds no customer. *)
Lemma fill_spec (customers : list Data.CustomerData) (capacity : Z) (rounds : nat) :
  ∀ f f',
    (length (Service.unassigned f) ≤ rounds)%nat →
    fill rounds customers capacity f = Some f' →
    ∃ new,
      Service.route_points f' = Service.route_points f ++ new
      ∧ Service.current_load f' = Service.current_load f + Service.demand_sum new
      ∧ (new ≠ [] → Service.current_load f' ≤ capacity)
      ∧ (length new + length (Service.unassigned f'))%nat = length (Service.unassigned f)
      ∧ (∀ j, j ∈ Service.unassigned f' → j ∈ Service.unassigned f)
      ∧ (Service.unassigned f' = []
         ∨ ∃ d, nearest_feasible customers f' capacity None infinity (Service.unassigned f')
                = Some (None, d))
      ∧ Forall (λ p, ∃ j c, j ∈ Service.unassigned f ∧ customers !! j = Some c
                       ∧ Service.customer_id p = Data.cd_id c
                       ∧ Service.location p = Service.mkCoord (Data.cd_lat c) (Data.cd_lon c)
                       ∧ Service.demand p = Data.demand_of c) new
      ∧ (new = [] ∧ f' = f
         ∨ ∃ p, last new = Some p
             ∧ Service.location p
               = Service.mkCoord (Service.current_lat f') (Service.current_lon f')).
Proof.
  induction rounds as [|k IH]; intros f f' Hlen Hrun; simpl in Hrun.
  { injection Hrun as <-. exists []. rewrite app_nil_r. repeat split; try done.
    - unfold Service.demand_sum. simpl. lia.
    - left. destruct (Service.unassigned f); [done|simpl in Hlen; lia].
    - by left. }
  destruct (Service.unassigned f) as [|u us] eqn:Hun.
  { injection Hrun as <-. exists []. rewrite app_nil_r, Hun. repeat split; try done.
    - unfold Service.demand_sum. simpl. lia.
    - by left.
    - by left. }
  rewrite <- Hun in *.
  destruct (nearest_feasible customers f capacity None infinity (Service.unassigned f))
    as [[best bd]|] eqn:Hscan; simpl in Hrun; [|done].
  destruct best as [b|].
  - destruct (customers !! b) as [c|] eqn:Hc; simpl in Hrun; [|done].
    apply nearest_feasible_spec in Hscan
      as [([=] & _) | (b' & c' & pre & post & [= <-] & Hsplit & Hc' & Hfit & _)].
    rewrite Hc in Hc'. injection Hc' as <-.
    assert (Hin : b ∈ Service.unassigned f).
    { rewrite Hsplit. apply elem_of_app. right. apply elem_of_cons. by left. }
    apply IH in Hrun as (new & Hroute & Hload & Hcap & Hcount & Hsub & Hstop & Hpts & Hpos).
    2:{ simpl. pose proof (remove_first_length _ _ Hin). lia. }
    simpl in Hroute, Hload, Hcount, Hsub, Hpts.
    set (pt := Service.mkRoutePoint _ _ _ _) in Hroute.
    exists (pt :: new). split; [by rewrite Hroute, <- app_assoc|].
    split.
    { rewrite Hload. change (Service.demand_sum (pt :: new))
        with (Data.demand_of c + Service.demand_sum new). lia. }
    split.
    { intros _. destruct new as [|p new'].
      - rewrite Hload. unfold Service.demand_sum. simpl. lia.
      - by apply Hcap. }
    split; [pose proof (remove_first_length _ _ Hin); simpl; lia|].
    split; [intros j Hj; eapply remove_first_subset; by apply Hsub|].
    split; [done|]. split.
    { constructor; [by exists b, c|].
      eapply Forall_impl; [exact Hpts|]. intros p (j & cj & Hj & Hcj & Hrest).
      exists j, cj. split; [by eapply remove_first_subset|done]. }
    right. destruct Hpos as [[-> ->] | (p & Hlast & Hloc)].
    + by exists pt.
    + exists p. split; [|done]. destruct new; [done|]. done.
  - injection Hrun as <-. exists []. rewrite app_nil_r. repeat split; try done.
    + unfold Service.demand_sum. simpl. lia.
    + right. eauto.
    + by left.
Qed.

(** One vehicle: the filling it ran, and the route it appended when the
    filling took a customer. *)
Lemma route_vehicle_spec (depot : Data.Depot) (customers : list Data.CustomerData)
    (use_real_roads : bool) (vehicle : Data.VehicleData)
    (routes routes' : list Service.Route) (un un' : list nat) :
  route_vehicle depot customers use_real_roads vehicle (routes, un) = Some (routes', un') →
  ∃ f',
    fill (length un) customers (default 100 (Data.vd_capacity vehicle))
      (Service.mkFilling [] (Data.d_lat depot) (Data.d_lon depot) 0 (Py.Int 0) un) = Some f'
    ∧ un' = Service.unassigned f'
    ∧ ((Service.route_points f' = [] ∧ routes' = routes)
       ∨ (Service.route_points f' ≠ []
          ∧ ∃ route, routes' = routes ++ [route]
              ∧ Service.vehicle_id route = Data.vd_id vehicle
              ∧ Service.points route = Service.route_points f'
              ∧ Service.total_demand route = Service.current_load f'
              ∧ (use_real_roads = false →
                 Service.geometry route = Service._build_geometry depot (Service.points route)))).
Proof.
  unfold Service.route_vehicle. intros Hrun.
  destruct (fill _ _ _ _) as [f'|] eqn:Hfill; simpl in Hrun; [|done].
  exists f'. split; [done|].
  destruct (Service.route_points f') as [|p ps] eqn:Hpts.
  { injection Hrun as <- <-. split; [done|]. by left. }
  destruct (haversine _ _ _ _) as [back|]; simpl in Hrun; [|done].
  destruct use_real_roads.
  - destruct (Service._build_geometry_with_roads _ _ _ _ _ _ _) as [[[geo rd] rt]|];
      simpl in Hrun; [|done].
    destruct (Py.int rt) as [minutes|]; simpl in Hrun; [|done].
    injection Hrun as <- <-. split; [done|]. right. split; [done|].
    eexists. repeat split; done.
  - destruct (Py.int _) as [minutes|]; simpl in Hrun; [|done].
    injection Hrun as <- <-. split; [done|]. right. split; [done|].
    eexists. repeat split; done.
Qed.

Lemma foldl_bind_None {A B} (step : B → A → option A) (l : list B) :
  foldl (λ acc x, acc ≫= step x) None l = None.
Proof. by induction l. Qed.

Lemma foldl_bind_cons {A B} (step : B → A → option A) (a : A) (x : B) (l : list B) :
  foldl (λ acc x, acc ≫= step x) (Some a) (x :: l)
  = foldl (λ acc x, acc ≫= step x) (step x a) l.
Proof. done. Qed.

(** A route of the heuristic against the vehicle it was built for. *)
#[local] Abbreviation route_of route vehicle :=
  (Service.vehicle_id route = Data.vd_id vehicle
   ∧ Service.points route ≠ []
   ∧ Service.total_demand route = Service.demand_sum (Service.points route)
   ∧ Service.demand_sum (Service.points route) ≤ default 100 (Data.vd_capacity vehicle)).

(** The loop over the vehicles: the routes appended belong, in order, to
    some of the vehicles, and every stop left the unassigned list. *)
Lemma vehicles_loop_spec (depot : Data.Depot) (customers : list Data.CustomerData)
    (use_real_roads : bool) (vehicles : list Data.VehicleData) :
  ∀ routes un routes' un',
    foldl (λ acc vehicle, acc ≫= route_vehicle depot customers use_real_roads vehicle)
      (Some (routes, un)) vehicles = Some (routes', un') →
    ∃ added served,
      routes' = routes ++ added
      ∧ served `sublist_of` vehicles
      ∧ Forall2 (λ route vehicle, route_of route vehicle) added served
      ∧ (length (concat (Service.points <$> added)) + length un')%nat = length un
      ∧ (∀ j, j ∈ un' → j ∈ un).
Proof.
  induction vehicles as [|v vs IH]; intros routes un routes' un' Hrun.
  { injection Hrun as <- <-. exists [], []. rewrite app_nil_r. repeat split; done. }
  rewrite foldl_bind_cons in Hrun.
  destruct (route_vehicle depot customers use_real_roads v (routes, un))
    as [[routes1 un1]|] eqn:Hv; [|by rewrite foldl_bind_None in Hrun].
  apply IH in Hrun as (added & served & -> & Hsub & Hall & Hcount & Hin).
  apply route_vehicle_spec in Hv as (f' & Hfill & -> & Hroute).
  apply fill_spec in Hfill as (new & Hpts & Hload & Hcap & Hcnt & Hsubset & _); [|done].
  simpl in Hpts, Hload, Hcnt, Hsubset.
  destruct Hroute as [[Hempty ->] | [Hne (route & -> & Hid & Hrp & Hdem & _)]].
  - rewrite Hempty in Hpts. subst new. simpl in Hcnt.
    exists added, served. repeat split; try done.
    + by apply sublist_cons.
    + lia.
    + auto.
  - exists (route :: added), (v :: served). repeat split.
    + by rewrite <- app_assoc.
    + by apply sublist_skip.
    + constructor; [|done]. rewrite Hrp, Hdem, Hpts, Hload.
      split; [done|]. split; [by rewrite <- Hpts|]. split; [lia|].
      replace (Service.demand_sum new) with (Service.current_load f') by lia.
      apply Hcap. intros ->. by rewrite Hpts in Hne.
    + rewrite fmap_cons. cbn [concat]. rewrite length_app, Hrp, Hpts. lia.
    + auto.
Qed.

Lemma served_count (routes : list Service.Route) :
  foldl Z.add 0 ((λ r, Z.of_nat (length (Service.points r))) <$> routes)
  = Z.of_nat (length (concat (Service.points <$> routes))).
Proof.
  assert (H : ∀ a, foldl Z.add a ((λ r, Z.of_nat (length (Service.points r))) <$> routes)
                   = a + Z.of_nat (length (concat (Service.points <$> routes)))).
  { induction routes as [|r rs IH]; intros a; [simpl; lia|].
    rewrite !fmap_cons. cbn [foldl concat]. rewrite IH, length_app. lia. }
  rewrite H. lia.
Qed.

(** What a result of the heuristic looks like: its routes belong, in
    order, to some of the vehicles; each has a stop, reports the summed
    demand of its stops, and stays within the capacity of its vehicle;
    the customers are split into served and unserved. *)
Lemma greedy_result_spec (depot : Data.Depot) (customers : list Data.CustomerData)
    (vehicles : list Data.VehicleData) (use_real_roads : bool) (r : Service.Result) :
  optimize_greedy depot customers vehicles use_real_roads = Some r →
  Service.success r = true
  ∧ Service.metrics r = Service.MethodGreedy
  ∧ Service.customers_served r + Service.customers_unserved r = Z.of_nat (length customers)
  ∧ Service.customers_served r
    = Z.of_nat (length (concat (Service.points <$> Service.routes r)))
  ∧ ∃ served, served `sublist_of` vehicles
      ∧ Forall2 (λ route vehicle, route_of route vehicle) (Service.routes r) served.
Proof.
  unfold Service.optimize_greedy. intros Hrun.
  destruct (foldl _ _ vehicles) as [[routes un]|] eqn:Hloop; simpl in Hrun; [|done].
  destruct (Py.int _) as [minutes|]; simpl in Hrun; [|done].
  injection Hrun as <-. simpl.
  apply vehicles_loop_spec in Hloop as (added & served & -> & Hsub & Hall & Hcount & _).
  simpl. rewrite length_seq in Hcount. rewrite served_count.
  repeat split; try done; [lia|]. eauto.
Qed.

(** A scan that returns computed the leg of every candidate that fits. *)
Lemma nearest_feasible_defined (customers : list Data.CustomerData) (f : Service.Filling)
    (capacity : Z) (candidates : list nat) :
  ∀ best bd res,
    nearest_feasible customers f capacity best bd candidates = Some res →
    ∀ j, j ∈ candidates →
      ∃ cj, customers !! j = Some cj ∧ (fits f capacity cj → is_Some (leg f cj)).
Proof.
  induction candidates as [|idx rest IH]; intros best bd res Hrun j Hj;
    [by apply elem_of_nil in Hj|].
  simpl in Hrun.
  destruct (customers !! idx) as [c0|] eqn:Hc0; simpl in Hrun; [|done].
  destruct (Z.leb_spec (Service.current_load f + Data.demand_of c0) capacity) as [Hfit|Hnofit].
  - destruct (leg f c0) as [d0|] eqn:Hd0; simpl in Hrun; [|done].
    apply elem_of_cons in Hj as [->|Hj].
    + exists c0. split; [done|]. rewrite Hd0. eauto.
    + destruct (d0 <? bd)%float; eapply IH; eauto.
  - apply elem_of_cons in Hj as [->|Hj].
    + exists c0. split; [done|]. lia.
    + eapply IH; eauto.
Qed.

Lemma proper_legs_spec (pts : list Service.Coord) (p q : Service.Coord) (d : float) :
  Service.proper_legs pow sin cos atan2 pts = true → p ∈ pts → q ∈ pts →
  haversine (Service.lat p) (Service.lon p) (Service.lat q) (Service.lon q) = Some d →
  (d <? infinity)%float = true.
Proof.
  unfold Service.proper_legs. rewrite forallb_forall. intros Hall Hp Hq Hd.
  apply list_elem_of_In in Hp, Hq. specialize (Hall _ Hp). rewrite forallb_forall in Hall.
  specialize (Hall _ Hq). by rewrite Hd in Hall.
Qed.

(** With proper legs a filling ends only when nobody is left or nobody
    left fits. *)
Lemma fill_exhausts (pts : list Service.Coord) (customers : list Data.CustomerData)
    (capacity : Z) (f' : Service.Filling) (d : float) :
  Service.proper_legs pow sin cos atan2 pts = true →
  Service.mkCoord (Service.current_lat f') (Service.current_lon f') ∈ pts →
  (∀ c, c ∈ customers → Service.mkCoord (Data.cd_lat c) (Data.cd_lon c) ∈ pts) →
  nearest_feasible customers f' capacity None infinity (Service.unassigned f')
    = Some (None, d) →
  ∀ j, j ∈ Service.unassigned f' →
    ∃ cj, customers !! j = Some cj ∧ capacity < Service.current_load f' + Data.demand_of cj.
Proof.
  intros Hproper Hpos Hcs Hscan j Hj.
  destruct (nearest_feasible_defined _ _ _ _ _ _ _ Hscan j Hj) as (cj & Hcj & Hleg).
  exists cj. split; [done|].
  destruct (Z.lt_ge_cases capacity (Service.current_load f' + Data.demand_of cj)) as [|Hfit];
    [done|].
  destruct Hleg as [dj Hdj]; [lia|].
  apply nearest_feasible_spec in Hscan as [(_ & -> & Hnone) | (b & ? & ? & ? & [=] & _)].
  specialize (Hnone j cj dj Hj Hcj ltac:(lia) Hdj).
  rewrite (proper_legs_spec pts (Service.mkCoord _ _) (Service.mkCoord _ _) dj Hproper Hpos
             (Hcs cj (list_elem_of_lookup_2 _ _ _ Hcj)) Hdj) in Hnone.
  done.
Qed.

Lemma demand_sum_const (k : Z) (pts : list Service.RoutePoint) :
  Forall (λ p, Service.demand p = k) pts →
  Service.demand_sum pts = k * Z.of_nat (length pts).
Proof.
  induction 1 as [|p pts Hp _ IH]; [unfold Service.demand_sum; simpl; lia|].
  change (Service.demand_sum (p :: pts)) with (Service.demand p + Service.demand_sum pts).
  rewrite IH, Hp, length_cons. lia.
Qed.

(** C7. Three customers of demand 5 each and one vehicle of capacity 10:
    a run of the constructive heuristic that returns (no exception of the
    distance function or of the minutes' conversion) over proper legs
    serves exactly two customers on one route, closes the route at the
    depot, and reports one customer unserved. *)
Theorem greedy_three_customers_one_vehicle (depot : Data.Depot)
    (c1 c2 c3 : Data.CustomerData) (vehicle : Data.VehicleData) (use_real_roads : bool)
    (r : Service.Result) :
  Data.cd_demand c1 = Some 5 → Data.cd_demand c2 = Some 5 → Data.cd_demand c3 = Some 5 →
  Data.vd_capacity vehicle = Some 10 →
  Service.proper_legs pow sin cos atan2 (Service.places depot [c1; c2; c3]) = true →
  optimize_greedy depot [c1; c2; c3] [vehicle] use_real_roads = Some r →
  Service.customers_served r = 2
  ∧ Service.customers_unserved r = 1
  ∧ ∃ route,
      Service.routes r = [route]
      ∧ Service.vehicle_id route = Data.vd_id vehicle
      ∧ length (Service.points route) = 2%nat
      ∧ Service.total_demand route = 10
      ∧ (use_real_roads = false →
         Service.geometry route
         = [Service.depot_coord depot] ++ (Service.location <$> Service.points route)
             ++ [Service.depot_coord depot]).
Proof.
  intros Hd1 Hd2 Hd3 Hcap Hproper Hrun.
  set (customers := [c1; c2; c3]) in *.
  assert (Hdemand : ∀ j c, customers !! j = Some c → Data.demand_of c = 5).
  { intros [|[|[|j]]] c [= <-]; unfold Data.demand_of; by rewrite ?Hd1, ?Hd2, ?Hd3. }
  assert (Hplaces : ∀ c, c ∈ customers →
            Service.mkCoord (Data.cd_lat c) (Data.cd_lon c) ∈ Service.places depot customers).
  { intros c Hc. unfold Service.places. apply elem_of_cons. right.
    apply (list_elem_of_fmap_2 (λ c, Service.mkCoord (Data.cd_lat c) (Data.cd_lon c))).
    done. }
  unfold Service.optimize_greedy in Hrun. rewrite foldl_bind_cons in Hrun.
  cbn [foldl] in Hrun.
  destruct (route_vehicle depot customers use_real_roads vehicle ([], seq 0 (length customers)))
    as [[routes un]|] eqn:Hv; [|done].
  cbn [mbind option_bind] in Hrun.
  destruct (Py.int _) as [minutes|]; [|done].
  injection Hrun as <-. cbn [Service.customers_served Service.customers_unserved Service.routes].
  apply route_vehicle_spec in Hv as (f' & Hfill & -> & Hroute).
  rewrite Hcap in Hfill. change (default 100 (Some 10)) with 10 in Hfill.
  pose proof Hfill as Hspec.
  apply fill_spec in Hspec
    as (new & Hpts & Hload & Hle & Hcount & Hsub & Hstop & Hnew & Hpos); [|done].
  simpl in Hpts, Hload, Hcount, Hsub, Hnew, Hpos.
  assert (Hsum : Service.demand_sum new = 5 * Z.of_nat (length new)).
  { apply demand_sum_const. eapply Forall_impl; [exact Hnew|].
    intros p (j & c & _ & Hc & _ & _ & ->). by eapply Hdemand. }
  assert (Hhere : Service.mkCoord (Service.current_lat f') (Service.current_lon f')
                  ∈ Service.places depot customers).
  { destruct Hpos as [[_ ->] | (p & Hlast & <-)].
    - apply elem_of_cons. by left.
    - apply last_Some in Hlast as [new' ->].
      apply Forall_app in Hnew as [_ Hp]. apply Forall_singleton in Hp
        as (j & c & _ & Hc & _ & -> & _).
      apply Hplaces. by eapply list_elem_of_lookup_2. }
  assert (Htwo : length new = 2%nat).
  { destruct Hstop as [Hnone | [d Hscan]].
    - rewrite Hnone in Hcount. simpl in Hcount.
      assert (new ≠ []) as Hne%Hle by (intros ->; simpl in Hcount; lia). lia.
    - destruct (Service.unassigned f') as [|j rest] eqn:Hun.
      + simpl in Hcount. assert (new ≠ []) as Hne%Hle by (intros ->; simpl in Hcount; lia).
        lia.
      + rewrite <- Hun in Hscan.
        destruct (fill_exhausts _ _ _ _ _ Hproper Hhere Hplaces Hscan j) as (cj & Hcj & Hover).
        { rewrite Hun. apply elem_of_cons. by left. }
        rewrite (Hdemand _ _ Hcj) in Hover.
        destruct new as [|p new']; [simpl in *; lia|].
        assert (p :: new' ≠ []) as Hne%Hle by done. simpl in *. lia. }
  assert (Hne : Service.route_points f' ≠ []).
  { rewrite Hpts. intros ->. done. }
  destruct Hroute as [[Hempty _] | [_ (route & -> & Hid & Hrp & Hdem & Hgeo)]]; [done|].
  simpl. rewrite Hrp, Hpts, Htwo. split; [done|]. split; [lia|].
  exists route. rewrite Hrp, Hdem, Hpts, Hload, Hsum, Htwo. repeat split; try done.
  intros Hstraight. rewrite (Hgeo Hstraight), Hrp, Hpts. done.
Qed.

End Greedy.

(** ** The heuristic's result: routes, and independence of the router *)
Section GreedyResult.

Variable pow : float → float → float.
Variable sin : float → float.
Variable cos : float → float.
Variable atan2 : float → float → float.
Variable round2 : float → float.

#[local] Abbreviation route_vehicle := (Service.route_vehicle pow sin cos atan2 round2).
#[local] Abbreviation optimize_greedy := (Service.optimize_greedy pow sin cos atan2 round2).

(** C10. The result of the constructive heuristic holds a route only for
    a vehicle that was assigned at least one customer: its routes belong,
    in the order of the input, to some of the vehicles, every one of them
    has a stop, and its [total_demand] is the sum of the demands of its
    stops. *)
Theorem greedy_routes_have_stops_and_demand
    (osrm : list Service.Coord → option (list Service.Coord * float * float))
    (depot : Data.Depot) (customers : list Data.CustomerData)
    (vehicles : list Data.VehicleData) (use_real_roads : bool) (r : Service.Result) :
  optimize_greedy osrm depot customers vehicles use_real_roads = Some r →
  ∃ served,
    served `sublist_of` vehicles
    ∧ Forall2 (λ route vehicle,
        Service.vehicle_id route = Data.vd_id vehicle
        ∧ Service.points route ≠ []
        ∧ Service.total_demand route = Service.demand_sum (Service.points route))
        (Service.routes r) served.
Proof.
  intros (_ & _ & _ & _ & served & Hsub & Hall)%greedy_result_spec.
  exists served. split; [done|].
  eapply Forall2_impl; [exact Hall|]. intros route vehicle (? & ? & ? & _). done.
Qed.

(** Two runs that differ in what the road router answers: the same stops
    for the same vehicles, the same customers left. *)
Lemma route_vehicle_router (osrm1 osrm2 : list Service.Coord → option (list Service.Coord * float * float))
    (depot : Data.Depot) (customers : list Data.CustomerData) (use_real_roads : bool)
    (vehicle : Data.VehicleData) (routes1 routes2 routes1' routes2' : list Service.Route)
    (un un1 un2 : list nat) :
  route_vehicle osrm1 depot customers use_real_roads vehicle (routes1, un) = Some (routes1', un1) →
  route_vehicle osrm2 depot customers use_real_roads vehicle (routes2, un) = Some (routes2', un2) →
  Forall2 (λ a b, Service.vehicle_id a = Service.vehicle_id b
                  ∧ Service.points a = Service.points b
                  ∧ Service.total_demand a = Service.total_demand b) routes1 routes2 →
  un1 = un2
  ∧ Forall2 (λ a b, Service.vehicle_id a = Service.vehicle_id b
                    ∧ Service.points a = Service.points b
                    ∧ Service.total_demand a = Service.total_demand b) routes1' routes2'.
Proof.
  intros (f1 & Hf1 & -> & H1)%route_vehicle_spec (f2 & Hf2 & -> & H2)%route_vehicle_spec Hsame.
  rewrite Hf1 in Hf2. injection Hf2 as <-. split; [done|].
  destruct H1 as [[He1 ->] | [Hn1 (ra & -> & Hia & Hpa & Hda & _)]],
           H2 as [[He2 ->] | [Hn2 (rb & -> & Hib & Hpb & Hdb & _)]]; try done.
  apply Forall2_app; [done|]. constructor; [|constructor].
  by rewrite Hia, Hib, Hpa, Hpb, Hda, Hdb.
Qed.

Lemma vehicles_loop_router (osrm1 osrm2 : list Service.Coord → option (list Service.Coord * float * float))
    (depot : Data.Depot) (customers : list Data.CustomerData) (use_real_roads : bool)
    (vehicles : list Data.VehicleData) :
  ∀ routes1 routes2 un routes1' routes2' un1 un2,
    foldl (λ acc vehicle, acc ≫= route_vehicle osrm1 depot customers use_real_roads vehicle)
      (Some (routes1, un)) vehicles = Some (routes1', un1) →
    foldl (λ acc vehicle, acc ≫= route_vehicle osrm2 depot customers use_real_roads vehicle)
      (Some (routes2, un)) vehicles = Some (routes2', un2) →
    Forall2 (λ a b, Service.vehicle_id a = Service.vehicle_id b
                    ∧ Service.points a = Service.points b
                    ∧ Service.total_demand a = Service.total_demand b) routes1 routes2 →
    un1 = un2
    ∧ Forall2 (λ a b, Service.vehicle_id a = Service.vehicle_id b
                      ∧ Service.points a = Service.points b
                      ∧ Service.total_demand a = Service.total_demand b) routes1' routes2'.
Proof.
  induction vehicles as [|v vs IH]; intros routes1 routes2 un routes1' routes2' un1 un2 H1 H2 Hs.
  { injection H1 as <- <-. injection H2 as <- <-. done. }
  rewrite foldl_bind_cons in H1, H2.
  destruct (route_vehicle osrm1 depot customers use_real_roads v (routes1, un))
    as [[ra ua]|] eqn:Ha; [|by rewrite foldl_bind_None in H1].
  destruct (route_vehicle osrm2 depot customers use_real_roads v (routes2, un))
    as [[rb ub]|] eqn:Hb; [|by rewrite foldl_bind_None in H2].
  destruct (route_vehicle_router _ _ _ _ _ _ _ _ _ _ _ _ _ Ha Hb Hs) as [-> Hs'].
  eapply IH; eauto.
Qed.

(** Without real roads the router is not asked. *)
Lemma greedy_straight_lines (osrm1 osrm2 : list Service.Coord → option (list Service.Coord * float * float))
    (depot : Data.Depot) (customers : list Data.CustomerData)
    (vehicles : list Data.VehicleData) :
  optimize_greedy osrm1 depot customers vehicles false
  = optimize_greedy osrm2 depot customers vehicles false.
Proof. done. Qed.

End GreedyResult.

(** C8. The constructive heuristic is deterministic.  Two runs on the
    same depot, customers and vehicles, whatever the road router answers
    in each, assign the same customers to the same vehicles in the same
    order and leave the same customers unserved; they return the very
    same result, distances included, when no real roads are asked for or
    when the router answers the same.  Among equally near customers the
    scan takes the first in the order of the unassigned list: every
    candidate that fits and stands before the chosen one is strictly
    farther, and none that stands after it is strictly nearer. *)
Theorem greedy_deterministic (pow : float → float → float) (sin cos : float → float)
    (atan2 : float → float → float) (round2 : float → float)
    (osrm1 osrm2 : list Service.Coord → option (list Service.Coord * float * float))
    (depot : Data.Depot) (customers : list Data.CustomerData)
    (vehicles : list Data.VehicleData) (use_real_roads : bool) (r1 r2 : Service.Result) :
  Service.optimize_greedy pow sin cos atan2 round2 osrm1 depot customers vehicles use_real_roads
    = Some r1 →
  Service.optimize_greedy pow sin cos atan2 round2 osrm2 depot customers vehicles use_real_roads
    = Some r2 →
  Forall2 (λ a b, Service.vehicle_id a = Service.vehicle_id b
                  ∧ Service.points a = Service.points b
                  ∧ Service.total_demand a = Service.total_demand b)
    (Service.routes r1) (Service.routes r2)
  ∧ Service.customers_served r1 = Service.customers_served r2
  ∧ Service.customers_unserved r1 = Service.customers_unserved r2
  ∧ (use_real_roads = false ∨ osrm1 = osrm2 → r1 = r2)
  ∧ ∀ (f : Service.Filling) (capacity : Z) (candidates : list nat) (b : nat) (d : float),
      Service.nearest_feasible pow sin cos atan2 customers f capacity None infinity candidates
        = Some (Some b, d) →
      ∃ c pre post,
        candidates = pre ++ b :: post
        ∧ customers !! b = Some c
        ∧ Service.current_load f + Data.demand_of c ≤ capacity
        ∧ Service._haversine_distance pow sin cos atan2 (Service.current_lat f)
            (Service.current_lon f) (Data.cd_lat c) (Data.cd_lon c) = Some d
        ∧ (∀ j cj dj, j ∈ pre → customers !! j = Some cj →
             Service.current_load f + Data.demand_of cj ≤ capacity →
             Service._haversine_distance pow sin cos atan2 (Service.current_lat f)
               (Service.current_lon f) (Data.cd_lat cj) (Data.cd_lon cj) = Some dj →
             (dj <=? d)%float = false)
        ∧ (∀ j cj dj, j ∈ post → customers !! j = Some cj →
             Service.current_load f + Data.demand_of cj ≤ capacity →
             Service._haversine_distance pow sin cos atan2 (Service.current_lat f)
               (Service.current_lon f) (Data.cd_lat cj) (Data.cd_lon cj) = Some dj →
             (dj <? d)%float = false).
Proof.
  intros H1 H2.
  assert (Hsame : Forall2 (λ a b, Service.vehicle_id a = Service.vehicle_id b
                    ∧ Service.points a = Service.points b
                    ∧ Service.total_demand a = Service.total_demand b)
                    (Service.routes r1) (Service.routes r2)
                  ∧ Service.customers_unserved r1 = Service.customers_unserved r2).
  { unfold Service.optimize_greedy in H1, H2.
    destruct (foldl _ _ vehicles) as [[routes1 un1]|] eqn:Hl1 in H1; [|done].
    destruct (foldl _ _ vehicles) as [[routes2 un2]|] eqn:Hl2 in H2; [|done].
    cbn [mbind option_bind] in H1, H2.
    destruct (Py.int _) as [m1|] in H1; [|done].
    destruct (Py.int _) as [m2|] in H2; [|done].
    injection H1 as <-. injection H2 as <-. simpl.
    eapply vehicles_loop_router in Hl2 as [-> Hs]; [|exact Hl1|constructor]. done. }
  destruct Hsame as [Hroutes Hun]. split; [done|].
  split.
  { apply greedy_result_spec in H1 as (_ & _ & _ & -> & _).
    apply greedy_result_spec in H2 as (_ & _ & _ & -> & _).
    f_equal. f_equal. f_equal.
    clear Hun. induction Hroutes as [|a b l1 l2 (_ & Hp & _) _ IH]; [done|].
    rewrite !fmap_cons. by rewrite Hp, IH. }
  split; [done|]. split.
  { intros [-> | ->].
    - rewrite (greedy_straight_lines _ _ _ _ _ osrm1 osrm2) in H1. congruence.
    - congruence. }
  intros f capacity candidates b d Hscan.
  apply nearest_feasible_spec in Hscan
    as [([=] & _) | (b' & c & pre & post & [= <-] & -> & Hc & Hfit & Hleg & _ & Hpre & Hpost)].
  exists c, pre, post. repeat split; done.
Qed.

(** ** The training update *)

(** C9. While the replay buffer holds fewer than [batch_size] transitions
    [train_step] returns [None] as its loss and changes nothing: the agent
    (policy and target parameters, optimizer state, step counter, loss
    history, buffer) and the random generators are as before. *)
Theorem train_step_short_buffer (Net Opt rng : Type)
    (forward_train : Net → rng → list (list float) → list (list float) * rng)
    (forward_eval : Net → list (list float) → list (list float))
    (smooth_l1_loss : list float → list float → float)
    (optimizer_step : (Net → float) → Net → Opt → Net * Opt)
    (random_sample : list Agent.Transition → Z → rng → option (list Agent.Transition * rng))
    (a : Agent.t Net Opt) (g : rng) :
  Z.of_nat (length (Agent.memory a)) < Agent.batch_size a →
  Agent.train_step Net Opt rng forward_train forward_eval smooth_l1_loss optimizer_step
    random_sample a g = Some (None, a, g).
Proof.
  intros Hshort. unfold Agent.train_step.
  destruct (Z.ltb_spec (Z.of_nat (length (Agent.memory a))) (Agent.batch_size a)); [done|lia].
Qed.

(** The sample agent has an empty buffer and a batch size of 64. *)
Lemma train_step_short_buffer_witness :
  Agent.train_step Sample.Net Sample.Opt Sample.rng Sample.forward_train
    (λ net states, (λ _, net) <$> states) (λ _ _, 0%float) (λ _ net opt, (net, opt))
    (λ _ _ _, None) (Sample.agent [3; 2; 1; 0]%float) 0
  = Some (None, Sample.agent [3; 2; 1; 0]%float, 0).
Proof.
  apply (train_step_short_buffer Sample.Net Sample.Opt Sample.rng). simpl. lia.
Defined.

(** ** The environment on the sample instances *)

#[local] Abbreviation sample_reachable :=
  (Env.reachable Sample.pow Sample.rng Sample.np_seed Sample.np_uniform Sample.np_randint).

Lemma sample_env1_reset :
  ∃ obs i g,
    Env.reset Sample.pow Sample.rng Sample.np_seed Sample.np_uniform Sample.np_randint
      Sample.env0 None 0 = Some (Sample.env1, obs, i, g).
Proof. vm_compute. by eexists _, _, _. Qed.

Lemma sample_env1_reachable : sample_reachable Sample.env1.
Proof.
  destruct sample_env1_reset as (obs & i & g & Hreset).
  eapply Env.reach_reset; [|exact Hreset]. simpl. lia.
Qed.

Lemma sample_after_reachable (actions : list Z) :
  ∀ e, sample_reachable e → sample_reachable (Sample.after e actions).
Proof.
  induction actions as [|a actions IH]; intros e He; [done|].
  unfold Sample.after. cbn [foldl]. apply IH.
  destruct (Env.step Sample.pow e a) as [[e' r]|] eqn:Hstep; [|done].
  by eapply Env.reach_step.
Qed.

Lemma sample_real1_reachable : sample_reachable Sample.real1.
Proof.
  assert (H : ∃ r obs i g,
             Env.real_reset Sample.pow Sample.rng Sample.np_seed Sample.np_uniform
               Sample.np_randint Sample.real0 None 0 = Some (r, obs, i, g)
             ∧ Env.base r = Sample.real1).
  { vm_compute. by eexists _, _, _, _. }
  destruct H as (r & obs & i & g & Hreset & <-).
  eapply Env.reach_real_reset; [|exact Hreset]. done.
Qed.

(** The mask of the sample environment after [reset]: the first customer
    (demand 3) fits the capacity 5, the second (demand 7) does not. *)
Lemma action_mask_spec_witness :
  ∃ mask vehicle,
    Env.get_action_mask Sample.env1 = Some mask
    ∧ Py.getitem (Env.vehicles Sample.env1) (Env.current_vehicle_idx Sample.env1) = Some vehicle
    ∧ Z.of_nat (length (Env.customers Sample.env1)) = Env.num_customers Sample.env1
    ∧ length mask = S (length (Env.customers Sample.env1))
    ∧ mask !! length (Env.customers Sample.env1) = Some 1%float
    ∧ ∀ (i : nat) customer, Env.customers Sample.env1 !! i = Some customer →
        mask !! i = Some (if negb (Env.c_visited customer)
                             && (Env.v_current_load vehicle + Env.c_demand customer
                                   <=? Env.v_capacity vehicle)
                          then 1%float else 0%float).
Proof.
  exact (action_mask_spec Sample.pow Sample.rng Sample.np_seed Sample.np_uniform
           Sample.np_randint Sample.env1 sample_env1_reachable).
Defined.

(** After the first customer was served in the sample environment, a
    second step onto it. *)
Lemma step_visited_witness :
  let e := Sample.after Sample.env1 [0] in
  ∃ obs,
    Env._get_observation Sample.pow e = Some obs ∧
    let e' := Env.set_counters e (Env.current_vehicle_idx e)
                (Env.total_reward e + -1.0)%float (Env.steps e + 1) in
    Env.step Sample.pow e 0 =
      Some (e', Env.mkStepResult obs
                  (if Env.max_steps e <=? Env.steps e + 1
                   then (-1.0 - Py.float_of_Z
                                  (Py.count (λ c, negb (Env.c_visited c)) (Env.customers e))
                                * 2.0)%float
                   else (-1.0)%float)
                  false (Env.max_steps e <=? Env.steps e + 1) (Env._get_info e')).
Proof.
  apply (step_visited Sample.pow Sample.rng Sample.np_seed Sample.np_uniform
           Sample.np_randint (Sample.after Sample.env1 [0]) 0
           (Env.mkCustomer 0 0.1 0.2 3 4 None None true)).
  - apply sample_after_reachable, sample_env1_reachable.
  - vm_compute. split; [discriminate|reflexivity].
  - vm_compute. reflexivity.
  - reflexivity.
  - vm_compute. reflexivity.
Defined.

(** C6 as stated fails on the step that uses up the step budget, and on
    the step counter: in the sample environment, after the first customer
    was served and four more steps onto it, the sixth step onto it returns
    the reward -3.0 and moves the step counter from 5 to 6. *)
Lemma step_visited_counterexample :
  let e := Sample.after Sample.env1 [0; 0; 0; 0; 0] in
  sample_reachable e
  ∧ ∃ customer e' r,
      Py.getitem (Env.customers e) 0 = Some customer
      ∧ Env.c_visited customer = true
      ∧ forallb Env.c_visited (Env.customers e) = false
      ∧ Env.step Sample.pow e 0 = Some (e', r)
      ∧ Env.reward r = (-3)%float
      ∧ (Env.reward r =? -1.0)%float = false
      ∧ Env.steps e = 5 ∧ Env.steps e' = 6.
Proof.
  split; [apply sample_after_reachable, sample_env1_reachable|].
  vm_compute. eexists _, _, _.
  split; [reflexivity|]. split; [reflexivity|]. split; [reflexivity|].
  split; [reflexivity|]. done.
Qed.

(** The second customer of the sample environment (demand 7) against the
    capacity 5. *)
Lemma step_over_capacity_witness :
  let e := Sample.env1 in
  let vehicle := Env.mkVehicle 0 5 0 0.5 0.5 [] 0 in
  let customer := Env.mkCustomer 1 0.5 0.6 7 3 None None false in
  let distance := Env._calculate_distance Sample.pow (Env.v_current_x vehicle)
                    (Env.v_current_y vehicle) (Env.depot_x e) (Env.depot_y e) in
  let penalty := (-0.5 - distance * 0.1)%float in
  ∃ vs obs,
    Py.setitem (Env.vehicles e) (Env.current_vehicle_idx e)
      (Env.returned e vehicle distance) = Some vs ∧
    let e' := Env.set_counters (Env.set_vehicles_customers e vs (Env.customers e))
                (Env.current_vehicle_idx e) (Env.total_reward e + penalty)%float
                (Env.steps e + 1) in
    Env.step Sample.pow e 1 =
      Some (e', Env.mkStepResult obs
                  (if Env.max_steps e <=? Env.steps e + 1
                   then (penalty - Py.float_of_Z
                                     (Py.count (λ c, negb (Env.c_visited c))
                                        (Env.customers e)) * 2.0)%float
                   else penalty)
                  false (Env.max_steps e <=? Env.steps e + 1) (Env._get_info e'))
    ∧ Py.getitem (Env.vehicles e') (Env.current_vehicle_idx e')
      = Some (Env.mkVehicle (Env.v_id vehicle) (Env.v_capacity vehicle) 0
                (Env.depot_x e) (Env.depot_y e) (Env.v_route vehicle)
                (Env.v_total_distance vehicle + distance)%float)
    ∧ Py.getitem (Env.customers e') 1 = Some customer.
Proof.
  apply (step_over_capacity Sample.pow Sample.rng Sample.np_seed Sample.np_uniform
           Sample.np_randint Sample.env1 1
           (Env.mkCustomer 1 0.5 0.6 7 3 None None false)
           (Env.mkVehicle 0 5 0 0.5 0.5 [] 0)).
  - apply sample_env1_reachable.
  - vm_compute. split; [discriminate|reflexivity].
  - vm_compute. reflexivity.
  - reflexivity.
  - vm_compute. reflexivity.
  - vm_compute. reflexivity.
Defined.

(** C5 as stated fails on the step that uses up the step budget: in the
    sample environment the sixth step onto the customer that does not fit
    returns -4.5, where -0.5 - 0.1 * distance is -0.5. *)
Lemma step_over_capacity_counterexample :
  let e := Sample.after Sample.env1 [1; 1; 1; 1; 1] in
  sample_reachable e
  ∧ ∃ vehicle customer e' r,
      Py.getitem (Env.vehicles e) (Env.current_vehicle_idx e) = Some vehicle
      ∧ Py.getitem (Env.customers e) 1 = Some customer
      ∧ Env.c_visited customer = false
      ∧ Env.v_capacity vehicle < Env.v_current_load vehicle + Env.c_demand customer
      ∧ Env.step Sample.pow e 1 = Some (e', r)
      ∧ Env.reward r = (-4.5)%float
      ∧ (-0.5 - Env._calculate_distance Sample.pow (Env.v_current_x vehicle)
                  (Env.v_current_y vehicle) (Env.depot_x e) (Env.depot_y e) * 0.1)%float
        = (-0.5)%float
      ∧ (Env.reward r =? -0.5)%float = false.
Proof.
  split; [apply sample_after_reachable, sample_env1_reachable|].
  vm_compute. eexists _, _, _, _.
  split; [reflexivity|]. split; [reflexivity|]. split; [reflexivity|].
  split; [reflexivity|]. split; [reflexivity|]. done.
Qed.

(** C2 fails on the code: the one-step episode of the sample real-data
    environment (the vehicle serves the only customer, the episode
    terminates) returns the reward 10.3, the completion bonus and the
    charge for the way back included, while [info] reports the total
    reward 0.4. *)
Lemma episode_reward_sum_differs :
  sample_reachable Sample.real1
  ∧ ∃ e' r,
      Env.episode Sample.pow Sample.real1 [r] e'
      ∧ Env.step Sample.pow Sample.real1 0 = Some (e', r)
      ∧ Env.terminated r = true
      ∧ Env.reward r = 10.300000000000001%float
      ∧ Env.i_total_reward (Env.info r) = 0.40000000000000002%float
      ∧ Env.total_reward e' = 0.40000000000000002%float.
Proof.
  split; [apply sample_real1_reachable|].
  destruct (Env.step Sample.pow Sample.real1 0) as [[e' r]|] eqn:Hstep; [|by vm_compute in Hstep].
  exists e', r. split.
  - eapply Env.episode_last; [exact Hstep|]. vm_compute in Hstep. by injection Hstep as <- <-.
  - vm_compute in Hstep. by injection Hstep as <- <-.
Qed.

(** What [step] does add up: on a step that neither terminates nor
    truncates the reward returned is the one added to [total_reward], and
    [info] reports the new total.  (The completion bonus, the closing
    charges and the truncation penalty are applied to the returned reward
    after [total_reward] was updated.) *)
Lemma step_accumulates_reward (pow : float → float → float) (e e' : Env.t) (action : Z)
    (r : Env.StepResult) :
  Env.step pow e action = Some (e', r) →
  Env.terminated r = false → Env.truncated r = false →
  Env.total_reward e' = (Env.total_reward e + Env.reward r)%float
  ∧ Env.i_total_reward (Env.info r) = Env.total_reward e'.
Proof.
  unfold Env.step. intros Hstep Hterm Htrunc.
  destruct (Env.step_action pow e action) as [[[[vs cs] idx] rw]|]; simpl in Hstep; [|done].
  destruct (forallb Env.c_visited cs).
  - destruct (Env.close_routes pow e vs rw) as [vs' rw'].
    destruct (Env._get_observation _ _); simpl in Hstep; [|done].
    injection Hstep as <- <-. done.
  - destruct (Env._get_observation _ _); simpl in Hstep; [|done].
    injection Hstep as <- <-. simpl in *. by rewrite Htrunc.
Qed.

(** ** Loads and capacities in the environment *)
Section EnvLoads.

Variable pow : float → float → float.

(** No vehicle carries more than its capacity (and no capacity is
    negative, so that an empty vehicle does not either). *)
#[local] Abbreviation within_capacity vs :=
  (Forall (λ v, 0 ≤ Env.v_capacity v ∧ Env.v_current_load v ≤ Env.v_capacity v) vs).

Lemma setitem_Forall {A} (P : A → Prop) (l l' : list A) (i : Z) (x : A) :
  Py.setitem l i x = Some l' → Forall P l → P x → Forall P l'.
Proof.
  unfold Py.setitem. destruct (Py.index (length l) i) as [k|]; simpl; [|done].
  intros [= <-] Hl Hx. by apply Forall_insert.
Qed.

Lemma setitem_fmap {A B} (f : A → B) (l l' : list A) (i : Z) (x y : A) :
  Py.getitem l i = Some y → Py.setitem l i x = Some l' → f x = f y → f <$> l' = f <$> l.
Proof.
  unfold Py.getitem, Py.setitem. destruct (Py.index (length l) i) as [k|]; simpl; [|done].
  intros Hy [= <-] Hf. rewrite list_fmap_insert, Hf. apply list_insert_id.
  by rewrite list_lookup_fmap, Hy.
Qed.

Lemma getitem_Forall {A} (P : A → Prop) (l : list A) (i : Z) (x : A) :
  Py.getitem l i = Some x → Forall P l → P x.
Proof.
  unfold Py.getitem. destruct (Py.index (length l) i) as [k|]; simpl; [|done].
  intros Hx Hl. by eapply Forall_lookup_1.
Qed.

Lemma close_routes_loads (e : Env.t) (vs : list Env.Vehicle) :
  ∀ rw vs' rw', Env.close_routes pow e vs rw = (vs', rw') →
    within_capacity vs → within_capacity vs' ∧ Env.v_capacity <$> vs' = Env.v_capacity <$> vs.
Proof.
  induction vs as [|v vs IH]; intros rw vs' rw'; simpl.
  { by intros [= <- <-]. }
  destruct (Py.fne _ _ || Py.fne _ _).
  - destruct (Env.close_routes pow e vs _) as [vs'' rw''] eqn:Hrest.
    intros [= <- <-] [Hv Hvs]%Forall_cons. destruct (IH _ _ _ Hrest Hvs) as [H1 H2].
    split; [by constructor|]. by rewrite !fmap_cons, H2.
  - destruct (Env.close_routes pow e vs _) as [vs'' rw''] eqn:Hrest.
    intros [= <- <-] [Hv Hvs]%Forall_cons. destruct (IH _ _ _ Hrest Hvs) as [H1 H2].
    split; [by constructor|]. by rewrite !fmap_cons, H2.
Qed.

Lemma step_action_loads (e : Env.t) (action : Z) vs cs idx rw :
  Env.step_action pow e action = Some (vs, cs, idx, rw) →
  within_capacity (Env.vehicles e) →
  within_capacity vs ∧ Env.v_capacity <$> vs = Env.v_capacity <$> Env.vehicles e.
Proof.
  unfold Env.step_action. intros H Hall.
  destruct (Py.getitem (Env.vehicles e) _) as [vehicle|] eqn:Hv; simpl in H; [|done].
  pose proof (getitem_Forall _ _ _ _ Hv Hall) as [Hcap Hload].
  repeat first [progress bind_inv | case_match]; try done.
  all: split; [eapply setitem_Forall; eauto; simpl; lia|eapply setitem_fmap; eauto].
Qed.

(** A step keeps every load within its capacity and changes no capacity. *)
Lemma step_loads (e e' : Env.t) (action : Z) (r : Env.StepResult) :
  Env.step pow e action = Some (e', r) →
  within_capacity (Env.vehicles e) →
  within_capacity (Env.vehicles e')
  ∧ Env.v_capacity <$> Env.vehicles e' = Env.v_capacity <$> Env.vehicles e.
Proof.
  unfold Env.step. intros Hstep Hall.
  destruct (Env.step_action pow e action) as [[[[vs cs] idx] rw]|] eqn:Hact;
    simpl in Hstep; [|done].
  destruct (step_action_loads _ _ _ _ _ _ Hact Hall) as [Hvs Hcaps].
  destruct (forallb Env.c_visited cs).
  - destruct (Env.close_routes pow e vs rw) as [vs' rw'] eqn:Hclose.
    destruct (close_routes_loads _ _ _ _ _ Hclose Hvs) as [Hvs' Hcaps'].
    destruct (Env._get_observation _ _); simpl in Hstep; [|done].
    injection Hstep as <- <-. simpl. split; [done|]. congruence.
  - destruct (Env._get_observation _ _); simpl in Hstep; [|done].
    injection Hstep as <- <-. done.
Qed.

End EnvLoads.

(** ** The learned-policy strategy *)
Section LearnedPolicy.

Variable pow : float → float → float.
Variable sin : float → float.
Variable cos : float → float.
Variable atan2 : float → float → float.
Variable round2 : float → float.
Variable np_round2 : float → float.
Variable osrm : list Service.Coord → option (list Service.Coord * float * float).
Variable Net : Type.
Variable Opt : Type.
Variable rng : Type.
Variable forward_train : Net → rng → list (list float) → list (list float) * rng.
Variable random_random : rng → float * rng.
Variable random_randrange : Z → rng → option (Z * rng).
Variable np_choice : list Z → rng → option (Z * rng).
Variable np_seed : Z → rng.
Variable np_uniform : float → float → rng → float * rng.
Variable np_randint : Z → Z → rng → option (Z * rng).

#[local] Abbreviation rollout :=
  (Service.rollout pow Net Opt rng forward_train random_random random_randrange np_choice).
#[local] Abbreviation optimize_with_rl :=
  (Service.optimize_with_rl pow sin cos atan2 round2 np_round2 osrm Net Opt rng forward_train
     random_random random_randrange np_choice np_seed np_uniform np_randint).
#[local] Abbreviation within_capacity vs :=
  (Forall (λ v, 0 ≤ Env.v_capacity v ∧ Env.v_current_load v ≤ Env.v_capacity v) vs).

Lemma step_counters (e e' : Env.t) (action : Z) (r : Env.StepResult) :
  Env.step pow e action = Some (e', r) →
  Env.steps e' = Env.steps e + 1 ∧ Env.max_steps e' = Env.max_steps e
  ∧ Env.truncated r = (Env.max_steps e <=? Env.steps e + 1).
Proof.
  unfold Env.step. intros Hstep.
  destruct (Env.step_action pow e action) as [[[[vs cs] idx] rw]|]; simpl in Hstep; [|done].
  destruct (forallb Env.c_visited cs); [destruct (Env.close_routes pow e vs rw)|];
    (destruct (Env._get_observation _ _); simpl in Hstep; [|done]);
    by injection Hstep as <- <-.
Qed.

(** The rounds given to the inference episode are enough: the step
    budget of the environment truncates it before they run out. *)
Lemma rollout_rounds_enough (agent : Agent.t Net Opt) (rounds : nat) :
  ∀ e state total g,
    (Z.to_nat (Env.max_steps e - Env.steps e) < rounds)%nat →
    is_Some (rollout rounds agent e state total g).
Proof.
  induction rounds as [|k IH]; intros e state total g Hk; [lia|]. simpl.
  destruct (Env.get_action_mask e) as [mask|]; simpl; [|eauto].
  destruct (Service.select_action _ _ _ _ _ _ _ _ _ _ _ _) as [[action g1]|]; simpl; [|eauto].
  destruct (Env.step pow e action) as [[e' r]|] eqn:Hstep; simpl; [|eauto].
  destruct (step_counters _ _ _ _ Hstep) as (Hs & Hm & Ht).
  destruct (Env.terminated r || Env.truncated r) eqn:Hdone; [eauto|].
  apply IH. apply orb_false_elim in Hdone as [_ Htr]. rewrite Ht in Htr.
  apply Z.leb_gt in Htr. lia.
Qed.

(** The inference episode keeps every load within its capacity. *)
Lemma rollout_loads (agent : Agent.t Net Opt) (rounds : nat) :
  ∀ e state total g e' i total' g',
    rollout rounds agent e state total g = Some (Some (e', i, total', g')) →
    within_capacity (Env.vehicles e) →
    within_capacity (Env.vehicles e')
    ∧ Env.v_capacity <$> Env.vehicles e' = Env.v_capacity <$> Env.vehicles e.
Proof.
  induction rounds as [|k IH]; intros e state total g e' i total' g' Hrun Hall; [done|].
  simpl in Hrun.
  destruct (Env.get_action_mask e) as [mask|]; simpl in Hrun; [|done].
  destruct (Service.select_action _ _ _ _ _ _ _ _ _ _ _ _) as [[action g1]|];
    simpl in Hrun; [|done].
  destruct (Env.step pow e action) as [[e1 r]|] eqn:Hstep; simpl in Hrun; [|done].
  destruct (step_loads _ _ _ _ _ Hstep Hall) as [Hall1 Hcaps1].
  destruct (Env.terminated r || Env.truncated r).
  - injection Hrun as <- <- <- <-. done.
  - destruct (IH _ _ _ _ _ _ _ _ Hrun Hall1) as [Hall' Hcaps']. split; [done|]. congruence.
Qed.

(** The routes read off the environment: one for a vehicle with a
    non-empty route, carrying that vehicle's current load as its demand. *)
Lemma build_routes_spec (e : Env.t) (customers : list Data.CustomerData)
    (vehicles : list Data.VehicleData) (routes : list Service.Route) :
  Service._build_routes_from_env np_round2 e customers vehicles = Some routes →
  Forall (λ route, ∃ i v vd,
            Env.vehicles e !! i = Some v ∧ vehicles !! i = Some vd
            ∧ Service.vehicle_id route = Data.vd_id vd
            ∧ Service.total_demand route = Env.v_current_load v
            ∧ Service.points route ≠ []) routes.
Proof.
  unfold Service._build_routes_from_env. intros Hrun.
  destruct (mapM _ _) as [rs|] eqn:Hrs; simpl in Hrun; [|done]. injection Hrun as <-.
  apply mapM_Some in Hrs. apply Forall_forall. intros route Hin.
  apply list_elem_of_omap in Hin as (o & Ho & [= ->]).
  apply list_elem_of_lookup_1 in Ho as [j Hj].
  destruct (Forall2_lookup_r _ _ _ _ _ Hrs Hj) as ([i v] & Hiv & Hroute).
  apply list_lookup_imap_Some in Hiv as (v' & Hv & [= -> ->]).
  exists j, v'. unfold Service.vehicle_route in Hroute.
  destruct (Env.v_route v'); [done|].
  destruct (mapM _ _) as [[|p ps]|]; simpl in Hroute; [done| |done].
  destruct (vehicles !! j) as [vd|]; simpl in Hroute; [|done].
  destruct (Py.int_of_float _); simpl in Hroute; [|done].
  injection Hroute as <-. exists vd. done.
Qed.

(** The vehicles after the [reset] of a real-data environment: empty,
    with the capacities of the instance. *)
Lemma real_reset_vehicles (r r' : Env.RealData) seed g obs i g' :
  Env.real_reset pow rng np_seed np_uniform np_randint r seed g = Some (r', obs, i, g') →
  Env.vehicles (Env.base r')
  = imap (λ i v, Env.mkVehicle (Z.of_nat i)
                   (default (Env.vehicle_capacity (Env.base r)) (Data.vd_capacity v))
                   0 (Env.depot_x (Env.base r)) (Env.depot_y (Env.base r)) [] 0)
      (Env.vehicles_data r)
  ∧ Env.max_steps (Env.base r') = Env.max_steps (Env.base r)
  ∧ Env.steps (Env.base r') = 0.
Proof.
  unfold Env.real_reset, Env.reset. intros Hrun.
  destruct (Env.gen_customers _ _ _ _ _ _ _) as [[cs g1]|]; simpl in Hrun; [|done].
  destruct (Env._get_observation _ _); simpl in Hrun; [|done].
  destruct (Env._get_observation _ _); simpl in Hrun; [|done].
  by injection Hrun as <- <- <- <-.
Qed.

(** The learned-policy strategy reports, for every route, a demand within
    the capacity of its vehicle. *)
Lemma rl_result_loads (agent : Agent.t Net Opt) (depot : Data.Depot)
    (customers : list Data.CustomerData) (vehicles : list Data.VehicleData)
    (use_real_roads : bool) (g g' : rng) (r : Service.Result) :
  optimize_with_rl (Some agent) true depot customers vehicles use_real_roads g
    = Some (Some (r, g')) →
  Forall (λ vd, 0 ≤ Service.rl_capacity vehicles vd) vehicles →
  Forall (λ route, ∃ i vd,
            vehicles !! i = Some vd
            ∧ Service.vehicle_id route = Data.vd_id vd
            ∧ Service.points route ≠ []
            ∧ Service.total_demand route ≤ Service.rl_capacity vehicles vd)
    (Service.routes r).
Proof.
  unfold Service.optimize_with_rl. cbn [negb]. intros Hrun Hcaps.
  destruct (Env.real_reset _ _ _ _ _ _ _ _) as [[[[env state] i0] g0]|] eqn:Hreset; [|done].
  destruct (rollout _ _ _ _ _ _) as [[[[[e i] total] g1]|]|] eqn:Hroll;
    cbn [mbind option_bind] in Hrun; [|done|done].
  injection Hrun as Hrun.
  destruct (Service._build_routes_from_env _ _ _ _) as [routes|] eqn:Hroutes;
    simpl in Hrun; [|done].
  destruct (Py.int _); simpl in Hrun; [|done].
  destruct (Env.get_solution_quality _ _); simpl in Hrun; [|done].
  injection Hrun as <- <-. simpl.
  apply real_reset_vehicles in Hreset as (Hvs & _ & _). simpl in Hvs.
  fold (Service.rl_capacity vehicles) in Hvs.
  apply rollout_loads in Hroll as [Hall Hcap].
  2:{ rewrite Hvs. apply Forall_forall. intros v Hv.
      apply elem_of_lookup_imap in Hv as (j & vd & -> & Hvd). simpl.
      rewrite Forall_forall in Hcaps. specialize (Hcaps vd (list_elem_of_lookup_2 _ _ _ Hvd)).
      unfold Service.rl_capacity in Hcaps. lia. }
  apply build_routes_spec in Hroutes.
  eapply Forall_impl; [exact Hroutes|]. intros route (j & v & vd & Hv & Hvd & Hid & Hdem & Hne).
  exists j, vd. repeat split; try done. rewrite Hdem.
  pose proof (Forall_lookup_1 _ _ _ _ Hall Hv) as [_ Hload].
  assert (Hc : Env.v_capacity v = Service.rl_capacity vehicles vd).
  { assert (H : (Env.v_capacity <$> Env.vehicles e) !! j = Some (Env.v_capacity v)).
    { by rewrite list_lookup_fmap, Hv. }
    rewrite Hcap, Hvs, list_lookup_fmap, list_lookup_imap, Hvd in H. simpl in H.
    by injection H as <-. }
  lia.
Qed.

End LearnedPolicy.

(** ** The exact-solver adapter *)
Section ExactSolver.

Variable pow : float → float → float.
Variable sin : float → float.
Variable cos : float → float.
Variable atan2 : float → float → float.
Variable round2 : float → float.
Variable osrm : list Service.Coord → option (list Service.Coord * float * float).
Variable ortools : option (list (list Z) → list Z → list Z → Service.SolverAnswer).

#[local] Abbreviation extract_route := (Service.extract_route pow sin cos atan2 round2 osrm).
#[local] Abbreviation optimize_with_ortools :=
  (Service.optimize_with_ortools pow sin cos atan2 round2 osrm ortools).

Lemma foldl_add_demand_sum (pts : list Service.RoutePoint) :
  foldl Z.add 0 (Service.demand <$> pts) = Service.demand_sum pts.
Proof.
  unfold Service.demand_sum.
  assert (H : ∀ (l : list Z) a, foldl Z.add a l = a + foldr Z.add 0 l).
  { induction l as [|x l IH]; intros a; simpl; [lia|]. rewrite IH. lia. }
  rewrite H. lia.
Qed.

(** The stops of a path carry the demand the solver counted for it. *)
Lemma path_points_demand (customers : list Data.CustomerData) (path : list Z) :
  ∀ acc pts,
    Service.path_points customers path acc = Some pts →
    Service.demand_sum pts
    = Service.demand_sum acc
      + Service.path_demand (0 :: (Data.demand_of <$> customers)) path
    ∧ (acc ≠ [] → pts ≠ []).
Proof.
  induction path as [|node path IH]; intros acc pts Hrun; simpl in Hrun.
  { injection Hrun as <-. split; [|done]. unfold Service.path_demand. cbn [foldr]. lia. }
  unfold Service.path_demand. cbn [foldr]. fold (Service.path_demand (0 :: (Data.demand_of <$> customers)) path).
  destruct (Z.ltb_spec 0 node) as [Hpos|Hdepot].
  - destruct (Py.getitem customers (node - 1)) as [c|] eqn:Hc; simpl in Hrun; [|done].
    apply IH in Hrun as [Hsum Hne]. rewrite Hsum, demand_sum_app.
    assert (Hd : Py.getitem (0 :: (Data.demand_of <$> customers)) node
                 = Some (Data.demand_of c)).
    { apply getitem_nonneg in Hc as [Hl Hn]; [|lia].
      replace node with (Z.of_nat (S (Z.to_nat (node - 1)))) by lia.
      apply getitem_lookup. simpl. by rewrite list_lookup_fmap, Hl. }
    rewrite Hd. split.
    + unfold Service.demand_sum at 2. simpl. lia.
    + intros _. apply Hne. by destruct acc.
  - apply IH in Hrun as [Hsum Hne]. done.
Qed.

Lemma extract_route_spec (depot : Data.Depot) (customers : list Data.CustomerData)
    (use_real_roads : bool) (matrix paths : list (list Z)) (routes routes' : list Service.Route)
    (total total' : Py.number) (i : nat) (vehicle : Data.VehicleData) :
  extract_route depot customers use_real_roads matrix paths (routes, total) (i, vehicle)
    = Some (routes', total') →
  routes' = routes
  ∨ ∃ route path,
      routes' = routes ++ [route]
      ∧ paths !! i = Some path
      ∧ Service.vehicle_id route = Data.vd_id vehicle
      ∧ Service.points route ≠ []
      ∧ Service.total_demand route = Service.demand_sum (Service.points route)
      ∧ Service.demand_sum (Service.points route)
        = Service.path_demand (0 :: (Data.demand_of <$> customers)) path.
Proof.
  unfold Service.extract_route. intros Hrun.
  destruct (paths !! i) as [path|] eqn:Hpath; cbn [mbind option_bind] in Hrun; [|done].
  destruct (Service.path_points customers path []) as [pts|] eqn:Hpts; cbn [mbind option_bind] in Hrun; [|done].
  destruct (Service.path_cost matrix path) as [cost|]; cbn [mbind option_bind] in Hrun; [|done].
  destruct pts as [|p ps]; [injection Hrun as <- <-; by left|].
  destruct (Py.truediv cost 1000) as [km|]; cbn [mbind option_bind] in Hrun; [|done].
  apply path_points_demand in Hpts as [Hsum _].
  change (Service.demand_sum []) with 0 in Hsum.
  right. destruct use_real_roads.
  - destruct (Service._build_geometry_with_roads _ _ _ _ _ _ _) as [[[geo rd] rt]|];
      cbn [mbind option_bind] in Hrun; [|done].
    destruct (Py.int rt); cbn [mbind option_bind] in Hrun; [|done]. injection Hrun as <- <-.
    eexists _, path. repeat split; try done;
      cbn [Service.total_demand Service.points];
      first [by rewrite <- foldl_add_demand_sum | lia].
  - destruct (Py.int_of_float _); cbn [mbind option_bind] in Hrun; [|done]. injection Hrun as <- <-.
    eexists _, path. repeat split; try done;
      cbn [Service.total_demand Service.points];
      first [by rewrite <- foldl_add_demand_sum | lia].
Qed.

(** A route against the instance: it belongs to one of the vehicles, has a
    stop, reports the summed demand of its stops, and that sum is within
    the capacity of the vehicle. *)
#[local] Abbreviation route_within vehicles :=
  (λ route, ∃ vd : Data.VehicleData, vd ∈ (vehicles : list Data.VehicleData)
     ∧ Service.vehicle_id route = Data.vd_id vd
     ∧ Service.points route ≠ []
     ∧ Service.total_demand route = Service.demand_sum (Service.points route)
     ∧ Service.demand_sum (Service.points route) ≤ default 100 (Data.vd_capacity vd)).

Lemma sublist_member {A} (l1 l2 : list A) (x : A) :
  l1 `sublist_of` l2 → x ∈ l1 → x ∈ l2.
Proof.
  induction 1 as [|y l1 l2 _ IH|y l1 l2 _ IH]; [done| |].
  - rewrite !elem_of_cons. intros [->|?]; auto.
  - rewrite elem_of_cons. auto.
Qed.

Lemma greedy_routes_within (depot : Data.Depot) (customers : list Data.CustomerData)
    (vehicles : list Data.VehicleData) (use_real_roads : bool) (r : Service.Result) :
  Service.optimize_greedy pow sin cos atan2 round2 osrm depot customers vehicles use_real_roads
    = Some r →
  Forall (route_within vehicles) (Service.routes r).
Proof.
  intros (_ & _ & _ & _ & served & Hsub & Hall)%greedy_result_spec.
  apply Forall_forall. intros route Hin.
  apply list_elem_of_lookup_1 in Hin as [j Hj].
  destruct (Forall2_lookup_l _ _ _ _ _ Hall Hj) as (vd & Hvd & Hroute).
  exists vd. split; [|done].
  eapply sublist_member; [exact Hsub|]. by eapply list_elem_of_lookup_2.
Qed.

Lemma extract_loop_within (depot : Data.Depot) (customers : list Data.CustomerData)
    (vehicles : list Data.VehicleData) (use_real_roads : bool) (matrix paths : list (list Z))
    (ivs : list (nat * Data.VehicleData)) :
  Service.respects_capacities (0 :: (Data.demand_of <$> customers))
    ((λ v, default 100 (Data.vd_capacity v)) <$> vehicles) (Service.Solution paths) →
  (∀ i v, (i, v) ∈ ivs → vehicles !! i = Some v) →
  ∀ routes total routes' total',
    foldl (λ acc iv, acc ≫= (λ a, extract_route depot customers use_real_roads matrix paths a iv))
      (Some (routes, total)) ivs = Some (routes', total') →
    Forall (route_within vehicles) routes → Forall (route_within vehicles) routes'.
Proof.
  intros Hcontract. induction ivs as [|[i v] ivs IH]; intros Hivs routes total routes' total' Hrun Hall.
  { by injection Hrun as <- <-. }
  cbn [foldl] in Hrun.
  destruct (Some (routes, total) ≫= λ a, extract_route _ _ _ _ _ a (i, v))
    as [[routes1 total1]|] eqn:Hone.
  2:{ rewrite (foldl_bind_None (λ iv a, extract_route depot customers use_real_roads
                                          matrix paths a iv)) in Hrun. done. }
  cbn [mbind option_bind] in Hone.
  eapply IH; [|exact Hrun|].
  { intros i' v' Hin. apply Hivs. apply elem_of_cons. by right. }
  apply extract_route_spec in Hone
    as [-> | (route & path & -> & Hpath & Hid & Hne & Hdem & Hsum)]; [done|].
  apply Forall_app. split; [done|]. constructor; [|done].
  assert (Hv : vehicles !! i = Some v) by (apply Hivs, elem_of_cons; by left).
  exists v. split; [by eapply list_elem_of_lookup_2|]. repeat split; try done.
  rewrite Hsum. eapply (Hcontract i); [done|]. by rewrite list_lookup_fmap, Hv.
Qed.

(** The exact-solver adapter: with a solver that keeps its capacity
    dimension (or none at all, or none that finds a solution), every
    route is within the capacity of its vehicle. *)
Lemma ortools_routes_within (depot : Data.Depot) (customers : list Data.CustomerData)
    (vehicles : list Data.VehicleData) (use_real_roads : bool) (r : Service.Result) :
  (∀ solve matrix, ortools = Some solve →
     Service.respects_capacities (0 :: (Data.demand_of <$> customers))
       ((λ v, default 100 (Data.vd_capacity v)) <$> vehicles)
       (solve matrix (0 :: (Data.demand_of <$> customers))
          ((λ v, default 100 (Data.vd_capacity v)) <$> vehicles))) →
  optimize_with_ortools depot customers vehicles use_real_roads = Some r →
  Forall (route_within vehicles) (Service.routes r).
Proof.
  intros Hcontract. unfold Service.optimize_with_ortools.
  destruct ortools as [solve|]; [|apply greedy_routes_within].
  destruct (Service.distance_matrix _ _ _ _ _) as [matrix|]; cbn [mbind option_bind]; [|done].
  specialize (Hcontract solve matrix eq_refl).
  destruct (solve matrix _ _) as [paths| |]; [|apply greedy_routes_within|done].
  intros Hrun.
  destruct (foldl _ _ _) as [[routes total]|] eqn:Hloop; cbn [mbind option_bind] in Hrun; [|done].
  destruct (Py.int _); cbn [mbind option_bind] in Hrun; [|done]. injection Hrun as <-.
  cbn [Service.routes].
  eapply extract_loop_within; [exact Hcontract| |exact Hloop|constructor].
  intros i v Hin. apply elem_of_lookup_imap in Hin as (i' & v' & [= -> ->] & Hv). done.
Qed.

End ExactSolver.

(** ** Capacity across the strategies *)
Section Strategies.

Variable pow : float → float → float.
Variable sin : float → float.
Variable cos : float → float.
Variable atan2 : float → float → float.
Variable round2 : float → float.
Variable np_round2 : float → float.
Variable osrm : list Service.Coord → option (list Service.Coord * float * float).
Variable ortools : option (list (list Z) → list Z → list Z → Service.SolverAnswer).
Variable Net : Type.
Variable Opt : Type.
Variable rng : Type.
Variable forward_train : Net → rng → list (list float) → list (list float) * rng.
Variable random_random : rng → float * rng.
Variable random_randrange : Z → rng → option (Z * rng).
Variable np_choice : list Z → rng → option (Z * rng).
Variable np_seed : Z → rng.
Variable np_uniform : float → float → rng → float * rng.
Variable np_randint : Z → Z → rng → option (Z * rng).

(** C1 (amended). In a result of the constructive heuristic, and in one of
    the exact-solver path when the solver keeps its capacity dimension
    (or is missing, or finds nothing, and the heuristic takes over), every
    route belongs to a vehicle of the instance, and the demands of its
    customers sum to its [total_demand] and to at most the capacity of
    that vehicle.  In a result of the learned-policy path, with no
    negative capacity in the instance, every route belongs to a vehicle of
    the instance and its [total_demand], the load the vehicle carries when
    the episode ends, is at most the capacity of that vehicle. *)
Theorem routes_within_capacity (depot : Data.Depot) (customers : list Data.CustomerData)
    (vehicles : list Data.VehicleData) (use_real_roads : bool) :
  (∀ r,
     Service.optimize_greedy pow sin cos atan2 round2 osrm depot customers vehicles
       use_real_roads = Some r →
     Forall (λ route, ∃ vd, vd ∈ vehicles
               ∧ Service.vehicle_id route = Data.vd_id vd
               ∧ Service.points route ≠ []
               ∧ Service.total_demand route = Service.demand_sum (Service.points route)
               ∧ Service.demand_sum (Service.points route)
                 ≤ default 100 (Data.vd_capacity vd))
       (Service.routes r))
  ∧ ((∀ solve matrix, ortools = Some solve →
        Service.respects_capacities (0 :: (Data.demand_of <$> customers))
          ((λ v, default 100 (Data.vd_capacity v)) <$> vehicles)
          (solve matrix (0 :: (Data.demand_of <$> customers))
             ((λ v, default 100 (Data.vd_capacity v)) <$> vehicles))) →
     ∀ r,
       Service.optimize_with_ortools pow sin cos atan2 round2 osrm ortools depot customers
         vehicles use_real_roads = Some r →
       Forall (λ route, ∃ vd, vd ∈ vehicles
                 ∧ Service.vehicle_id route = Data.vd_id vd
                 ∧ Service.points route ≠ []
                 ∧ Service.total_demand route = Service.demand_sum (Service.points route)
                 ∧ Service.demand_sum (Service.points route)
                   ≤ default 100 (Data.vd_capacity vd))
         (Service.routes r))
  ∧ (Forall (λ vd, 0 ≤ Service.rl_capacity vehicles vd) vehicles →
     ∀ agent g r g',
       Service.optimize_with_rl pow sin cos atan2 round2 np_round2 osrm Net Opt rng
         forward_train random_random random_randrange np_choice np_seed np_uniform np_randint
         (Some agent) true depot customers vehicles use_real_roads g = Some (Some (r, g')) →
       Forall (λ route, ∃ i vd, vehicles !! i = Some vd
                 ∧ Service.vehicle_id route = Data.vd_id vd
                 ∧ Service.points route ≠ []
                 ∧ Service.total_demand route ≤ Service.rl_capacity vehicles vd)
         (Service.routes r)).
Proof.
  split; [|split].
  - intros r. apply greedy_routes_within.
  - intros Hcontract r. by apply ortools_routes_within.
  - intros Hcaps agent g r g' Hrun. by eapply rl_result_loads.
Qed.

End Strategies.

(** ** The strategies on the sample instance *)

#[local] Abbreviation sample_greedy :=
  (Service.optimize_greedy Sample.pow Sample.sin Sample.cos Sample.atan2 Sample.round2
     Sample.osrm).
#[local] Abbreviation sample_ortools :=
  (Service.optimize_with_ortools Sample.pow Sample.sin Sample.cos Sample.atan2 Sample.round2
     Sample.osrm (Some Sample.solver)).
#[local] Abbreviation sample_rl :=
  (Service.optimize_with_rl Sample.pow Sample.sin Sample.cos Sample.atan2 Sample.round2
     Sample.np_round2 Sample.osrm Sample.Net Sample.Opt Sample.rng Sample.forward_train
     Sample.random_random Sample.random_randrange Sample.np_choice Sample.np_seed
     Sample.np_uniform Sample.np_randint).

Lemma sample_greedy_returns :
  is_Some (sample_greedy Sample.depot Sample.customers Sample.vehicles false).
Proof. vm_compute. eauto. Qed.

Lemma sample_ortools_returns :
  is_Some (sample_ortools Sample.depot Sample.customers Sample.vehicles false).
Proof. vm_compute. eauto. Qed.

Lemma sample_rl_returns :
  ∃ r g, sample_rl (Some (Sample.agent [3; 2; 1; 0]%float)) true Sample.depot Sample.customers
           Sample.vehicles false 0 = Some (Some (r, g)).
Proof. vm_compute. by eexists _, _. Qed.

(** The three strategies on the sample instance return, and their routes
    are within the capacity in the sense of the theorem. *)
Lemma routes_within_capacity_witness :
  (∃ r, sample_greedy Sample.depot Sample.customers Sample.vehicles false = Some r
        ∧ Forall (λ route, ∃ vd, vd ∈ Sample.vehicles
                    ∧ Service.vehicle_id route = Data.vd_id vd
                    ∧ Service.points route ≠ []
                    ∧ Service.total_demand route = Service.demand_sum (Service.points route)
                    ∧ Service.demand_sum (Service.points route)
                      ≤ default 100 (Data.vd_capacity vd))
            (Service.routes r))
  ∧ (∃ r, sample_ortools Sample.depot Sample.customers Sample.vehicles false = Some r
          ∧ Forall (λ route, ∃ vd, vd ∈ Sample.vehicles
                      ∧ Service.vehicle_id route = Data.vd_id vd
                      ∧ Service.points route ≠ []
                      ∧ Service.total_demand route = Service.demand_sum (Service.points route)
                      ∧ Service.demand_sum (Service.points route)
                        ≤ default 100 (Data.vd_capacity vd))
              (Service.routes r))
  ∧ (∃ r g, sample_rl (Some (Sample.agent [3; 2; 1; 0]%float)) true Sample.depot
              Sample.customers Sample.vehicles false 0 = Some (Some (r, g))
            ∧ Forall (λ route, ∃ i vd, Sample.vehicles !! i = Some vd
                        ∧ Service.vehicle_id route = Data.vd_id vd
                        ∧ Service.points route ≠ []
                        ∧ Service.total_demand route ≤ Service.rl_capacity Sample.vehicles vd)
                (Service.routes r)).
Proof.
  destruct (routes_within_capacity Sample.pow Sample.sin Sample.cos Sample.atan2 Sample.round2
              Sample.np_round2 Sample.osrm (Some Sample.solver) Sample.Net Sample.Opt
              Sample.rng Sample.forward_train Sample.random_random Sample.random_randrange
              Sample.np_choice Sample.np_seed Sample.np_uniform Sample.np_randint
              Sample.depot Sample.customers Sample.vehicles false) as (Hgreedy & Hsolver & Hrl).
  split; [|split].
  - destruct sample_greedy_returns as [r Hr]. exists r. split; [exact Hr|]. by apply Hgreedy.
  - destruct sample_ortools_returns as [r Hr]. exists r. split; [exact Hr|].
    apply Hsolver; [|exact Hr]. intros solve matrix [= <-].
    intros i path capacity Hpath Hcap. destruct i as [|i]; [|done].
    injection Hpath as <-. injection Hcap as <-. vm_compute. discriminate.
  - destruct sample_rl_returns as (r & g & Hr). exists r, g. split; [exact Hr|].
    eapply Hrl; [|exact Hr]. repeat constructor. vm_compute. discriminate.
Defined.

(** C1 as stated fails on the learned-policy path: on the sample instance
    (three customers of demand 5, one vehicle of capacity 10) a policy
    that prefers the customers in their order serves two of them, returns
    to the depot, and serves the third; the one route lists all three
    customers, 15 units of demand for a capacity of 10, and reports the
    last load, 5, as its total demand. *)
Lemma learned_policy_route_exceeds_capacity :
  ∃ r g route vd,
    sample_rl (Some (Sample.agent [3; 2; 1; 0]%float)) true Sample.depot Sample.customers
      Sample.vehicles false 0 = Some (Some (r, g))
    ∧ Service.routes r = [route]
    ∧ Sample.vehicles = [vd]
    ∧ Service.vehicle_id route = Data.vd_id vd
    ∧ Service.customer_id <$> Service.points route = ["a"; "b"; "c"]
    ∧ Service.demand_sum (Service.points route) = 15
    ∧ Service.rl_capacity Sample.vehicles vd = 10
    ∧ Data.vd_capacity vd = Some 10
    ∧ Service.total_demand route = 5.
Proof.
  vm_compute. eexists _, _, _, _.
  split; [reflexivity|]. split; [reflexivity|]. split; [reflexivity|]. done.
Qed.

(** The scenario of C7 on the sample instance. *)
Lemma greedy_three_customers_one_vehicle_witness :
  ∃ r,
    sample_greedy Sample.depot Sample.customers Sample.vehicles false = Some r
    ∧ Service.customers_served r = 2
    ∧ Service.customers_unserved r = 1
    ∧ ∃ route,
        Service.routes r = [route]
        ∧ Service.vehicle_id route = "van"
        ∧ length (Service.points route) = 2%nat
        ∧ Service.total_demand route = 10
        ∧ (false = false →
           Service.geometry route
           = [Service.depot_coord Sample.depot] ++ (Service.location <$> Service.points route)
               ++ [Service.depot_coord Sample.depot]).
Proof.
  destruct sample_greedy_returns as [r Hr]. exists r. split; [exact Hr|].
  apply (greedy_three_customers_one_vehicle Sample.pow Sample.sin Sample.cos Sample.atan2
           Sample.round2 Sample.osrm Sample.depot
           (Data.mkCustomerData "a" 0 0.01 (Some 5) (Some 1))
           (Data.mkCustomerData "b" 0.01 0 (Some 5) (Some 2))
           (Data.mkCustomerData "c" 0.01 0.01 (Some 5) (Some 1))
           (Data.mkVehicleData "van" (Some 10)) false r);
    [reflexivity|reflexivity|reflexivity|reflexivity|vm_compute; reflexivity|exact Hr].
Defined.

(** C10 on the sample instance. *)
Lemma greedy_routes_have_stops_and_demand_witness :
  ∃ r,
    sample_greedy Sample.depot Sample.customers Sample.vehicles false = Some r
    ∧ ∃ served,
        served `sublist_of` Sample.vehicles
        ∧ Forall2 (λ route vehicle,
            Service.vehicle_id route = Data.vd_id vehicle
            ∧ Service.points route ≠ []
            ∧ Service.total_demand route = Service.demand_sum (Service.points route))
            (Service.routes r) served.
Proof.
  destruct sample_greedy_returns as [r Hr]. exists r. split; [exact Hr|].
  exact (greedy_routes_have_stops_and_demand Sample.pow Sample.sin Sample.cos Sample.atan2
           Sample.round2 Sample.osrm Sample.depot Sample.customers Sample.vehicles false r Hr).
Defined.

(** C8 on the sample instance, with real roads asked for: one run without
    an answer of the router, one with an answer. *)
Lemma greedy_deterministic_witness :
  ∃ r1 r2,
    Service.optimize_greedy Sample.pow Sample.sin Sample.cos Sample.atan2 Sample.round2
      Sample.osrm Sample.depot Sample.customers Sample.vehicles true = Some r1
    ∧ Service.optimize_greedy Sample.pow Sample.sin Sample.cos Sample.atan2 Sample.round2
        (λ pts, Some (pts, 4.5%float, 9%float)) Sample.depot Sample.customers Sample.vehicles
        true = Some r2
    ∧ Forall2 (λ a b, Service.vehicle_id a = Service.vehicle_id b
                      ∧ Service.points a = Service.points b
                      ∧ Service.total_demand a = Service.total_demand b)
        (Service.routes r1) (Service.routes r2)
    ∧ Service.customers_served r1 = Service.customers_served r2
    ∧ Service.customers_unserved r1 = Service.customers_unserved r2.
Proof.
  assert (H1 : is_Some (Service.optimize_greedy Sample.pow Sample.sin Sample.cos Sample.atan2
                 Sample.round2 Sample.osrm Sample.depot Sample.customers Sample.vehicles true))
    by (vm_compute; eauto).
  assert (H2 : is_Some (Service.optimize_greedy Sample.pow Sample.sin Sample.cos Sample.atan2
                 Sample.round2 (λ pts, Some (pts, 4.5%float, 9%float)) Sample.depot
                 Sample.customers Sample.vehicles true))
    by (vm_compute; eauto).
  destruct H1 as [r1 H1], H2 as [r2 H2]. exists r1, r2.
  split; [exact H1|]. split; [exact H2|].
  destruct (greedy_deterministic Sample.pow Sample.sin Sample.cos Sample.atan2 Sample.round2
              Sample.osrm (λ pts, Some (pts, 4.5%float, 9%float)) Sample.depot
              Sample.customers Sample.vehicles true r1 r2 H1 H2) as (Hr & Hs & Hu & _).
  split; [exact Hr|]. split; [exact Hs|exact Hu].
Defined.

(** ** Empty customer and vehicle lists *)
Section EmptyLists.

Variable pow : float → float → float.
Variable sin : float → float.
Variable cos : float → float.
Variable atan2 : float → float → float.
Variable round2 : float → float.
Variable osrm : list Service.Coord → option (list Service.Coord * float * float).
Variable ortools : option (list (list Z) → list Z → list Z → Service.SolverAnswer).
Variable db_depot : string → option Data.Depot.
Variable db_customers : list string → list Data.CustomerData.
Variable db_vehicles : list string → list Data.VehicleData.

#[local] Abbreviation optimize_greedy := (Service.optimize_greedy pow sin cos atan2 round2 osrm).
#[local] Abbreviation optimize_routes :=
  (Api.optimize_routes pow sin cos atan2 round2 osrm ortools db_depot db_customers db_vehicles).

(** With no customer no vehicle gets a route. *)
Lemma vehicles_loop_no_customers (depot : Data.Depot) (use_real_roads : bool)
    (vehicles : list Data.VehicleData) :
  foldl (λ acc vehicle,
           acc ≫= Service.route_vehicle pow sin cos atan2 round2 osrm depot [] use_real_roads
                    vehicle) (Some ([], [])) vehicles = Some ([], []).
Proof. induction vehicles as [|v vs IH]; [done|]. by rewrite foldl_bind_cons. Qed.

(** C3 (amended). The request schema refuses an empty customer list and an
    empty vehicle list alike: [POST /optimize] answers such a request with
    a validation error (422) before any lookup and any strategy, and a
    valid request none of whose vehicles is available with an HTTP error
    (404 or 400); neither ends in a result.  The constructive heuristic
    itself, reached with an empty customer list, returns success with no
    route, distance 0, nobody served and nobody unserved; reached with an
    empty vehicle list it returns success with no route and every customer
    unserved. *)
Theorem empty_lists (q : Api.OptimizationRequest) (depot : Data.Depot)
    (customers : list Data.CustomerData) (vehicles : list Data.VehicleData)
    (use_real_roads : bool) :
  (Api.customer_ids q = [] ∨ Api.vehicle_ids q = [] →
   optimize_routes q = Api.HttpError 422 "validation error")
  ∧ (Api.valid_request q = true → db_vehicles (Api.vehicle_ids q) = [] →
     ∃ status detail, optimize_routes q = Api.HttpError status detail
                      ∧ (status = 404 ∨ status = 400))
  ∧ optimize_greedy depot [] vehicles use_real_roads
    = Some (Service.mkResult true [] (Py.Int 0) 0 0 0 Service.MethodGreedy)
  ∧ optimize_greedy depot customers [] use_real_roads
    = Some (Service.mkResult true [] (Py.Int 0) 0 0 (Z.of_nat (length customers))
              Service.MethodGreedy).
Proof.
  split; [|split; [|split]].
  - unfold Api.optimize_routes, Api.valid_request. intros [-> | ->]; simpl; [done|].
    by rewrite andb_false_r.
  - unfold Api.optimize_routes. intros -> ->. simpl.
    destruct (db_depot _); [|eauto].
    destruct (negb _); eauto.
  - unfold Service.optimize_greedy. simpl length. simpl seq.
    by rewrite vehicles_loop_no_customers.
  - unfold Service.optimize_greedy. simpl. by rewrite length_seq.
Qed.

End EmptyLists.

#[local] Abbreviation sample_optimize_routes :=
  (Api.optimize_routes Sample.pow Sample.sin Sample.cos Sample.atan2 Sample.round2 Sample.osrm
     None Sample.db_depot Sample.db_customers Sample.db_vehicles).

(** The parts of C3 (amended) on sample requests: no customer ids; and
    vehicle ids of which the database finds none available. *)
Lemma empty_lists_witness :
  sample_optimize_routes (Api.mkRequest "depot" [] ["van"] Api.GREEDY None true true false)
    = Api.HttpError 422 "validation error"
  ∧ ∃ status detail,
      Api.optimize_routes Sample.pow Sample.sin Sample.cos Sample.atan2 Sample.round2
        Sample.osrm None Sample.db_depot Sample.db_customers (λ _, [])
        (Api.mkRequest "depot" ["a"] ["van"] Api.GREEDY None true true false)
      = Api.HttpError status detail
      ∧ (status = 404 ∨ status = 400).
Proof.
  split.
  - apply (empty_lists Sample.pow Sample.sin Sample.cos Sample.atan2 Sample.round2 Sample.osrm
             None Sample.db_depot Sample.db_customers Sample.db_vehicles
             (Api.mkRequest "depot" [] ["van"] Api.GREEDY None true true false)
             Sample.depot [] [] false). by left.
  - apply (empty_lists Sample.pow Sample.sin Sample.cos Sample.atan2 Sample.round2 Sample.osrm
             None Sample.db_depot Sample.db_customers (λ _, [])
             (Api.mkRequest "depot" ["a"] ["van"] Api.GREEDY None true true false)
             Sample.depot [] [] false); reflexivity.
Defined.

(** C3 as stated fails on the code: a request with an empty customer list
    is answered with a validation error, not with a success of zero
    routes; and the quick endpoint, asked for zero vehicles, runs the
    heuristic on an empty vehicle list and returns success. *)
Lemma empty_lists_counterexample :
  sample_optimize_routes (Api.mkRequest "depot" [] ["van"] Api.GREEDY None true true false)
    = Api.HttpError 422 "validation error"
  ∧ Api.quick_optimize Sample.pow Sample.sin Sample.cos Sample.atan2 Sample.round2 Sample.osrm
      0 0 [(0.01%float, 0.01%float, Some 5, None)] 0 100 Api.GREEDY
    = Some (true, [], Py.Int 0).
Proof. split; reflexivity. Qed.

(** * Further properties of the code *)

#[local] Set Warnings "-inconsistent-scopes".

(** ** More on the order of floats *)

Lemma SFltb_leb a b : SFltb a b = true → SFleb a b = true.
Proof.
  destruct a as [[]|[]| |[] ma ea], b as [[]|[]| |[] mb eb];
    try (simpl; congruence); sf_cases.
Qed.

Lemma SFeqb_leb a b : SFeqb a b = true → SFleb a b = true.
Proof.
  destruct a as [[]|[]| |[] ma ea], b as [[]|[]| |[] mb eb];
    try (simpl; congruence); unfold SFeqb; sf_cases.
Qed.


Lemma SFltb_eqb_r a b : SFltb a b = true → SFeqb b b = true.
Proof.
  destruct a as [[]|[]| |[] ma ea], b as [[]|[]| |[] mb eb];
    try (simpl; congruence); unfold SFeqb; sf_cases.
Qed.


Lemma ltb_leb (a b : float) : (a <? b)%float = true → (a <=? b)%float = true.
Proof. rewrite leb_spec, ltb_spec. apply SFltb_leb. Qed.

Lemma leb_number (a : float) : (a =? a)%float = true → (a <=? a)%float = true.
Proof. rewrite leb_spec, FloatAxioms.eqb_spec. apply SFeqb_leb. Qed.


Lemma ltb_number_r (a b : float) : (a <? b)%float = true → (b =? b)%float = true.
Proof. rewrite ltb_spec, FloatAxioms.eqb_spec. apply SFltb_eqb_r. Qed.


Lemma SFleb_trans a b c : SFleb a b = true → SFleb b c = true → SFleb a c = true.
Proof.
  destruct a as [[]|[]| |[] ma ea], b as [[]|[]| |[] mb eb], c as [[]|[]| |[] mc ec];
    try (simpl; congruence); sf_cases.
Qed.

Lemma SFnot_ltb_leb a b :
  SFeqb a a = true → SFeqb b b = true → SFltb a b = false → SFleb b a = true.
Proof.
  destruct a as [[]|[]| |[] ma ea], b as [[]|[]| |[] mb eb];
    try (simpl; congruence); unfold SFeqb; sf_cases.
Qed.

Lemma leb_trans (a b c : float) : (a <=? b)%float = true → (b <=? c)%float = true →
  (a <=? c)%float = true.
Proof. rewrite !leb_spec. apply SFleb_trans. Qed.

Lemma not_ltb_leb (a b : float) :
  (a =? a)%float = true → (b =? b)%float = true → (a <? b)%float = false →
  (b <=? a)%float = true.
Proof. rewrite leb_spec, ltb_spec, !FloatAxioms.eqb_spec. apply SFnot_ltb_leb. Qed.

(** ** The environment: episodes, step by step *)
Section EnvEpisodes.

Variable pow : float → float → float.
Variable rng : Type.
Variable np_seed : Z → rng.
Variable np_uniform : float → float → rng → float * rng.
Variable np_randint : Z → Z → rng → option (Z * rng).

#[local] Abbreviation reachable := (Env.reachable pow rng np_seed np_uniform np_randint).
#[local] Abbreviation distance := (Env._calculate_distance pow).

(** The action branch of [step], case by case. *)
Lemma step_action_cases (e : Env.t) (action : Z) vs cs idx rw :
  Env.step_action pow e action = Some (vs, cs, idx, rw) →
  ∃ vehicle,
    Py.getitem (Env.vehicles e) (Env.current_vehicle_idx e) = Some vehicle
    ∧ let home := distance (Env.v_current_x vehicle) (Env.v_current_y vehicle)
                    (Env.depot_x e) (Env.depot_y e) in
      (* the return to the depot *)
      (action = Env.num_customers e ∧ cs = Env.customers e
       ∧ Py.setitem (Env.vehicles e) (Env.current_vehicle_idx e)
           (Env.returned e vehicle home) = Some vs
       ∧ Py.mod_ (Env.current_vehicle_idx e + 1) (Env.num_vehicles e) = Some idx
       ∧ rw = (- home * 0.1)%float)
      (* an action outside the range, or onto a visited customer *)
      ∨ (action ≠ Env.num_customers e ∧ vs = Env.vehicles e ∧ cs = Env.customers e
         ∧ idx = Env.current_vehicle_idx e ∧ rw = (-1.0)%float
         ∧ (¬ 0 ≤ action < Env.num_customers e
            ∨ ∃ customer, Py.getitem (Env.customers e) action = Some customer
                          ∧ Env.c_visited customer = true))
      (* a customer that does not fit: the forced return *)
      ∨ (0 ≤ action < Env.num_customers e ∧ cs = Env.customers e
         ∧ idx = Env.current_vehicle_idx e
         ∧ Py.setitem (Env.vehicles e) (Env.current_vehicle_idx e)
             (Env.returned e vehicle home) = Some vs
         ∧ rw = (-0.5 - home * 0.1)%float
         ∧ ∃ customer, Py.getitem (Env.customers e) action = Some customer
             ∧ Env.c_visited customer = false
             ∧ Env.v_capacity vehicle < Env.v_current_load vehicle + Env.c_demand customer)
      (* a visit *)
      ∨ (0 ≤ action < Env.num_customers e ∧ idx = Env.current_vehicle_idx e
         ∧ ∃ customer,
             Py.getitem (Env.customers e) action = Some customer
             ∧ Env.c_visited customer = false
             ∧ Env.v_current_load vehicle + Env.c_demand customer ≤ Env.v_capacity vehicle
             ∧ Env.v_capacity vehicle ≠ 0
             ∧ Py.setitem (Env.vehicles e) (Env.current_vehicle_idx e)
                 (Env.served vehicle customer
                    (distance (Env.v_current_x vehicle) (Env.v_current_y vehicle)
                       (Env.c_x customer) (Env.c_y customer))) = Some vs
             ∧ Py.setitem (Env.customers e) action (Env.set_visited customer true) = Some cs).
Proof.
  unfold Env.step_action. intros H.
  destruct (Py.getitem (Env.vehicles e) _) as [vehicle|] eqn:Hv; simpl in H; [|done].
  exists vehicle. split; [done|]. cbv zeta.
  destruct (Z.eqb_spec action (Env.num_customers e)) as [->|Hne].
  { bind_inv. left. done. }
  destruct (Z.leb_spec 0 action); destruct (Z.ltb_spec action (Env.num_customers e));
    simpl in H; try (injection H as <- <- <- <-; right; left; repeat split; try done; left; lia).
  destruct (Py.getitem (Env.customers e) action) as [customer|] eqn:Hc; simpl in H; [|done].
  destruct (Env.c_visited customer) eqn:Hvis.
  { injection H as <- <- <- <-. right. left. repeat split; try done. right. eauto. }
  destruct (Z.ltb_spec (Env.v_capacity vehicle)
              (Env.v_current_load vehicle + Env.c_demand customer)).
  { bind_inv. right. right. left. repeat split; try done. eauto. }
  bind_inv. right. right. right. split; [done|]. split; [done|].
  exists customer. repeat split; try done.
  match goal with E : Py.truediv _ _ = Some _ |- _ =>
    unfold Py.truediv in E; simpl in E; intros Hz; rewrite Hz in E; done end.
Qed.


(** A vehicle whose accumulated distance alone may have grown. *)
#[local] Abbreviation charged v v' :=
  (v' = Env.mkVehicle (Env.v_id v) (Env.v_capacity v) (Env.v_current_load v)
          (Env.v_current_x v) (Env.v_current_y v) (Env.v_route v) (Env.v_total_distance v')).

(** The closing loop charges distances and nothing else. *)
Lemma close_routes_frame (e : Env.t) (vs : list Env.Vehicle) :
  ∀ rw vs' rw', Env.close_routes pow e vs rw = (vs', rw') →
    Forall2 (λ v v', charged v v') vs vs'.
Proof.
  induction vs as [|v vs IH]; intros rw vs' rw'; simpl.
  { intros [= <- <-]. constructor. }
  destruct (Py.fne _ _ || Py.fne _ _).
  - destruct (Env.close_routes pow e vs _) as [vs'' rw''] eqn:Hrest.
    intros [= <- <-]. constructor; [done|]. by eapply IH.
  - destruct (Env.close_routes pow e vs _) as [vs'' rw''] eqn:Hrest.
    intros [= <- <-]. constructor; [by destruct v|]. by eapply IH.
Qed.

Lemma charged_refl (vs : list Env.Vehicle) : Forall2 (λ v v', charged v v') vs vs.
Proof. induction vs as [|v vs IH]; constructor; [by destruct v|done]. Qed.

Lemma charged_fmap {B} (f : Env.Vehicle → B) (vs vs' : list Env.Vehicle) :
  (∀ v v', charged v v' → f v' = f v) →
  Forall2 (λ v v', charged v v') vs vs' → f <$> vs' = f <$> vs.
Proof.
  intros Hf. induction 1 as [|v v' vs vs' Hv _ IH]; [done|].
  rewrite !fmap_cons, IH. f_equal. by apply Hf.
Qed.

Lemma charged_getitem (vs vs' : list Env.Vehicle) (i : Z) (v : Env.Vehicle) :
  Forall2 (λ v v', charged v v') vs vs' → Py.getitem vs i = Some v →
  ∃ v', Py.getitem vs' i = Some v' ∧ charged v v'.
Proof.
  intros Hall. unfold Py.getitem. rewrite <- (Forall2_length _ _ _ Hall).
  destruct (Py.index (length vs) i) as [k|]; simpl; [|done]. intros Hk.
  destruct (Forall2_lookup_l _ _ _ _ _ Hall Hk) as (v' & Hv' & Hc). eauto.
Qed.

(** What [step] returns, read off its action branch. *)
Lemma step_inv (e e' : Env.t) (action : Z) (r : Env.StepResult) :
  Env.step pow e action = Some (e', r) →
  ∃ vs cs idx rw,
    Env.step_action pow e action = Some (vs, cs, idx, rw)
    ∧ Forall2 (λ v v', charged v v') vs (Env.vehicles e')
    ∧ (forallb Env.c_visited cs = false → Env.vehicles e' = vs)
    ∧ Env.customers e' = cs
    ∧ Env.current_vehicle_idx e' = idx
    ∧ Env.num_customers e' = Env.num_customers e
    ∧ Env.num_vehicles e' = Env.num_vehicles e
    ∧ Env.max_demand e' = Env.max_demand e
    ∧ Env.depot_x e' = Env.depot_x e ∧ Env.depot_y e' = Env.depot_y e
    ∧ Env.max_steps e' = Env.max_steps e
    ∧ Env.steps e' = Env.steps e + 1
    ∧ Env.total_reward e' = (Env.total_reward e + rw)%float
    ∧ Env.terminated r = forallb Env.c_visited cs
    ∧ Env.truncated r = (Env.max_steps e <=? Env.steps e + 1)
    ∧ Env.info r = Env._get_info e'
    ∧ Env._get_observation pow e' = Some (Env.observation r).
Proof.
  unfold Env.step. intros Hstep.
  destruct (Env.step_action pow e action) as [[[[vs cs] idx] rw]|]; simpl in Hstep; [|done].
  exists vs, cs, idx, rw. split; [done|].
  destruct (forallb Env.c_visited cs).
  - destruct (Env.close_routes pow e vs rw) as [vs' rw'] eqn:Hclose.
    apply close_routes_frame in Hclose.
    destruct (Env._get_observation _ _) eqn:Hobs; simpl in Hstep; [|done].
    injection Hstep as <- <-. simpl. repeat split; done.
  - destruct (Env._get_observation _ _) eqn:Hobs; simpl in Hstep; [|done].
    injection Hstep as <- <-. simpl. repeat split; try done. apply charged_refl.
Qed.

(** X1. A step changes at most one customer, the one the action names,
    and only by marking it visited; it does so only when that customer was
    unvisited and its demand fits into what is left of the active
    vehicle's capacity. *)
Theorem step_marks_one_customer (e e' : Env.t) (action : Z) (r : Env.StepResult) :
  Env.step pow e action = Some (e', r) →
  length (Env.customers e') = length (Env.customers e)
  ∧ ∀ (i : nat) c, Env.customers e !! i = Some c →
      Env.customers e' !! i = Some c
      ∨ (Env.customers e' !! i = Some (Env.set_visited c true)
         ∧ action = Z.of_nat i
         ∧ Env.c_visited c = false
         ∧ ∃ vehicle,
             Py.getitem (Env.vehicles e) (Env.current_vehicle_idx e) = Some vehicle
             ∧ Env.v_current_load vehicle + Env.c_demand c ≤ Env.v_capacity vehicle).
Proof.
  intros (vs & cs & idx & rw & Hact & _ & _ & -> & _)%step_inv.
  split; [by eapply step_action_customers|].
  intros i c Hi.
  apply step_action_cases in Hact as (vehicle & Hv & Hcases). cbv zeta in Hcases.
  destruct Hcases as [(_ & -> & _) | [(_ & _ & -> & _) | [(_ & -> & _)
    | ([H0 HN] & _ & customer & Hc & Hvis & Hfit & _ & _ & Hcs)]]]; try by left.
  unfold Py.setitem in Hcs. apply getitem_nonneg in Hc as [Hc Hlen]; [|done].
  rewrite index_in_range in Hcs by lia. simpl in Hcs. injection Hcs as <-.
  destruct (decide (Z.to_nat action = i)) as [<-|Hne].
  - right. rewrite Hi in Hc. injection Hc as <-.
    rewrite list_lookup_insert_eq by (by eapply lookup_lt_Some).
    repeat split; try done; [lia|]. eauto.
  - left. by rewrite list_lookup_insert_ne.
Qed.


(** *** No customer is served twice *)

(** The customers on the routes of all vehicles, route after route. *)
#[local] Abbreviation visits e := (concat (Env.v_route <$> Env.vehicles e)).

Lemma concat_insert_snoc {A} (ls : list (list A)) (k : nat) (l : list A) (a : A) :
  ls !! k = Some l → concat (<[k := l ++ [a]]> ls) ≡ₚ a :: concat ls.
Proof.
  revert k. induction ls as [|l0 ls IH]; intros [|k] Hk; try done.
  - injection Hk as ->. simpl. rewrite <- app_assoc. simpl.
    by rewrite <- Permutation_middle.
  - simpl. rewrite (IH k Hk). by rewrite <- Permutation_middle.
Qed.

Lemma gen_customers_spec (e : Env.t) (n : nat) :
  ∀ i g cs g', Env.gen_customers rng np_uniform np_randint e n i g = Some (cs, g') →
    ∀ (k : nat) c, cs !! k = Some c → Env.c_id c = i + Z.of_nat k ∧ Env.c_visited c = false.
Proof.
  induction n as [|n IH]; intros i g cs g'; simpl.
  { intros [= <- <-] k c Hk. done. }
  destruct (np_uniform 0.1 0.9 g) as [x g1].
  destruct (np_uniform 0.1 0.9 g1) as [y g2].
  destruct (np_randint 1 (Env.max_demand e + 1) g2) as [[d g3]|]; simpl; [|done].
  destruct (np_randint 1 6 g3) as [[p g4]|]; simpl; [|done].
  destruct (Env.use_time_windows e).
  - destruct (np_uniform 0 0.5 g4) as [s g5]. destruct (np_uniform 0.2 0.5 g5) as [l g6].
    destruct (Env.gen_customers _ _ _ e n (i + 1) g6) as [[rest g7]|] eqn:Hrest; simpl; [|done].
    intros [= <- <-] [|k] c Hk.
    + injection Hk as <-. simpl. split; [lia|done].
    + destruct (IH _ _ _ _ Hrest k c Hk). split; [lia|done].
  - destruct (Env.gen_customers _ _ _ e n (i + 1) g4) as [[rest g7]|] eqn:Hrest; simpl; [|done].
    intros [= <- <-] [|k] c Hk.
    + injection Hk as <-. simpl. split; [lia|done].
    + destruct (IH _ _ _ _ Hrest k c Hk). split; [lia|done].
Qed.

Lemma fresh_routes {A} (f : nat → A → Env.Vehicle) (l : list A) :
  (∀ i x, Env.v_route (f i x) = []) → concat (Env.v_route <$> imap f l) = [].
Proof.
  revert f. induction l as [|x l IH]; intros f Hf; [done|].
  simpl. rewrite Hf. simpl. apply IH. intros i y. apply Hf.
Qed.

(** What the routes and the visited flags say together. *)
#[local] Abbreviation served_once e :=
  ((∀ (i : nat) c, Env.customers e !! i = Some c → Env.c_id c = Z.of_nat i)
   ∧ NoDup (visits e)
   ∧ ∀ id, id ∈ visits e
       ↔ ∃ (i : nat) c, Env.customers e !! i = Some c ∧ id = Z.of_nat i
                        ∧ Env.c_visited c = true).

Lemma fresh_served_once (e : Env.t) :
  visits e = [] →
  (∀ (i : nat) c, Env.customers e !! i = Some c →
     Env.c_id c = Z.of_nat i ∧ Env.c_visited c = false) →
  served_once e.
Proof.
  intros Hv Hcs. rewrite Hv. split; [intros i c Hc; by apply Hcs|].
  split; [constructor|]. intros id. split; [by intros ?%elem_of_nil|].
  intros (i & c & Hc & _ & Hvis). destruct (Hcs i c Hc). congruence.
Qed.

Lemma reset_served_once (e0 e : Env.t) seed g obs i g' :
  Env.reset pow rng np_seed np_uniform np_randint e0 seed g = Some (e, obs, i, g') →
  served_once e.
Proof.
  unfold Env.reset. intros Hrun.
  destruct (Env.gen_customers _ _ _ e0 _ 0 _) as [[cs g1]|] eqn:Hcs; simpl in Hrun; [|done].
  destruct (Env._get_observation _ _); simpl in Hrun; [|done].
  injection Hrun as <- <- <- <-. apply fresh_served_once.
  - simpl. by apply fresh_routes.
  - simpl. intros k c Hk. destruct (gen_customers_spec _ _ _ _ _ _ Hcs k c Hk). split; [lia|done].
Qed.

Lemma real_reset_served_once (r r' : Env.RealData) seed g obs i g' :
  Env.real_reset pow rng np_seed np_uniform np_randint r seed g = Some (r', obs, i, g') →
  served_once (Env.base r').
Proof.
  unfold Env.real_reset. intros Hrun.
  destruct (Env.reset _ _ _ _ _ _ _ _) as [[[[e o0] i0] g1]|]; simpl in Hrun; [|done].
  destruct (Env._get_observation _ _); simpl in Hrun; [|done].
  injection Hrun as <- <- <- <-. apply fresh_served_once.
  - simpl. by apply fresh_routes.
  - simpl. intros k c Hk. apply list_lookup_imap_Some in Hk as (cd & _ & ->). done.
Qed.

Lemma step_served_once (e e' : Env.t) (action : Z) (r : Env.StepResult) :
  Env.step pow e action = Some (e', r) → served_once e → served_once e'.
Proof.
  intros (vs & cs & idx & rw & Hact & Hframe & _ & Hcs & _)%step_inv (Hids & Hnd & Hiff).
  assert (Hroutes : Env.v_route <$> Env.vehicles e' = Env.v_route <$> vs).
  { apply charged_fmap; [|done]. by intros v v' ->. }
  rewrite Hroutes, Hcs. clear Hroutes Hcs Hframe e' r.
  apply step_action_cases in Hact as (vehicle & Hv & Hcases). cbv zeta in Hcases.
  destruct Hcases as [(_ & -> & Hvs & _) | [(_ & -> & -> & _) | [(_ & -> & _ & Hvs & _)
    | ([H0 HN] & _ & customer & Hc & Hvis & _ & _ & Hvs & Hcs)]]]; try done.
  1,2: by rewrite (setitem_fmap Env.v_route _ _ _ _ _ Hv Hvs eq_refl).
  apply getitem_nonneg in Hc as [Hc Hlen]; [|done].
  unfold Py.setitem in Hcs. rewrite index_in_range in Hcs by lia. simpl in Hcs.
  injection Hcs as <-.
  pose proof (Hids _ _ Hc) as Hid. rewrite Z2Nat.id in Hid by done.
  destruct (setitem_getitem _ _
              (Env.served vehicle customer
                 (distance (Env.v_current_x vehicle) (Env.v_current_y vehicle)
                    (Env.c_x customer) (Env.c_y customer))) _ Hv) as (k & _ & Hk & Hset).
  rewrite Hset in Hvs. injection Hvs as <-.
  assert (Hperm : concat (Env.v_route <$> <[k := Env.served vehicle customer
                     (distance (Env.v_current_x vehicle) (Env.v_current_y vehicle)
                        (Env.c_x customer) (Env.c_y customer))]> (Env.vehicles e))
                  ≡ₚ action :: visits e).
  { rewrite list_fmap_insert. simpl. rewrite Hid. apply concat_insert_snoc.
    by rewrite list_lookup_fmap, Hk. }
  assert (Hfresh : action ∉ visits e).
  { intros (i & c & Hi & -> & Hvc)%Hiff. rewrite Nat2Z.id in Hc. congruence. }
  split; [|split].
  - intros i c Hi. destruct (decide (Z.to_nat action = i)) as [<-|Hne].
    + rewrite list_lookup_insert_eq in Hi by (by eapply lookup_lt_Some).
      injection Hi as <-. simpl. lia.
    + rewrite list_lookup_insert_ne in Hi by done. by apply Hids.
  - rewrite Hperm. by constructor.
  - intros id. rewrite Hperm, elem_of_cons, Hiff. split.
    + intros [-> | (i & c & Hi & -> & Hvc)].
      * exists (Z.to_nat action), (Env.set_visited customer true).
        rewrite list_lookup_insert_eq by (by eapply lookup_lt_Some).
        split; [done|]. split; [lia|done].
      * destruct (decide (Z.to_nat action = i)) as [<-|Hne].
        -- congruence.
        -- exists i, c. by rewrite list_lookup_insert_ne.
    + intros (i & c & Hi & -> & Hvc).
      destruct (decide (Z.to_nat action = i)) as [<-|Hne]; [left; lia|].
      right. exists i, c. by rewrite list_lookup_insert_ne in Hi.
Qed.

Lemma reachable_served_once (e : Env.t) : reachable e → served_once e.
Proof.
  induction 1 as [e0 seed g e obs i g' Hn Hr | r seed g r' obs i g' Hn Hr | e a e' r _ IH Hs].
  - by eapply reset_served_once.
  - by eapply real_reset_served_once.
  - by eapply step_served_once.
Qed.

Lemma count_visits (e : Env.t) :
  served_once e → Z.of_nat (length (visits e)) = Py.count Env.c_visited (Env.customers e).
Proof.
  intros (Hids & Hnd & Hiff). unfold Py.count. f_equal.
  rewrite <- (length_fmap Env.c_id (filter _ _)). apply Permutation_length.
  assert (Hall : Env.c_id <$> Env.customers e
                 = Z.of_nat <$> seq 0 (length (Env.customers e))).
  { apply list_eq. intros i. rewrite !list_lookup_fmap.
    destruct (Env.customers e !! i) as [c|] eqn:Hc; simpl.
    - rewrite lookup_seq_lt by (by eapply lookup_lt_Some). simpl. f_equal. by apply Hids.
    - rewrite lookup_seq_ge; [done|]. by apply lookup_ge_None. }
  apply NoDup_Permutation; [done| |].
  - eapply sublist_NoDup; [|apply fmap_sublist, sublist_filter].
    rewrite Hall. apply NoDup_fmap_2; [apply _|apply NoDup_seq].
  - intros id. rewrite Hiff, list_elem_of_fmap. split.
    + intros (i & c & Hc & -> & Hvis). exists c. split; [symmetry; by apply Hids|].
      apply list_elem_of_filter. split; [done|]. by eapply list_elem_of_lookup_2.
    + intros (c & -> & [Hvis [i Hi]%list_elem_of_lookup_1]%list_elem_of_filter).
      exists i, c. split; [done|]. split; [by apply Hids|done].
Qed.

(** X2. In every reachable state no customer stands twice on the routes, the
    customers on the routes are exactly the visited ones, and there are
    as many of them as [info] counts as visited. *)
Theorem no_customer_served_twice (e : Env.t) :
  reachable e →
  NoDup (concat (Env.v_route <$> Env.vehicles e))
  ∧ (∀ id, id ∈ concat (Env.v_route <$> Env.vehicles e)
       ↔ ∃ c, 0 ≤ id ∧ Env.customers e !! Z.to_nat id = Some c ∧ Env.c_visited c = true)
  ∧ Z.of_nat (length (concat (Env.v_route <$> Env.vehicles e)))
    = Env.i_customers_visited (Env._get_info e).
Proof.
  intros Hinv%reachable_served_once. pose proof (count_visits e Hinv) as Hcount.
  destruct Hinv as (Hids & Hnd & Hiff). split; [done|]. split; [|done].
  intros id. rewrite Hiff. split.
  - intros (i & c & Hc & -> & Hvis). exists c. rewrite Nat2Z.id. split; [lia|done].
  - intros (c & H0 & Hc & Hvis). exists (Z.to_nat id), c. split; [done|]. split; [lia|done].
Qed.


(** *** Loads stay within the capacities *)

Lemma step_capacities (e e' : Env.t) (action : Z) (r : Env.StepResult) :
  Env.step pow e action = Some (e', r) →
  Env.v_capacity <$> Env.vehicles e' = Env.v_capacity <$> Env.vehicles e.
Proof.
  intros (vs & cs & idx & rw & Hact & Hframe & _)%step_inv.
  rewrite (charged_fmap Env.v_capacity _ _ ltac:(by intros v v' ->) Hframe).
  apply step_action_cases in Hact as (vehicle & Hv & Hcases). cbv zeta in Hcases.
  destruct Hcases as [(_ & _ & Hvs & _) | [(_ & -> & _) | [(_ & _ & _ & Hvs & _)
    | (_ & _ & customer & _ & _ & _ & _ & Hvs & _)]]]; try done.
  all: by eapply setitem_fmap.
Qed.

(** X3. However an episode goes, a vehicle never carries more than its
    capacity; capacities are never negative when the instance has none
    that is. *)
Theorem loads_within_capacity (e : Env.t) :
  reachable e →
  Forall (λ v, 0 ≤ Env.v_capacity v) (Env.vehicles e) →
  Forall (λ v, Env.v_current_load v ≤ Env.v_capacity v) (Env.vehicles e).
Proof.
  intros Hreach Hcaps.
  enough (H : Forall (λ v, 0 ≤ Env.v_capacity v ∧ Env.v_current_load v ≤ Env.v_capacity v)
                (Env.vehicles e)).
  { eapply Forall_impl; [exact H|]. by intros v [_ ?]. }
  revert Hcaps.
  induction Hreach as [e0 seed g e obs i g' Hn Hr | r seed g r' obs i g' Hn Hr | e a e' r _ IH Hs];
    intros Hcaps.
  - assert (Hempty : Forall (λ v, Env.v_current_load v = 0) (Env.vehicles e)).
    { unfold Env.reset in Hr. bind_inv. simpl. apply Forall_forall. intros v Hv.
      by apply elem_of_lookup_imap in Hv as (k & u & -> & _). }
    eapply Forall_impl; [exact (proj2 (Forall_and _ _) (conj Hcaps Hempty))|].
    simpl. intros v [? ?]. lia.
  - assert (Hempty : Forall (λ v, Env.v_current_load v = 0) (Env.vehicles (Env.base r'))).
    { apply real_reset_vehicles in Hr as (-> & _). apply Forall_forall. intros v Hv.
      by apply elem_of_lookup_imap in Hv as (k & u & -> & _). }
    eapply Forall_impl; [exact (proj2 (Forall_and _ _) (conj Hcaps Hempty))|].
    simpl. intros v [? ?]. lia.
  - eapply step_loads; [exact Hs|]. apply IH.
    apply (Forall_fmap Env.v_capacity (λ c, 0 ≤ c)).
    rewrite <- (step_capacities _ _ _ _ Hs). by apply Forall_fmap.
Qed.

(** *** The step budget bounds every episode *)

(** X4. An episode from a state with budget left makes no more steps than
    are left of the budget, and the step counter counts them. *)
Theorem episode_within_budget (e e' : Env.t) (rs : list Env.StepResult) :
  Env.episode pow e rs e' →
  Env.steps e < Env.max_steps e →
  Z.of_nat (length rs) ≤ Env.max_steps e - Env.steps e
  ∧ Env.steps e' = Env.steps e + Z.of_nat (length rs)
  ∧ Env.max_steps e' = Env.max_steps e.
Proof.
  induction 1 as [e | e a e' r Hs Hdone | e a e' r rs e'' Hs Hgo _ IH]; intros Hleft.
  - simpl. lia.
  - destruct (step_counters _ _ _ _ _ Hs) as (Hst & Hmax & _). simpl. lia.
  - destruct (step_counters _ _ _ _ _ Hs) as (Hst & Hmax & Htr).
    apply orb_false_elim in Hgo as [_ Hnt]. rewrite Htr in Hnt. apply Z.leb_gt in Hnt.
    destruct IH as (Hlen & Hst' & Hmax'); [lia|]. rewrite length_cons. lia.
Qed.

(** *** What a step reports *)

Lemma count_split {A} (p : A → bool) (l : list A) :
  Py.count p l + Py.count (λ x, negb (p x)) l = Z.of_nat (length l).
Proof.
  unfold Py.count. induction l as [|x l IH]; [done|].
  rewrite !filter_cons. repeat case_decide; destruct (p x); simpl in *; try done; lia.
Qed.

Lemma count_none {A} (p : A → bool) (l : list A) :
  forallb p l = true ↔ Py.count (λ x, negb (p x)) l = 0.
Proof.
  unfold Py.count. induction l as [|x l IH]; [done|].
  cbn [forallb]. rewrite filter_cons. destruct (p x); case_decide; simpl in *; done.
Qed.

(** X5. The flags and the [info] of a step from a reachable state: visited
    and remaining customers add up to all of them; the episode is
    terminated exactly when none remains, truncated exactly when the step
    budget is used up; [info] carries the new step count. *)
Theorem step_reports (e e' : Env.t) (action : Z) (r : Env.StepResult) :
  reachable e →
  Env.step pow e action = Some (e', r) →
  Env.i_customers_visited (Env.info r) + Env.i_customers_remaining (Env.info r)
    = Env.num_customers e
  ∧ (Env.terminated r = true ↔ Env.i_customers_remaining (Env.info r) = 0)
  ∧ (Env.truncated r = true ↔ Env.max_steps e ≤ Env.steps e + 1)
  ∧ Env.i_steps (Env.info r) = Env.steps e + 1
  ∧ Env.i_current_vehicle (Env.info r) = Env.current_vehicle_idx e'.
Proof.
  intros [Hlen _]%reachable_well_formed Hstep.
  apply step_inv in Hstep as (vs & cs & idx & rw & Hact & _ & _ & Hcs & _ & _ & _ & _ & _ & _ & _
                               & Hst & _ & Hterm & Htrunc & -> & _).
  apply step_action_customers in Hact as Hsame. rewrite <- Hcs in Hsame.
  cbn [Env._get_info Env.i_customers_visited Env.i_customers_remaining Env.i_steps
       Env.i_current_vehicle].
  rewrite count_split, Hsame, Hterm, Htrunc, <- Hcs, count_none, Z.leb_le. done.
Qed.


(** *** When a step returns *)







(** *** Actions the mask allows *)



(** *** Actions out of range *)

(** X8. An action below zero or above the customer count, in a reachable
    state with a customer left: no vehicle and no customer changes and the
    active vehicle stays; the penalty -1.0 goes into [total_reward] and one
    step is counted; the reward returned is -1.0, less 2.0 for every
    unvisited customer on the step that uses up the budget. *)
Theorem step_out_of_range (e : Env.t) (action : Z) :
  reachable e →
  action < 0 ∨ Env.num_customers e < action →
  forallb Env.c_visited (Env.customers e) = false →
  ∃ obs,
    Env._get_observation pow e = Some obs ∧
    let e' := Env.set_counters e (Env.current_vehicle_idx e)
                (Env.total_reward e + -1.0)%float (Env.steps e + 1) in
    Env.step pow e action =
      Some (e', Env.mkStepResult obs
                  (if Env.max_steps e <=? Env.steps e + 1
                   then (-1.0 - Py.float_of_Z
                                  (Py.count (λ c, negb (Env.c_visited c)) (Env.customers e))
                                * 2.0)%float
                   else (-1.0)%float)
                  false (Env.max_steps e <=? Env.steps e + 1) (Env._get_info e')).
Proof.
  intros Hreach Hout Hall.
  destruct (reachable_observable _ _ _ _ _ e Hreach) as [obs Hobs].
  destruct (reachable_well_formed _ _ _ _ _ _ Hreach) as [Hlen [vehicle Hv]].
  exists obs. split; [done|]. intros e'.
  unfold Env.step, Env.step_action. rewrite Hv. simpl.
  destruct (Z.eqb_spec action (Env.num_customers e)); [lia|].
  assert ((0 <=? action) && (action <? Env.num_customers e) = false) as ->.
  { destruct (Z.leb_spec 0 action), (Z.ltb_spec action (Env.num_customers e)); try done; lia. }
  simpl. rewrite Hall. rewrite set_vehicles_customers_same.
  by rewrite observation_set_counters, Hobs.
Qed.

(** *** The observation vector *)

Lemma observation_length (e : Env.t) (obs : list float) :
  Env._get_observation pow e = Some obs →
  length obs = (5 * length (Env.customers e) + 4)%nat.
Proof.
  unfold Env._get_observation. intros H.
  destruct (Py.getitem (Env.vehicles e) _) as [vehicle|]; simpl in H; [|done].
  destruct (mapM _ (Env.customers e)) as [per|] eqn:Hper; simpl in H; [|done].
  assert (Hlen : length (concat per) = (5 * length (Env.customers e))%nat).
  { apply mapM_Some in Hper. clear H.
    induction Hper as [|c l cs ls Hc _ IH]; [done|].
    simpl. rewrite length_app, IH. simpl in Hc. bind_inv. simpl. lia. }
  bind_inv. rewrite length_fmap, length_app. simpl. lia.
Qed.

(** X9. The observation of a reachable state, and the one any step from it
    returns, has five entries per customer and four more: the shape the
    environment declares for its observation space. *)
Theorem observation_shape (e : Env.t) :
  reachable e →
  ∃ obs,
    Env._get_observation pow e = Some obs
    ∧ Z.of_nat (length obs) = Env.num_customers e * 5 + 4
    ∧ ∀ action e' r, Env.step pow e action = Some (e', r) →
        Z.of_nat (length (Env.observation r)) = Env.num_customers e * 5 + 4.
Proof.
  intros Hreach.
  destruct (reachable_observable _ _ _ _ _ e Hreach) as [obs Hobs].
  destruct (reachable_well_formed _ _ _ _ _ _ Hreach) as [Hlen _].
  exists obs. split; [done|]. split.
  - rewrite (observation_length _ _ Hobs). lia.
  - intros action e' r Hstep.
    apply step_inv in Hstep as (vs & cs & idx & rw & H).
    destruct H as (Hact & _ & _ & Hcs & _ & _ & _ & _ & _ & _ & _ & _ & _ & _ & _ & _ & Ho).
    apply step_action_customers in Hact as Hsame. rewrite <- Hcs in Hsame.
    rewrite (observation_length _ _ Ho). lia.
Qed.


(** *** The return to the depot *)

(** X10. The depot-return action (the customer count), in a reachable state,
    whenever the step returns: the active vehicle is left at the depot
    with load 0, its route and capacity as they were, no customer
    changes, the way back is charged at 0.1 per unit, and the next
    vehicle in round-robin order becomes the active one. *)
Theorem depot_return_hands_over (e e' : Env.t) (r : Env.StepResult) :
  reachable e →
  Env.step pow e (Env.num_customers e) = Some (e', r) →
  Env.current_vehicle_idx e' = (Env.current_vehicle_idx e + 1) mod Env.num_vehicles e
  ∧ Env.num_vehicles e ≠ 0
  ∧ Env.customers e' = Env.customers e
  ∧ ∃ vehicle v',
      Py.getitem (Env.vehicles e) (Env.current_vehicle_idx e) = Some vehicle
      ∧ Py.getitem (Env.vehicles e') (Env.current_vehicle_idx e) = Some v'
      ∧ Env.v_current_load v' = 0
      ∧ Env.v_current_x v' = Env.depot_x e ∧ Env.v_current_y v' = Env.depot_y e
      ∧ Env.v_route v' = Env.v_route vehicle
      ∧ Env.v_capacity v' = Env.v_capacity vehicle
      ∧ Env.total_reward e'
        = (Env.total_reward e
           + - distance (Env.v_current_x vehicle) (Env.v_current_y vehicle)
                 (Env.depot_x e) (Env.depot_y e) * 0.1)%float.
Proof.
  intros Hreach Hstep.
  destruct (reachable_well_formed _ _ _ _ _ _ Hreach) as [Hlen _].
  apply step_inv in Hstep as (vs & cs & idx & rw & Hact & Hframe & _ & Hcs & Hidx & H).
  destruct H as (_ & _ & _ & _ & _ & _ & _ & Htotal & _).
  apply step_action_cases in Hact as (vehicle & Hv & Hcases). cbv zeta in Hcases.
  destruct Hcases as [(_ & -> & Hvs & Hmod & ->) | [(? & _) | [(? & _) | (? & _)]]];
    try done; try lia.
  unfold Py.mod_ in Hmod.
  destruct (Z.eqb_spec (Env.num_vehicles e) 0) as [|Hnz]; [done|]. injection Hmod as <-.
  destruct (charged_getitem _ _ _ _ Hframe (getitem_setitem _ _ _ _ Hvs)) as (v' & Hv' & Hch).
  split; [done|]. split; [done|]. split; [done|].
  exists vehicle, v'. split; [done|]. split; [done|]. rewrite Hch. simpl. done.
Qed.

End EnvEpisodes.

(** ** The bounding box of a real-data environment *)
Section BoundingBox.

(** A float that is not a NaN. *)
#[local] Abbreviation number x := ((x =? x)%float = true).

Lemma list_min_spec (l : list float) :
  ∀ x, number x → Forall (λ y, number y) l →
    (Env.list_min x l <=? x)%float = true
    ∧ Forall (λ y, (Env.list_min x l <=? y)%float = true) l
    ∧ number (Env.list_min x l).
Proof.
  unfold Env.list_min. induction l as [|y l IH]; intros x Hx Hl; simpl.
  { split; [by apply leb_number|]. split; [constructor|done]. }
  apply Forall_cons in Hl as [Hy Hl].
  destruct (y <? x)%float eqn:Hlt.
  - destruct (IH y Hy Hl) as (Hle & Hall & Hnum).
    split; [by apply ltb_leb, (leb_ltb_trans _ y)|]. split; [by constructor|done].
  - destruct (IH x Hx Hl) as (Hle & Hall & Hnum).
    split; [done|]. split; [|done]. constructor; [|done].
    eapply leb_trans; [exact Hle|]. by apply not_ltb_leb.
Qed.

Lemma list_max_spec (l : list float) :
  ∀ x, number x → Forall (λ y, number y) l →
    (x <=? Env.list_max x l)%float = true
    ∧ Forall (λ y, (y <=? Env.list_max x l)%float = true) l
    ∧ number (Env.list_max x l).
Proof.
  unfold Env.list_max. induction l as [|y l IH]; intros x Hx Hl; simpl.
  { split; [by apply leb_number|]. split; [constructor|done]. }
  apply Forall_cons in Hl as [Hy Hl].
  destruct (x <? y)%float eqn:Hlt.
  - destruct (IH y Hy Hl) as (Hle & Hall & Hnum).
    split; [by eapply leb_trans; [apply ltb_leb|]|]. split; [by constructor|done].
  - destruct (IH x Hx Hl) as (Hle & Hall & Hnum).
    split; [done|]. split; [|done]. constructor; [|done].
    eapply leb_trans; [|exact Hle]. by apply not_ltb_leb.
Qed.

(** The least and greatest of a non-empty list bound all of it. *)
Lemma min_max_bound (l : list float) (d : float) :
  l ≠ [] → Forall (λ y, number y) l →
  Forall (λ y, (Env.list_min (default d (head l)) (tail l) <=? y)%float = true
               ∧ (y <=? Env.list_max (default d (head l)) (tail l))%float = true) l.
Proof.
  destruct l as [|x l]; [done|]. intros _ [Hx Hl]%Forall_cons. simpl.
  destruct (list_min_spec l x Hx Hl) as (H1 & H2 & _).
  destruct (list_max_spec l x Hx Hl) as (H3 & H4 & _).
  constructor; [done|]. apply Forall_and. done.
Qed.

(** X11. When no coordinate of the instance is a NaN, the box a real-data
    environment normalises into contains the depot and every customer. *)
Theorem bounding_box_contains (customers_data : list Data.CustomerData)
    (vehicles_data : list Data.VehicleData) (depot_data : Data.Depot) :
  Forall (λ c, (Data.cd_lat c =? Data.cd_lat c)%float = true
               ∧ (Data.cd_lon c =? Data.cd_lon c)%float = true) customers_data →
  (Data.d_lat depot_data =? Data.d_lat depot_data)%float = true →
  (Data.d_lon depot_data =? Data.d_lon depot_data)%float = true →
  let r := Env.real_init customers_data vehicles_data depot_data in
  let inside lat lon :=
    (Env.lat_min r <=? lat)%float = true ∧ (lat <=? Env.lat_max r)%float = true
    ∧ (Env.lon_min r <=? lon)%float = true ∧ (lon <=? Env.lon_max r)%float = true in
  inside (Data.d_lat depot_data) (Data.d_lon depot_data)
  ∧ Forall (λ c, inside (Data.cd_lat c) (Data.cd_lon c)) customers_data.
Proof.
  intros Hcs Hdlat Hdlon r inside. unfold inside, r, Env.real_init. simpl.
  set (lats := (Data.cd_lat <$> customers_data) ++ [Data.d_lat depot_data]).
  set (lons := (Data.cd_lon <$> customers_data) ++ [Data.d_lon depot_data]).
  assert (Hlats : Forall (λ y, number y) lats).
  { apply Forall_app. split; [|by constructor]. apply Forall_fmap.
    eapply Forall_impl; [exact Hcs|]. by intros c [? _]. }
  assert (Hlons : Forall (λ y, number y) lons).
  { apply Forall_app. split; [|by constructor]. apply Forall_fmap.
    eapply Forall_impl; [exact Hcs|]. by intros c [_ ?]. }
  pose proof (min_max_bound lats (Data.d_lat depot_data)
                ltac:(unfold lats; by destruct (Data.cd_lat <$> customers_data)) Hlats) as Hla.
  pose proof (min_max_bound lons (Data.d_lon depot_data)
                ltac:(unfold lons; by destruct (Data.cd_lon <$> customers_data)) Hlons) as Hlo.
  apply Forall_app in Hla as [Hla1 [Hla2 _]%Forall_cons].
  apply Forall_app in Hlo as [Hlo1 [Hlo2 _]%Forall_cons].
  split; [tauto|].
  apply Forall_fmap in Hla1, Hlo1. apply Forall_forall. intros c Hc.
  rewrite Forall_forall in Hla1, Hlo1.
  specialize (Hla1 c Hc). specialize (Hlo1 c Hc). simpl in Hla1, Hlo1. tauto.
Qed.

End BoundingBox.

(** ** The agent *)
Section AgentFacts.

Variable Net : Type.
Variable Opt : Type.
Variable rng : Type.
Variable forward_train : Net → rng → list (list float) → list (list float) * rng.
Variable forward_eval : Net → list (list float) → list (list float).
Variable smooth_l1_loss : list float → list float → float.
Variable optimizer_step : (Net → float) → Net → Opt → Net * Opt.
Variable scheduler_step : Opt → Opt.
Variable random_random : rng → float * rng.
Variable random_randrange : Z → rng → option (Z * rng).
Variable random_sample : list Agent.Transition → Z → rng → option (list Agent.Transition * rng).
Variable np_choice : list Z → rng → option (Z * rng).

#[local] Abbreviation select_action :=
  (Agent.select_action Net Opt rng forward_train random_random random_randrange np_choice).
#[local] Abbreviation train_step :=
  (Agent.train_step Net Opt rng forward_train forward_eval smooth_l1_loss optimizer_step
     random_sample).
#[local] Abbreviation store_transition := (@Agent.store_transition Net Opt).
#[local] Abbreviation end_episode := (Agent.end_episode Net Opt scheduler_step).

(** *** The replay buffer *)

(** X12. Storing a transition appends it and, when the buffer was full, drops
    the oldest one: a buffer within its capacity stays within it, and
    nothing but the buffer changes. *)
Theorem store_transition_bounded (a : Agent.t Net Opt) (state : list float) (action : Z)
    (reward : float) (next_state : list float) (done : bool)
    (action_mask : option (list float)) :
  Z.of_nat (length (Agent.memory a)) ≤ Agent.memory_size a →
  let tr := Agent.mkTransition state action reward next_state done
              (default [1%float] action_mask) in
  let a' := store_transition a state action reward next_state done action_mask in
  Z.of_nat (length (Agent.memory a')) ≤ Agent.memory_size a
  ∧ (Z.of_nat (length (Agent.memory a)) < Agent.memory_size a →
     Agent.memory a' = Agent.memory a ++ [tr])
  ∧ (Z.of_nat (length (Agent.memory a)) = Agent.memory_size a →
     Agent.memory a' = tail (Agent.memory a ++ [tr]))
  ∧ a' = Agent.mkAgent (Agent.state_dim a) (Agent.action_dim a) (Agent.gamma a)
           (Agent.epsilon a) (Agent.epsilon_end a) (Agent.epsilon_decay a)
           (Agent.batch_size a) (Agent.target_update_freq a) (Agent.double_dqn a)
           (Agent.policy_net a) (Agent.target_net a) (Agent.optimizer a)
           (Agent.memory a') (Agent.memory_size a) (Agent.steps_done a)
           (Agent.episodes_done a) (Agent.losses a) (Agent.rewards a).
Proof.
  intros Hlen tr a'. unfold a', Agent.store_transition. fold tr. cbn [Agent.memory].
  rewrite length_app. simpl.
  destruct (Z.ltb_spec (Agent.memory_size a) (Z.of_nat (length (Agent.memory a) + 1))) as [Hfull|Hroom].
  - repeat split; try done; try lia.
    destruct (Agent.memory a) as [|t0 mem]; simpl in *; [lia|]. rewrite length_app. simpl. lia.
  - rewrite length_app. simpl. repeat split; try done; lia.
Qed.


(** *** The end of an episode *)

(** X13. [end_episode] raises exactly when [target_update_freq] is zero.
    Otherwise it counts the episode, records its reward, leaves epsilon
    either decayed or at its floor and never below the floor, and copies
    the policy parameters into the target network exactly on the episodes
    whose number is a multiple of [target_update_freq]; policy parameters
    and replay buffer stay as they are. *)
Theorem end_episode_spec (a : Agent.t Net Opt) (total_reward : float) :
  (end_episode a total_reward = None ↔ Agent.target_update_freq a = 0)
  ∧ ∀ a', end_episode a total_reward = Some a' →
      Agent.episodes_done a' = Agent.episodes_done a + 1
      ∧ Agent.rewards a' = Agent.rewards a ++ [total_reward]
      ∧ (Agent.epsilon a' = Agent.epsilon_end a
         ∨ Agent.epsilon a' = (Agent.epsilon a * Agent.epsilon_decay a)%float)
      ∧ ((Agent.epsilon_end a =? Agent.epsilon_end a)%float = true →
         (Agent.epsilon_end a <=? Agent.epsilon a')%float = true)
      ∧ Agent.epsilon_end a' = Agent.epsilon_end a
      ∧ Agent.target_net a'
        = (if (Agent.episodes_done a + 1) mod Agent.target_update_freq a =? 0
           then Agent.policy_net a else Agent.target_net a)
      ∧ Agent.policy_net a' = Agent.policy_net a
      ∧ Agent.memory a' = Agent.memory a
      ∧ Agent.steps_done a' = Agent.steps_done a.
Proof.
  unfold Agent.end_episode, Py.mod_.
  destruct (Z.eqb_spec (Agent.target_update_freq a) 0) as [Hz|Hnz]; simpl.
  { split; [done|]. done. }
  split; [split; [done|by intros ?]|].
  intros a' [= <-]. simpl. repeat split; try done.
  - unfold Env.fmax. destruct (_ <? _)%float; auto.
  - intros Hnum. unfold Env.fmax.
    destruct (Agent.epsilon_end a <? _)%float eqn:Hlt; [by apply ltb_leb|by apply leb_number].
Qed.

(** *** The training update *)

(** X14. [train_step] touches neither the target network nor the replay
    buffer, epsilon or the episode counter.  It returns no loss exactly
    when the buffer is short of a batch, and then changes nothing; with a
    loss it counts one step and appends that loss to the history. *)
Theorem train_step_frame (a a' : Agent.t Net Opt) (g g' : rng) (loss : option float) :
  train_step a g = Some (loss, a', g') →
  Agent.target_net a' = Agent.target_net a
  ∧ Agent.memory a' = Agent.memory a
  ∧ Agent.memory_size a' = Agent.memory_size a
  ∧ Agent.epsilon a' = Agent.epsilon a
  ∧ Agent.episodes_done a' = Agent.episodes_done a
  ∧ Agent.rewards a' = Agent.rewards a
  ∧ match loss with
    | None => Z.of_nat (length (Agent.memory a)) < Agent.batch_size a ∧ a' = a ∧ g' = g
    | Some l =>
        Agent.batch_size a ≤ Z.of_nat (length (Agent.memory a))
        ∧ Agent.steps_done a' = Agent.steps_done a + 1
        ∧ Agent.losses a' = Agent.losses a ++ [l]
    end.
Proof.
  unfold Agent.train_step.
  destruct (Z.ltb_spec (Z.of_nat (length (Agent.memory a))) (Agent.batch_size a)) as [Hs|Hs].
  { intros [= <- <- <-]. done. }
  intros H. bind_inv.
  repeat match type of H with
  | context [let '(_, _) := ?p in _] => destruct p
  end.
  bind_inv. done.
Qed.


(** *** The greedy action *)

(** No entry of the row is strictly greater than [x], and [x] is a NaN
    when the row holds one. *)
#[local] Abbreviation maximal x row :=
  (∀ (j : nat) y, (row : list float) !! j = Some y →
     (x <? y)%float = false ∧ (Agent.is_nan y = true → Agent.is_nan x = true)).




End AgentFacts.

(** ** The prioritized replay buffer *)
Section Prioritized.

Variable V : Type.
Variable float_pow : float → float → option V.
Variable np_power : float → float → V.

#[local] Abbreviation push := (PrioritizedReplayBuffer.push V float_pow).
#[local] Abbreviation update_priorities := (PrioritizedReplayBuffer.update_priorities V np_power).

Lemma deque_append_length {A} (maxlen : Z) (d : list A) (x : A) :
  Z.of_nat (length d) ≤ maxlen →
  Z.of_nat (length (PrioritizedReplayBuffer.deque_append maxlen d x))
  = Z.min maxlen (Z.of_nat (length d) + 1).
Proof.
  intros Hlen. unfold PrioritizedReplayBuffer.deque_append. rewrite length_app. simpl.
  destruct (Z.ltb_spec maxlen (Z.of_nat (length d + 1))).
  - destruct d as [|y d]; simpl in *; [lia|]. rewrite length_app. simpl. lia.
  - rewrite length_app. simpl. lia.
Qed.

Lemma setitem_in_range {A} (l : list A) (i : Z) (x : A) :
  is_Some (Py.setitem l i x) ↔ - Z.of_nat (length l) ≤ i < Z.of_nat (length l).
Proof.
  unfold Py.setitem, Py.index.
  destruct (Z.leb_spec 0 i); destruct (Z.ltb_spec i (Z.of_nat (length l)));
    destruct (Z.ltb_spec i 0); destruct (Z.leb_spec (- Z.of_nat (length l)) i);
    simpl; split; try lia; try (by intros [? ?]); eauto.
Qed.

Lemma update_loop (p : float → V) (pairs : list (Z * float)) :
  ∀ ps : list V,
    match foldl (λ acc '(idx, td_error), ps ← acc; Py.setitem ps idx (p td_error))
            (Some ps) pairs with
    | Some ps' =>
        length ps' = length ps
        ∧ Forall (λ '(idx, _), - Z.of_nat (length ps) ≤ idx < Z.of_nat (length ps)) pairs
    | None =>
        ¬ Forall (λ '(idx, _), - Z.of_nat (length ps) ≤ idx < Z.of_nat (length ps)) pairs
    end.
Proof.
  induction pairs as [|[idx td] pairs IH]; intros ps; simpl.
  { split; [done|constructor]. }
  destruct (Py.setitem ps idx (p td)) as [ps1|] eqn:Hset.
  - pose proof (setitem_length _ _ _ _ Hset) as Hlen.
    assert (Hin : - Z.of_nat (length ps) ≤ idx < Z.of_nat (length ps)).
    { apply (setitem_in_range ps idx (p td)). eauto. }
    specialize (IH ps1). rewrite Hlen in IH.
    destruct (foldl _ _ pairs) as [ps'|].
    + destruct IH as [? ?]. split; [done|]. by constructor.
    + intros [_ ?]%Forall_cons. by apply IH.
  - assert (Hnone : ∀ l : list (Z * float),
              foldl (λ acc '(idx, td_error), ps ← acc; Py.setitem ps idx (p td_error))
                (None : option (list V)) l = None).
    { induction l as [|[i t] l IHl]; [done|]. exact IHl. }
    rewrite Hnone. intros [Hin _]%Forall_cons.
    apply (setitem_in_range ps idx (p td)) in Hin as [? Hin]. congruence.
Qed.

(** X16. Buffer and priorities stay in step.  A [push] that returns keeps
    them equally long and within the capacity; [update_priorities] leaves
    the buffer alone and the number of priorities as it is, and raises
    exactly when one of the indices it is to write lies outside the
    priorities. *)
Theorem prioritized_buffer_in_step (b : PrioritizedReplayBuffer.t V) :
  length (PrioritizedReplayBuffer.buffer b) = length (PrioritizedReplayBuffer.priorities b) →
  Z.of_nat (length (PrioritizedReplayBuffer.buffer b)) ≤ PrioritizedReplayBuffer.maxlen b →
  (∀ state action reward next_state done action_mask priority b',
     push b state action reward next_state done action_mask priority = Some b' →
     length (PrioritizedReplayBuffer.buffer b') = length (PrioritizedReplayBuffer.priorities b')
     ∧ Z.of_nat (length (PrioritizedReplayBuffer.buffer b'))
       = Z.min (PrioritizedReplayBuffer.maxlen b)
           (Z.of_nat (length (PrioritizedReplayBuffer.buffer b)) + 1)
     ∧ PrioritizedReplayBuffer.maxlen b' = PrioritizedReplayBuffer.maxlen b)
  ∧ (∀ indices td_errors,
       let n := Z.of_nat (length (PrioritizedReplayBuffer.priorities b)) in
       let written := (zip indices td_errors).*1 in
       match update_priorities b indices td_errors with
       | Some b' =>
           PrioritizedReplayBuffer.buffer b' = PrioritizedReplayBuffer.buffer b
           ∧ length (PrioritizedReplayBuffer.priorities b')
             = length (PrioritizedReplayBuffer.priorities b)
           ∧ Forall (λ idx, - n ≤ idx < n) written
       | None => ¬ Forall (λ idx, - n ≤ idx < n) written
       end).
Proof.
  intros Heq Hlen. split.
  - intros state action reward next_state done action_mask priority b'.
    unfold PrioritizedReplayBuffer.push. destruct (float_pow _ _) as [p|]; simpl; [|done].
    intros [= <-]. simpl.
    pose proof (deque_append_length (PrioritizedReplayBuffer.maxlen b)
                  (PrioritizedReplayBuffer.buffer b)
                  (Agent.mkTransition state action reward next_state done
                     (default [1%float] action_mask)) Hlen) as H1.
    pose proof (deque_append_length (PrioritizedReplayBuffer.maxlen b)
                  (PrioritizedReplayBuffer.priorities b) p ltac:(lia)) as H2.
    split; [lia|]. split; [done|done].
  - intros indices td_errors n written. unfold PrioritizedReplayBuffer.update_priorities.
    pose proof (update_loop (λ td, np_power (abs td + 1e-6)%float
                                     (PrioritizedReplayBuffer.alpha b))
                  (zip indices td_errors) (PrioritizedReplayBuffer.priorities b)) as H.
    assert (Hw : Forall (λ '(idx, _), - n ≤ idx < n) (zip indices td_errors)
                 ↔ Forall (λ idx, - n ≤ idx < n) written).
    { unfold written. rewrite Forall_fmap. apply Forall_proper; [|done]. by intros [? ?]. }
    fold n in H. destruct (foldl _ _ _) as [ps|]; simpl.
    + destruct H as [? ?]. split; [done|]. split; [done|]. by apply Hw.
    + by rewrite <- Hw.
Qed.

End Prioritized.

(** ** A training episode *)
Section TrainingEpisode.

Variable pow : float → float → float.
Variable Net : Type.
Variable Opt : Type.
Variable rng : Type.
Variable forward_train : Net → rng → list (list float) → list (list float) * rng.
Variable forward_eval : Net → list (list float) → list (list float).
Variable smooth_l1_loss : list float → list float → float.
Variable optimizer_step : (Net → float) → Net → Opt → Net * Opt.
Variable scheduler_step : Opt → Opt.
Variable random_random : rng → float * rng.
Variable random_randrange : Z → rng → option (Z * rng).
Variable random_sample : list Agent.Transition → Z → rng → option (list Agent.Transition * rng).
Variable np_choice : list Z → rng → option (Z * rng).
Variable np_seed : Z → rng.
Variable np_uniform : float → float → rng → float * rng.
Variable np_randint : Z → Z → rng → option (Z * rng).

#[local] Abbreviation train_step :=
  (Agent.train_step Net Opt rng forward_train forward_eval smooth_l1_loss optimizer_step
     random_sample).
#[local] Abbreviation episode_steps :=
  (Training.episode_steps pow Net Opt rng forward_train forward_eval smooth_l1_loss
     optimizer_step random_random random_randrange random_sample np_choice).
#[local] Abbreviation _run_episode :=
  (Training._run_episode pow Net Opt rng forward_train forward_eval smooth_l1_loss
     optimizer_step scheduler_step random_random random_randrange random_sample np_choice
     np_seed np_uniform np_randint).

(** What the loop leaves of the agent as it is: the capacity of the
    buffer, the episode counter and the recorded rewards. *)
#[local] Abbreviation same_episode a a' :=
  (Agent.memory_size a' = Agent.memory_size a
   ∧ Agent.episodes_done a' = Agent.episodes_done a
   ∧ Agent.rewards a' = Agent.rewards a).

Lemma train_step_buffer (a a' : Agent.t Net Opt) (g g' : rng) (loss : option float) :
  train_step a g = Some (loss, a', g') →
  Agent.memory a' = Agent.memory a ∧ same_episode a a'.
Proof.
  unfold Agent.train_step.
  destruct (Z.ltb_spec (Z.of_nat (length (Agent.memory a))) (Agent.batch_size a)) as [Hs|Hs].
  { intros [= <- <- <-]. done. }
  intros H. bind_inv.
  repeat match type of H with
  | context [let '(_, _) := ?p in _] => destruct p
  end.
  bind_inv. done.
Qed.

Lemma store_transition_length (a : Agent.t Net Opt) (state : list float) (action : Z)
    (reward : float) (next_state : list float) (done : bool)
    (action_mask : option (list float)) :
  Z.of_nat (length (Agent.memory a)) ≤ Agent.memory_size a →
  Z.of_nat (length (Agent.memory
                      (Agent.store_transition Net Opt a state action reward next_state done
                         action_mask)))
  = Z.min (Agent.memory_size a) (Z.of_nat (length (Agent.memory a)) + 1).
Proof.
  intros Hlen. unfold Agent.store_transition. cbn [Agent.memory].
  rewrite length_app. simpl.
  destruct (Z.ltb_spec (Agent.memory_size a) (Z.of_nat (length (Agent.memory a) + 1))).
  - destruct (Agent.memory a) as [|t0 mem]; simpl in *; [lia|]. rewrite length_app. simpl. lia.
  - rewrite length_app. simpl. lia.
Qed.

(** The rounds given to the loop are enough. *)
Lemma episode_steps_enough (rounds : nat) :
  ∀ (agent : Agent.t Net Opt) e state total g,
    (Z.to_nat (Env.max_steps e - Env.steps e) < rounds)%nat →
    is_Some (episode_steps rounds agent e state total g).
Proof.
  induction rounds as [|k IH]; intros agent e state total g Hk; [lia|]. simpl.
  destruct (Env.get_action_mask e) as [mask|]; simpl; [|eauto].
  destruct (Agent.select_action _ _ _ _ _ _ _ _ _ _ _ _) as [[action g1]|]; simpl; [|eauto].
  destruct (Env.step pow e action) as [[e' r]|] eqn:Hstep; simpl; [|eauto].
  destruct (train_step _ g1) as [[[l agent1] g2]|]; simpl; [|eauto].
  destruct (step_counters _ _ _ _ _ Hstep) as (Hs & Hm & Ht).
  destruct (Env.terminated r || Env.truncated r) eqn:Hdone; [eauto|].
  apply IH. apply orb_false_elim in Hdone as [_ Htr]. rewrite Ht in Htr.
  apply Z.leb_gt in Htr. lia.
Qed.

(** What the loop does to the buffer and to the counters: one transition
    is stored per step, the oldest ones giving way once the buffer is
    full. *)
Lemma episode_steps_spec (rounds : nat) :
  ∀ (agent agent' : Agent.t Net Opt) e e' state total total' g g',
    episode_steps rounds agent e state total g = Some (Some (agent', e', total', g')) →
    Z.of_nat (length (Agent.memory agent)) ≤ Agent.memory_size agent →
    same_episode agent agent'
    ∧ Env.steps e < Env.steps e'
    ∧ Env.steps e' ≤ Z.max (Env.steps e + 1) (Env.max_steps e)
    ∧ Z.of_nat (length (Agent.memory agent'))
      = Z.min (Agent.memory_size agent)
          (Z.of_nat (length (Agent.memory agent)) + (Env.steps e' - Env.steps e)).
Proof.
  induction rounds as [|k IH]; intros agent agent' e e' state total total' g g' Hrun Hlen;
    [done|].
  simpl in Hrun.
  destruct (Env.get_action_mask e) as [mask|]; simpl in Hrun; [|done].
  destruct (Agent.select_action _ _ _ _ _ _ _ _ _ _ _ _) as [[action g1]|];
    simpl in Hrun; [|done].
  destruct (Env.step pow e action) as [[e1 r]|] eqn:Hstep; simpl in Hrun; [|done].
  destruct (train_step _ g1) as [[[l agent1] g2]|] eqn:Htrain; simpl in Hrun; [|done].
  destruct (step_counters _ _ _ _ _ Hstep) as (Hs & Hm & Ht).
  apply train_step_buffer in Htrain as (Hmem & Hsize & Hep & Hrw).
  pose proof (store_transition_length agent state action (Env.reward r) (Env.observation r)
                (Env.terminated r || Env.truncated r) (Some mask) Hlen) as Hstore.
  rewrite <- Hmem in Hstore. simpl in Hsize, Hep, Hrw.
  destruct (Env.terminated r || Env.truncated r) eqn:Hdone.
  - injection Hrun as <- <- <- <-. repeat split; try done; lia.
  - apply orb_false_elim in Hdone as [_ Htr]. rewrite Ht in Htr. apply Z.leb_gt in Htr.
    apply IH in Hrun as ((Hsize' & Hep' & Hrw') & Hlt & Hle & Hlen'); [|lia].
    repeat split; try congruence; lia.
Qed.

(** X17. A training episode always comes to an end: [_run_episode] returns or
    raises, whatever the policy and the random generators answer. *)
Theorem run_episode_ends (agent : Agent.t Net Opt) (e : Env.t) (g : rng) :
  is_Some (_run_episode agent e g).
Proof.
  unfold Training._run_episode.
  destruct (Env.reset _ _ _ _ _ _ _ _) as [[[[e1 state] i] g1]|]; [|eauto].
  destruct (episode_steps_enough (Service.rollout_rounds e1) agent e1 state (Py.Int 0) g1)
    as [run ->]; [unfold Service.rollout_rounds; lia|].
  simpl. eauto.
Qed.

(** X18. A training episode that returns has made between one step and the
    step budget; it has stored one transition per step in the replay
    buffer, which stays within its capacity; it counts as one episode
    and its summed reward is both returned and recorded. *)
Theorem run_episode_spec (agent agent' : Agent.t Net Opt) (e e' : Env.t) (g g' : rng)
    (total_reward : Py.number) :
  _run_episode agent e g = Some (Some (agent', e', total_reward, g')) →
  Z.of_nat (length (Agent.memory agent)) ≤ Agent.memory_size agent →
  1 ≤ Env.steps e' ≤ Z.max 1 (Env.max_steps e)
  ∧ Z.of_nat (length (Agent.memory agent'))
    = Z.min (Agent.memory_size agent) (Z.of_nat (length (Agent.memory agent)) + Env.steps e')
  ∧ Agent.memory_size agent' = Agent.memory_size agent
  ∧ Agent.episodes_done agent' = Agent.episodes_done agent + 1
  ∧ Agent.rewards agent' = Agent.rewards agent ++ [Py.to_float total_reward].
Proof.
  unfold Training._run_episode. intros Hrun Hlen.
  destruct (Env.reset _ _ _ _ _ _ _ _) as [[[[e1 state] i] g1]|] eqn:Hreset; [|done].
  destruct (episode_steps _ _ _ _ _ _) as [[[[[a1 e2] total] g2]|]|] eqn:Hloop;
    cbn [mbind option_bind] in Hrun; [|done|done].
  injection Hrun as Hrun.
  destruct (Agent.end_episode _ _ _ _ _) as [a2|] eqn:Hend; simpl in Hrun; [|done].
  injection Hrun as <- <- <- <-.
  apply episode_steps_spec in Hloop as ((Hsize & Hep & Hrw) & Hlt & Hle & Hmem); [|done].
  assert (Hs0 : Env.steps e1 = 0 ∧ Env.max_steps e1 = Env.max_steps e).
  { unfold Env.reset in Hreset. bind_inv. done. }
  destruct Hs0 as [Hs0 Hmax]. rewrite Hs0, Hmax in *.
  unfold Agent.end_episode in Hend.
  destruct (Py.mod_ _ _); simpl in Hend; [|done]. injection Hend as <-. simpl.
  rewrite Hsize, Hep, Hrw, Hmem. repeat split; try done; lia.
Qed.

End TrainingEpisode.

(** ** The constructive heuristic: who is served, and who is left *)
Section GreedyAccount.

Variable pow : float → float → float.
Variable sin : float → float.
Variable cos : float → float.
Variable atan2 : float → float → float.
Variable round2 : float → float.
Variable osrm : list Service.Coord → option (list Service.Coord * float * float).

#[local] Abbreviation nearest_feasible := (Service.nearest_feasible pow sin cos atan2).
#[local] Abbreviation fill := (Service.fill pow sin cos atan2).
#[local] Abbreviation route_vehicle := (Service.route_vehicle pow sin cos atan2 round2 osrm).
#[local] Abbreviation optimize_greedy := (Service.optimize_greedy pow sin cos atan2 round2 osrm).

(** The stop [p] is customer number [j] of the instance. *)
#[local] Abbreviation stop_of customers p j :=
  (∃ c, (customers : list Data.CustomerData) !! (j : nat) = Some c
        ∧ Service.customer_id p = Data.cd_id c
        ∧ Service.location p = Service.mkCoord (Data.cd_lat c) (Data.cd_lon c)
        ∧ Service.demand p = Data.demand_of c).

Lemma remove_first_perm (b : nat) (l : list nat) :
  b ∈ l → l ≡ₚ b :: Service.remove_first b l.
Proof.
  induction l as [|y l IH]; [by intros ?%elem_of_nil|].
  intros Hin. simpl. destruct (decide (y = b)) as [->|Hne]; [done|].
  apply elem_of_cons in Hin as [->|Hin]; [done|].
  rewrite (IH Hin) at 1. apply Permutation_swap.
Qed.

(** The stops a filling adds are customers taken off the unassigned
    list, in the order they were taken. *)
Lemma fill_account (customers : list Data.CustomerData) (capacity : Z) (rounds : nat) :
  ∀ f f',
    (length (Service.unassigned f) ≤ rounds)%nat →
    fill rounds customers capacity f = Some f' →
    ∃ new js,
      Service.route_points f' = Service.route_points f ++ new
      ∧ Service.unassigned f ≡ₚ js ++ Service.unassigned f'
      ∧ Forall2 (λ p j, stop_of customers p j) new js.
Proof.
  induction rounds as [|k IH]; intros f f' Hlen Hrun; simpl in Hrun.
  { injection Hrun as <-. exists [], []. by rewrite app_nil_r. }
  destruct (Service.unassigned f) as [|u us] eqn:Hun.
  { injection Hrun as <-. exists [], []. by rewrite app_nil_r, Hun. }
  rewrite <- Hun in *.
  destruct (nearest_feasible customers f capacity None infinity (Service.unassigned f))
    as [[best bd]|] eqn:Hscan; simpl in Hrun; [|done].
  destruct best as [b|]; [|injection Hrun as <-; exists [], []; by rewrite app_nil_r].
  destruct (customers !! b) as [c|] eqn:Hc; simpl in Hrun; [|done].
  apply nearest_feasible_spec in Hscan
    as [([=] & _) | (b' & c' & pre & post & [= <-] & Hsplit & _)].
  assert (Hin : b ∈ Service.unassigned f).
  { rewrite Hsplit. apply elem_of_app. right. apply elem_of_cons. by left. }
  apply IH in Hrun as (new & js & Hroute & Hperm & Hstops).
  2:{ simpl. pose proof (remove_first_length _ _ Hin). lia. }
  simpl in Hroute, Hperm.
  eexists (_ :: new), (b :: js). split; [by rewrite Hroute, <- app_assoc|]. split.
  - rewrite (remove_first_perm b _ Hin). simpl. by rewrite Hperm.
  - constructor; [|done]. by exists c.
Qed.


(** None of the customers in [un] fits on top of [load]. *)
#[local] Abbreviation left_behind customers capacity load un :=
  (∀ j : nat, j ∈ (un : list nat) →
     ∃ c, (customers : list Data.CustomerData) !! j = Some c
          ∧ capacity < load + Data.demand_of c).

(** What one vehicle does to the unassigned list, and what it leaves. *)
#[local] Abbreviation outcome_of depot customers vehicle o un :=
  (match o with
   | Some route =>
       Service.vehicle_id route = Data.vd_id vehicle
       ∧ Service.points route ≠ []
       ∧ (Service.proper_legs pow sin cos atan2 (Service.places depot customers) = true →
          left_behind customers (default 100 (Data.vd_capacity vehicle))
            (Service.total_demand route) un)
   | None =>
       Service.proper_legs pow sin cos atan2 (Service.places depot customers) = true →
       left_behind customers (default 100 (Data.vd_capacity vehicle)) 0 un
   end).

Lemma route_vehicle_account (depot : Data.Depot) (customers : list Data.CustomerData)
    (use_real_roads : bool) (vehicle : Data.VehicleData)
    (routes routes' : list Service.Route) (un un' : list nat) :
  route_vehicle depot customers use_real_roads vehicle (routes, un) = Some (routes', un') →
  ∃ o js,
    routes' = routes ++ option_list o
    ∧ un ≡ₚ js ++ un'
    ∧ Forall2 (λ p j, stop_of customers p j) (concat (Service.points <$> option_list o)) js
    ∧ outcome_of depot customers vehicle o un'.
Proof.
  intros (f' & Hfill & -> & Hroute)%route_vehicle_spec.
  destruct (fill_account _ _ _ _ _ (Nat.le_refl _) Hfill) as (new & js & Hpts & Hperm & Hstops).
  simpl in Hpts, Hperm.
  apply fill_spec in Hfill
    as (new' & Hpts' & Hload & _ & _ & _ & Hstop & Hnew & Hpos); [|done].
  simpl in Hpts', Hload, Hnew, Hpos. rewrite Hpts in Hpts'. subst new'.
  assert (Hplaces : ∀ c, c ∈ customers →
            Service.mkCoord (Data.cd_lat c) (Data.cd_lon c) ∈ Service.places depot customers).
  { intros c Hc. unfold Service.places. apply elem_of_cons. right.
    by apply (list_elem_of_fmap_2 (λ c, Service.mkCoord (Data.cd_lat c) (Data.cd_lon c))). }
  assert (Hhere : Service.mkCoord (Service.current_lat f') (Service.current_lon f')
                  ∈ Service.places depot customers).
  { destruct Hpos as [[_ ->] | (p & Hlast & <-)].
    - apply elem_of_cons. by left.
    - apply last_Some in Hlast as [new' ->].
      apply Forall_app in Hnew as [_ Hp]. apply Forall_singleton in Hp
        as (j & c & _ & Hc & _ & -> & _).
      apply Hplaces. by eapply list_elem_of_lookup_2. }
  assert (Hleft : Service.proper_legs pow sin cos atan2 (Service.places depot customers) = true →
            left_behind customers (default 100 (Data.vd_capacity vehicle))
              (Service.current_load f') (Service.unassigned f')).
  { intros Hproper j Hj. destruct Hstop as [Hnone | [d Hscan]].
    - rewrite Hnone in Hj. by apply elem_of_nil in Hj.
    - by eapply fill_exhausts. }
  destruct Hroute as [[Hempty ->] | [Hne (route & -> & Hid & Hrp & Hdem & _)]].
  - rewrite Hempty in Hpts. subst new. apply Forall2_nil_inv_l in Hstops as ->.
    exists None, []. simpl. rewrite app_nil_r. repeat split; try done.
    intros Hproper j Hj. destruct (Hleft Hproper j Hj) as (c & Hc & Hover).
    exists c. split; [done|]. rewrite Hload in Hover. exact Hover.
  - exists (Some route), js. simpl. rewrite app_nil_r, Hrp, Hpts.
    repeat split; try done.
    + by rewrite <- Hpts.
    + by rewrite Hdem.
Qed.

(** The loop over the vehicles, vehicle by vehicle. *)
Lemma vehicles_loop_account (depot : Data.Depot) (customers : list Data.CustomerData)
    (use_real_roads : bool) (vehicles : list Data.VehicleData) :
  ∀ routes un routes' un',
    foldl (λ acc vehicle, acc ≫= route_vehicle depot customers use_real_roads vehicle)
      (Some (routes, un)) vehicles = Some (routes', un') →
    ∃ outcomes js,
      routes' = routes ++ omap id outcomes
      ∧ un ≡ₚ js ++ un'
      ∧ Forall2 (λ p j, stop_of customers p j)
          (concat (Service.points <$> omap id outcomes)) js
      ∧ Forall2 (λ vehicle o, outcome_of depot customers vehicle o un') vehicles outcomes.
Proof.
  induction vehicles as [|v vs IH]; intros routes un routes' un' Hrun.
  { injection Hrun as <- <-. exists [], []. rewrite app_nil_r. repeat split; done || constructor. }
  rewrite foldl_bind_cons in Hrun.
  destruct (route_vehicle depot customers use_real_roads v (routes, un))
    as [[routes1 un1]|] eqn:Hv; [|by rewrite foldl_bind_None in Hrun].
  apply IH in Hrun as (outcomes & js2 & -> & Hperm2 & Hstops2 & Hall).
  apply route_vehicle_account in Hv as (o & js1 & -> & Hperm1 & Hstops1 & Hout).
  exists (o :: outcomes), (js1 ++ js2).
  assert (Hsub : ∀ j, j ∈ un' → j ∈ un1).
  { intros j Hj. rewrite Hperm2. apply elem_of_app. by right. }
  split; [|split; [|split]].
  - destruct o; simpl; by rewrite <- app_assoc.
  - rewrite Hperm1, Hperm2. by rewrite app_assoc.
  - replace (omap id (o :: outcomes)) with (option_list o ++ omap id outcomes)
      by (by destruct o).
    rewrite fmap_app, concat_app. by apply Forall2_app.
  - constructor; [|done]. destruct o as [route|].
    + destruct Hout as (Hid & Hne & Hleft). repeat split; try done.
      intros Hproper j Hj. apply Hleft; auto.
    + intros Hproper j Hj. apply Hout; auto.
Qed.

(** X19. The constructive heuristic serves no customer twice: the stops of
    its routes, taken route after route, are customers of the instance
    with pairwise different positions in the customer list; their number
    is reported as served and the rest of the customers as unserved. *)
Theorem greedy_serves_once (depot : Data.Depot) (customers : list Data.CustomerData)
    (vehicles : list Data.VehicleData) (use_real_roads : bool) (r : Service.Result) :
  optimize_greedy depot customers vehicles use_real_roads = Some r →
  ∃ js : list nat,
    NoDup js
    ∧ Forall2 (λ p j, ∃ c, customers !! j = Some c
                 ∧ Service.customer_id p = Data.cd_id c
                 ∧ Service.location p = Service.mkCoord (Data.cd_lat c) (Data.cd_lon c)
                 ∧ Service.demand p = Data.demand_of c)
        (concat (Service.points <$> Service.routes r)) js
    ∧ Service.customers_served r = Z.of_nat (length js)
    ∧ Service.customers_unserved r = Z.of_nat (length customers) - Z.of_nat (length js).
Proof.
  unfold Service.optimize_greedy. intros Hrun.
  destruct (foldl _ _ vehicles) as [[routes un]|] eqn:Hloop; simpl in Hrun; [|done].
  destruct (Py.int _) as [minutes|]; simpl in Hrun; [|done].
  injection Hrun as <-. simpl.
  apply vehicles_loop_account in Hloop as (outcomes & js & -> & Hperm & Hstops & _).
  simpl. exists js.
  assert (Hnd : NoDup (js ++ un)) by (rewrite <- Hperm; apply NoDup_seq).
  apply NoDup_app in Hnd as (Hnd & _ & _).
  pose proof (Permutation_length Hperm) as Hlen. rewrite length_seq, length_app in Hlen.
  rewrite served_count, (Forall2_length _ _ _ Hstops).
  repeat split; try done. lia.
Qed.

(** X20. With proper legs the heuristic leaves a customer unserved only when
    it fits on no vehicle: for every vehicle, in the order of the input,
    either it has a route, and the customer's demand on top of the
    route's does not fit its capacity, or it has none, and the demand
    alone does not fit. *)
Theorem greedy_unserved_fit_nowhere (depot : Data.Depot) (customers : list Data.CustomerData)
    (vehicles : list Data.VehicleData) (use_real_roads : bool) (r : Service.Result) :
  Service.proper_legs pow sin cos atan2 (Service.places depot customers) = true →
  optimize_greedy depot customers vehicles use_real_roads = Some r →
  ∃ (outcomes : list (option Service.Route)) (js : list nat),
    Service.routes r = omap id outcomes
    ∧ Forall2 (λ p j, ∃ c, customers !! j = Some c
                 ∧ Service.customer_id p = Data.cd_id c
                 ∧ Service.location p = Service.mkCoord (Data.cd_lat c) (Data.cd_lon c)
                 ∧ Service.demand p = Data.demand_of c)
        (concat (Service.points <$> Service.routes r)) js
    ∧ Forall2 (λ vehicle o,
        ∀ (j : nat) c, customers !! j = Some c → j ∉ js →
          match o with
          | Some route =>
              Service.vehicle_id route = Data.vd_id vehicle
              ∧ default 100 (Data.vd_capacity vehicle)
                < Service.total_demand route + Data.demand_of c
          | None => default 100 (Data.vd_capacity vehicle) < Data.demand_of c
          end) vehicles outcomes.
Proof.
  unfold Service.optimize_greedy. intros Hproper Hrun.
  destruct (foldl _ _ vehicles) as [[routes un]|] eqn:Hloop; simpl in Hrun; [|done].
  destruct (Py.int _) as [minutes|]; simpl in Hrun; [|done].
  injection Hrun as <-. simpl.
  apply vehicles_loop_account in Hloop as (outcomes & js & -> & Hperm & Hstops & Hall).
  simpl. exists outcomes, js. split; [done|]. split; [done|].
  eapply Forall2_impl; [exact Hall|]. intros vehicle o Hout j c Hc Hj.
  assert (Hun : j ∈ un).
  { assert (Hin : j ∈ seq 0 (length customers)).
    { apply elem_of_seq. apply lookup_lt_Some in Hc. lia. }
    rewrite Hperm in Hin. apply elem_of_app in Hin as [?|?]; done. }
  destruct o as [route|].
  - destruct Hout as (Hid & _ & Hleft). split; [done|].
    destruct (Hleft Hproper j Hun) as (c' & Hc' & Hover). congruence.
  - destruct (Hout Hproper j Hun) as (c' & Hc' & Hover). rewrite Hc in Hc'.
    injection Hc' as <-. lia.
Qed.

End GreedyAccount.

(** ** The heuristic when the road router does not answer *)
Section RouterDown.

Variable pow : float → float → float.
Variable sin : float → float.
Variable cos : float → float.
Variable atan2 : float → float → float.
Variable round2 : float → float.
Variable osrm : list Service.Coord → option (list Service.Coord * float * float).

#[local] Abbreviation haversine := (Service._haversine_distance pow sin cos atan2).
#[local] Abbreviation distance_from := (Service._calculate_total_distance_from pow sin cos atan2).
#[local] Abbreviation fill := (Service.fill pow sin cos atan2).
#[local] Abbreviation route_vehicle := (Service.route_vehicle pow sin cos atan2 round2 osrm).
#[local] Abbreviation optimize_greedy := (Service.optimize_greedy pow sin cos atan2 round2 osrm).

(** The distance a filling has summed is the length of the polyline from
    the depot over its stops, as [_calculate_total_distance] sums it. *)
#[local] Abbreviation measured depot f :=
  (∀ tail,
     distance_from (Py.Int 0)
       ((Service.depot_coord depot :: (Service.location <$> Service.route_points f)) ++ tail)
     = distance_from (Service.total_distance f)
         (Service.mkCoord (Service.current_lat f) (Service.current_lon f) :: tail)).

Lemma distance_from_cons (total : Py.number) (p q : Service.Coord) (rest : list Service.Coord) :
  distance_from total (p :: q :: rest)
  = d ← haversine (Service.lat p) (Service.lon p) (Service.lat q) (Service.lon q);
    distance_from (Py.add total (Py.Flt d)) (q :: rest).
Proof. done. Qed.

Lemma fill_measured (depot : Data.Depot) (customers : list Data.CustomerData) (capacity : Z)
    (rounds : nat) :
  ∀ f f', fill rounds customers capacity f = Some f' → measured depot f → measured depot f'.
Proof.
  induction rounds as [|k IH]; intros f f' Hrun Hinv; simpl in Hrun.
  { by injection Hrun as <-. }
  destruct (Service.unassigned f) as [|u us] eqn:Hun; [by injection Hrun as <-|].
  rewrite <- Hun in *.
  destruct (Service.nearest_feasible _ _ _ _ customers f capacity None infinity
              (Service.unassigned f)) as [[best bd]|] eqn:Hscan; simpl in Hrun; [|done].
  destruct best as [b|]; [|by injection Hrun as <-].
  destruct (customers !! b) as [c|] eqn:Hc; simpl in Hrun; [|done].
  apply nearest_feasible_spec in Hscan
    as [([=] & _) | (b' & c' & pre & post & [= <-] & _ & Hc' & _ & Hleg & _)].
  rewrite Hc in Hc'. injection Hc' as <-.
  eapply IH; [exact Hrun|]. intros tail. unfold Service.assign.
  cbn [Service.route_points Service.total_distance Service.current_lat Service.current_lon].
  rewrite fmap_app, list_fmap_singleton. cbn [Service.location].
  rewrite app_comm_cons, <- app_assoc, Hinv. cbn [app].
  rewrite distance_from_cons. cbn [Service.lat Service.lon]. by rewrite Hleg.
Qed.


(** The router answers nothing, whatever it is asked. *)
Hypothesis router_down : ∀ pts, osrm pts = None.

(** A route computed with real roads asked for against the one computed
    without: all the same but the minutes, which are five per point of
    the polyline. *)
#[local] Abbreviation same_but_minutes a b :=
  (Service.vehicle_id a = Service.vehicle_id b
   ∧ Service.points a = Service.points b
   ∧ Service.total_distance_km a = Service.total_distance_km b
   ∧ Service.total_demand a = Service.total_demand b
   ∧ Service.geometry a = Service.geometry b
   ∧ Service.total_time_minutes a = 5 * (Z.of_nat (length (Service.points a)) + 2)).

Lemma route_vehicle_router_down (depot : Data.Depot) (customers : list Data.CustomerData)
    (vehicle : Data.VehicleData) (routes1 routes2 routes2' : list Service.Route)
    (un un' : list nat) :
  route_vehicle depot customers false vehicle (routes2, un) = Some (routes2', un') →
  Forall2 (λ a b, same_but_minutes a b) routes1 routes2 →
  ∃ routes1',
    route_vehicle depot customers true vehicle (routes1, un) = Some (routes1', un')
    ∧ Forall2 (λ a b, same_but_minutes a b) routes1' routes2'.
Proof.
  unfold Service.route_vehicle. intros Hrun Hsame.
  destruct (fill _ _ _ _) as [f'|] eqn:Hfill; simpl in Hrun |- *; [|done].
  pose proof (fill_measured depot _ _ _ _ _ Hfill (λ tail, eq_refl)) as Hdist.
  destruct (Service.route_points f') as [|p ps] eqn:Hpts.
  { injection Hrun as <- <-. eauto. }
  rewrite <- Hpts in *.
  destruct (haversine _ _ _ _) as [back|] eqn:Hback; simpl in Hrun |- *; [|done].
  destruct (Py.int _) as [minutes|]; simpl in Hrun; [|done].
  injection Hrun as <- <-.
  unfold Service._build_geometry_with_roads, Service._get_road_geometry.
  assert ((length ([Service.depot_coord depot]
                     ++ (Service.location <$> Service.route_points f')
                     ++ [Service.depot_coord depot]) <? 2)%nat = false) as ->.
  { apply Nat.ltb_ge. rewrite !length_app. simpl. lia. }
  rewrite router_down. unfold Service._calculate_total_distance.
  change ([Service.depot_coord depot] ++ (Service.location <$> Service.route_points f')
            ++ [Service.depot_coord depot])
    with ((Service.depot_coord depot :: (Service.location <$> Service.route_points f'))
            ++ [Service.depot_coord depot]).
  rewrite Hdist, distance_from_cons. cbn [Service.lat Service.lon Service.depot_coord].
  rewrite Hback. simpl. eexists. split; [done|].
  apply Forall2_app; [done|]. constructor; [|constructor]. simpl.
  repeat split; try done. rewrite !length_app, length_fmap. simpl. lia.
Qed.

Lemma vehicles_loop_router_down (depot : Data.Depot) (customers : list Data.CustomerData)
    (vehicles : list Data.VehicleData) :
  ∀ routes1 routes2 un routes2' un',
    foldl (λ acc vehicle, acc ≫= route_vehicle depot customers false vehicle)
      (Some (routes2, un)) vehicles = Some (routes2', un') →
    Forall2 (λ a b, same_but_minutes a b) routes1 routes2 →
    ∃ routes1',
      foldl (λ acc vehicle, acc ≫= route_vehicle depot customers true vehicle)
        (Some (routes1, un)) vehicles = Some (routes1', un')
      ∧ Forall2 (λ a b, same_but_minutes a b) routes1' routes2'.
Proof.
  induction vehicles as [|v vs IH]; intros routes1 routes2 un routes2' un' Hrun Hsame.
  { injection Hrun as <- <-. eauto. }
  rewrite foldl_bind_cons in Hrun. rewrite foldl_bind_cons.
  destruct (route_vehicle depot customers false v (routes2, un))
    as [[ra ua]|] eqn:Ha; [|by rewrite foldl_bind_None in Hrun].
  destruct (route_vehicle_router_down _ _ _ _ _ _ _ _ Ha Hsame) as (rb & -> & Hsame').
  by eapply IH.
Qed.

(** X21. With no answer from the road router, a run that asks for real roads
    returns whenever the run without them does, and returns the same
    result (the same stops, geometry, distances and totals) except that
    every route's minutes are five per point of its polyline. *)
Theorem greedy_router_down (depot : Data.Depot) (customers : list Data.CustomerData)
    (vehicles : list Data.VehicleData) (r2 : Service.Result) :
  optimize_greedy depot customers vehicles false = Some r2 →
  ∃ r1,
    optimize_greedy depot customers vehicles true = Some r1
    ∧ Forall2 (λ a b,
        Service.vehicle_id a = Service.vehicle_id b
        ∧ Service.points a = Service.points b
        ∧ Service.total_distance_km a = Service.total_distance_km b
        ∧ Service.total_demand a = Service.total_demand b
        ∧ Service.geometry a = Service.geometry b
        ∧ Service.total_time_minutes a = 5 * (Z.of_nat (length (Service.points a)) + 2))
        (Service.routes r1) (Service.routes r2)
    ∧ Service.r_total_distance_km r1 = Service.r_total_distance_km r2
    ∧ Service.r_total_time_minutes r1 = Service.r_total_time_minutes r2
    ∧ Service.customers_served r1 = Service.customers_served r2
    ∧ Service.customers_unserved r1 = Service.customers_unserved r2.
Proof.
  unfold Service.optimize_greedy. intros Hrun.
  destruct (foldl _ _ vehicles) as [[routes2 un]|] eqn:Hloop; simpl in Hrun; [|done].
  destruct (vehicles_loop_router_down _ _ _ [] _ _ _ _ Hloop) as (routes1 & -> & Hsame);
    [constructor|].
  simpl.
  assert (Hkm : Service.total_distance_km <$> routes1 = Service.total_distance_km <$> routes2).
  { clear Hloop Hrun. induction Hsame as [|a b l1 l2 (_ & _ & Hd & _) _ IH]; [done|].
    by rewrite !fmap_cons, Hd, IH. }
  assert (Hlen : (λ r, Z.of_nat (length (Service.points r))) <$> routes1
                 = (λ r, Z.of_nat (length (Service.points r))) <$> routes2).
  { clear Hloop Hrun Hkm. induction Hsame as [|a b l1 l2 (_ & Hp & _) _ IH]; [done|].
    by rewrite !fmap_cons, Hp, IH. }
  rewrite Hkm, Hlen.
  destruct (Py.int _) as [minutes|]; simpl in Hrun |- *; [|done].
  injection Hrun as <-. eexists. split; [done|]. simpl. done.
Qed.

End RouterDown.

(** ** The stops of a route are numbered in visiting order *)
Section StopNumbers.

Variable pow : float → float → float.
Variable sin : float → float.
Variable cos : float → float.
Variable atan2 : float → float → float.
Variable round2 : float → float.
Variable np_round2 : float → float.
Variable osrm : list Service.Coord → option (list Service.Coord * float * float).
Variable ortools : option (list (list Z) → list Z → list Z → Service.SolverAnswer).
Variable Net : Type.
Variable Opt : Type.
Variable rng : Type.
Variable forward_train : Net → rng → list (list float) → list (list float) * rng.
Variable random_random : rng → float * rng.
Variable random_randrange : Z → rng → option (Z * rng).
Variable np_choice : list Z → rng → option (Z * rng).
Variable np_seed : Z → rng.
Variable np_uniform : float → float → rng → float * rng.
Variable np_randint : Z → Z → rng → option (Z * rng).

#[local] Abbreviation fill := (Service.fill pow sin cos atan2).
#[local] Abbreviation route_vehicle := (Service.route_vehicle pow sin cos atan2 round2 osrm).
#[local] Abbreviation extract_route := (Service.extract_route pow sin cos atan2 round2 osrm).

(** The sequence numbers of the stops are 0, 1, 2, ... *)
#[local] Abbreviation numbered pts :=
  (Service.sequence <$> pts = Z.of_nat <$> seq 0 (length pts)).

Lemma numbered_snoc (pts : list Service.RoutePoint) (p : Service.RoutePoint) :
  numbered pts → Service.sequence p = Z.of_nat (length pts) → numbered (pts ++ [p]).
Proof.
  intros Hpts Hp. rewrite fmap_app, length_app. simpl.
  rewrite Nat.add_1_r, seq_S, fmap_app, Hpts, Hp. done.
Qed.

Lemma fill_numbered (customers : list Data.CustomerData) (capacity : Z) (rounds : nat) :
  ∀ f f', fill rounds customers capacity f = Some f' →
    numbered (Service.route_points f) → numbered (Service.route_points f').
Proof.
  induction rounds as [|k IH]; intros f f' Hrun Hinv; simpl in Hrun.
  { by injection Hrun as <-. }
  destruct (Service.unassigned f) as [|u us] eqn:Hun; [by injection Hrun as <-|].
  destruct (Service.nearest_feasible _ _ _ _ customers f capacity None infinity _)
    as [[best bd]|]; simpl in Hrun; [|done].
  destruct best as [b|]; [|by injection Hrun as <-].
  destruct (customers !! b) as [c|]; simpl in Hrun; [|done].
  eapply IH; [exact Hrun|]. by apply numbered_snoc.
Qed.

Lemma path_points_numbered (customers : list Data.CustomerData) (path : list Z) :
  ∀ acc pts, Service.path_points customers path acc = Some pts → numbered acc → numbered pts.
Proof.
  induction path as [|node path IH]; intros acc pts Hrun Hacc; simpl in Hrun.
  { by injection Hrun as <-. }
  destruct (0 <? node); [|by eapply IH].
  destruct (Py.getitem customers (node - 1)) as [c|]; simpl in Hrun; [|done].
  eapply IH; [exact Hrun|]. by apply numbered_snoc.
Qed.

Lemma enumerate_numbered (customers : list Data.CustomerData) (route : list Z) :
  ∀ (k : nat) (pts : list Service.RoutePoint),
    mapM (λ '(seq, customer_idx),
            c ← Py.getitem customers customer_idx;
            Some (Service.mkRoutePoint (Data.cd_id c)
                    (Service.mkCoord (Data.cd_lat c) (Data.cd_lon c))
                    (Data.demand_of c) (Z.of_nat seq)))
      (imap (λ i customer_idx, ((k + i)%nat, customer_idx)) route) = Some pts →
    Service.sequence <$> pts = Z.of_nat <$> seq k (length pts).
Proof.
  induction route as [|x route IH]; intros k pts; simpl.
  { by intros [= <-]. }
  destruct (Py.getitem customers x) as [c|]; simpl; [|done].
  intros Hrun. destruct (mapM _ _) as [rest|] eqn:Hrest; simpl in Hrun; [|done].
  injection Hrun as <-. simpl. rewrite Nat.add_0_r. f_equal.
  apply (IH (S k) rest). rewrite <- Hrest. f_equal. apply imap_ext. intros i y _. simpl.
  f_equal. lia.
Qed.


Lemma greedy_numbered (depot : Data.Depot) (customers : list Data.CustomerData)
    (vehicles : list Data.VehicleData) (use_real_roads : bool) (r : Service.Result) :
  Service.optimize_greedy pow sin cos atan2 round2 osrm depot customers vehicles use_real_roads
    = Some r →
  Forall (λ route, numbered (Service.points route)) (Service.routes r).
Proof.
  unfold Service.optimize_greedy. intros Hrun.
  destruct (foldl _ _ vehicles) as [[routes un]|] eqn:Hloop; simpl in Hrun; [|done].
  destruct (Py.int _) as [minutes|]; simpl in Hrun; [|done].
  injection Hrun as <-. simpl.
  assert (Hgen : ∀ routes0 un0, Forall (λ route, numbered (Service.points route)) routes0 →
            foldl (λ acc vehicle, acc ≫= route_vehicle depot customers use_real_roads vehicle)
              (Some (routes0, un0)) vehicles = Some (routes, un) →
            Forall (λ route, numbered (Service.points route)) routes);
    [|by eapply Hgen; [constructor|exact Hloop]].
  clear Hloop. induction vehicles as [|v vs IH]; intros routes0 un0 Hall Hrun.
  { by injection Hrun as <- <-. }
  rewrite foldl_bind_cons in Hrun.
  destruct (route_vehicle depot customers use_real_roads v (routes0, un0))
    as [[routes1 un1]|] eqn:Hv; [|by rewrite foldl_bind_None in Hrun].
  eapply IH; [|exact Hrun].
  apply route_vehicle_spec in Hv as (f' & Hfill & _ & Hroute).
  apply fill_numbered in Hfill; [|done].
  destruct Hroute as [[_ ->] | [_ (route & -> & _ & Hrp & _)]]; [done|].
  apply Forall_app. split; [done|]. constructor; [|done]. by rewrite Hrp.
Qed.

Lemma extract_route_numbered (depot : Data.Depot) (customers : list Data.CustomerData)
    (use_real_roads : bool) (matrix paths : list (list Z)) (routes routes' : list Service.Route)
    (total total' : Py.number) (iv : nat * Data.VehicleData) :
  extract_route depot customers use_real_roads matrix paths (routes, total) iv
    = Some (routes', total') →
  Forall (λ route, numbered (Service.points route)) routes →
  Forall (λ route, numbered (Service.points route)) routes'.
Proof.
  unfold Service.extract_route. destruct iv as [i vehicle]. intros Hrun Hall.
  destruct (paths !! i) as [path|]; cbn [mbind option_bind] in Hrun; [|done].
  destruct (Service.path_points customers path []) as [pts|] eqn:Hpts;
    cbn [mbind option_bind] in Hrun; [|done].
  apply path_points_numbered in Hpts; [|done].
  destruct (Service.path_cost matrix path) as [cost|]; cbn [mbind option_bind] in Hrun; [|done].
  destruct pts as [|p ps]; [by injection Hrun as <- <-|].
  destruct (Py.truediv cost 1000) as [km|]; cbn [mbind option_bind] in Hrun; [|done].
  destruct use_real_roads.
  - destruct (Service._build_geometry_with_roads _ _ _ _ _ _ _) as [[[geo rd] rt]|];
      cbn [mbind option_bind] in Hrun; [|done].
    destruct (Py.int rt); cbn [mbind option_bind] in Hrun; [|done]. injection Hrun as <- <-.
    apply Forall_app. split; [done|]. by constructor.
  - destruct (Py.int_of_float _); cbn [mbind option_bind] in Hrun; [|done].
    injection Hrun as <- <-. apply Forall_app. split; [done|]. by constructor.
Qed.

Lemma ortools_numbered (depot : Data.Depot) (customers : list Data.CustomerData)
    (vehicles : list Data.VehicleData) (use_real_roads : bool) (r : Service.Result) :
  Service.optimize_with_ortools pow sin cos atan2 round2 osrm ortools depot customers vehicles
    use_real_roads = Some r →
  Forall (λ route, numbered (Service.points route)) (Service.routes r).
Proof.
  unfold Service.optimize_with_ortools.
  destruct ortools as [solve|]; [|apply greedy_numbered].
  destruct (Service.distance_matrix _ _ _ _ _) as [matrix|]; cbn [mbind option_bind]; [|done].
  destruct (solve matrix _ _) as [paths| |]; [|apply greedy_numbered|done].
  intros Hrun.
  destruct (foldl _ _ _) as [[routes total]|] eqn:Hloop; cbn [mbind option_bind] in Hrun; [|done].
  destruct (Py.int _); cbn [mbind option_bind] in Hrun; [|done]. injection Hrun as <-.
  cbn [Service.routes].
  assert (Hgen : ∀ ivs routes0 total0,
            Forall (λ route, numbered (Service.points route)) routes0 →
            foldl (λ acc iv, acc ≫= (λ a, extract_route depot customers use_real_roads
                                            matrix paths a iv))
              (Some (routes0, total0)) ivs = Some (routes, total) →
            Forall (λ route, numbered (Service.points route)) routes);
    [|by eapply Hgen; [constructor|exact Hloop]].
  clear Hloop. induction ivs as [|iv ivs IH]; intros routes0 total0 Hall Hrun.
  { by injection Hrun as <- <-. }
  cbn [foldl] in Hrun.
  destruct (Some (routes0, total0) ≫= λ a, extract_route _ _ _ _ _ a iv)
    as [[routes1 total1]|] eqn:Hone.
  2:{ rewrite (foldl_bind_None (λ iv a, extract_route depot customers use_real_roads
                                          matrix paths a iv)) in Hrun. done. }
  cbn [mbind option_bind] in Hone.
  eapply IH; [|exact Hrun]. by eapply extract_route_numbered.
Qed.

Lemma build_routes_numbered (e : Env.t) (customers : list Data.CustomerData)
    (vehicles : list Data.VehicleData) (routes : list Service.Route) :
  Service._build_routes_from_env np_round2 e customers vehicles = Some routes →
  Forall (λ route, numbered (Service.points route)) routes.
Proof.
  unfold Service._build_routes_from_env. intros Hrun.
  destruct (mapM _ _) as [rs|] eqn:Hrs; simpl in Hrun; [|done]. injection Hrun as <-.
  apply mapM_Some in Hrs. apply Forall_forall. intros route Hin.
  apply list_elem_of_omap in Hin as (o & Ho & [= ->]).
  apply list_elem_of_lookup_1 in Ho as [j Hj].
  destruct (Forall2_lookup_r _ _ _ _ _ Hrs Hj) as ([i v] & _ & Hroute).
  unfold Service.vehicle_route in Hroute.
  destruct (Env.v_route v); [done|].
  destruct (mapM _ _) as [pts|] eqn:Hpts; simpl in Hroute; [|done].
  apply (enumerate_numbered customers _ 0%nat) in Hpts.
  destruct pts as [|p ps]; [done|].
  destruct (vehicles !! i) as [vd|]; simpl in Hroute; [|done].
  destruct (Py.int_of_float _); simpl in Hroute; [|done].
  injection Hroute as <-. done.
Qed.

(** X22. Whatever the strategy, the stops of every route of a result carry
    the sequence numbers 0, 1, 2, ... in the order of the visit. *)
Theorem stops_numbered_in_order (depot : Data.Depot) (customers : list Data.CustomerData)
    (vehicles : list Data.VehicleData) (use_real_roads : bool) :
  (∀ r,
     Service.optimize_greedy pow sin cos atan2 round2 osrm depot customers vehicles
       use_real_roads = Some r →
     Forall (λ route, Service.sequence <$> Service.points route
                      = Z.of_nat <$> seq 0 (length (Service.points route)))
       (Service.routes r))
  ∧ (∀ r,
       Service.optimize_with_ortools pow sin cos atan2 round2 osrm ortools depot customers
         vehicles use_real_roads = Some r →
       Forall (λ route, Service.sequence <$> Service.points route
                        = Z.of_nat <$> seq 0 (length (Service.points route)))
         (Service.routes r))
  ∧ (∀ agent model_loaded g r g',
       Service.optimize_with_rl pow sin cos atan2 round2 np_round2 osrm Net Opt rng
         forward_train random_random random_randrange np_choice np_seed np_uniform np_randint
         agent model_loaded depot customers vehicles use_real_roads g = Some (Some (r, g')) →
       Forall (λ route, Service.sequence <$> Service.points route
                        = Z.of_nat <$> seq 0 (length (Service.points route)))
         (Service.routes r)).
Proof.
  split; [intros r; apply greedy_numbered|]. split; [intros r; apply ortools_numbered|].
  intros agent model_loaded g r g'. unfold Service.optimize_with_rl.
  assert (Hgreedy :
    Some (r0 ← Service.optimize_greedy pow sin cos atan2 round2 osrm depot customers vehicles
                 use_real_roads; Some (r0, g)) = Some (Some (r, g')) →
    Forall (λ route, numbered (Service.points route)) (Service.routes r)).
  { intros [= Hrun].
    destruct (Service.optimize_greedy _ _ _ _ _ _ _ _ _ _) as [r0|] eqn:Hg; [|done].
    injection Hrun as <- <-. by eapply greedy_numbered. }
  destruct agent as [a|]; [|exact Hgreedy].
  destruct model_loaded; cbn [negb]; [|exact Hgreedy].
  destruct (Env.real_reset _ _ _ _ _ _ _ _) as [[[[env state] i0] g0]|]; [|done].
  destruct (Service.rollout _ _ _ _ _ _ _ _ _ _ _ _ _ _) as [[[[[e i] total] g1]|]|];
    cbn [mbind option_bind]; [|done|done].
  intros [= Hrun].
  destruct (Service._build_routes_from_env _ _ _ _) as [routes|] eqn:Hroutes;
    simpl in Hrun; [|done].
  destruct (Py.int _); simpl in Hrun; [|done].
  destruct (Env.get_solution_quality _ _); simpl in Hrun; [|done].
  injection Hrun as <- <-. simpl. by eapply build_routes_numbered.
Qed.

End StopNumbers.

(** ** The learned-policy strategy: the episode ends, and what it reports *)
Section LearnedPolicyResult.

Variable pow : float → float → float.
Variable sin : float → float.
Variable cos : float → float.
Variable atan2 : float → float → float.
Variable round2 : float → float.
Variable np_round2 : float → float.
Variable osrm : list Service.Coord → option (list Service.Coord * float * float).
Variable Net : Type.
Variable Opt : Type.
Variable rng : Type.
Variable forward_train : Net → rng → list (list float) → list (list float) * rng.
Variable random_random : rng → float * rng.
Variable random_randrange : Z → rng → option (Z * rng).
Variable np_choice : list Z → rng → option (Z * rng).
Variable np_seed : Z → rng.
Variable np_uniform : float → float → rng → float * rng.
Variable np_randint : Z → Z → rng → option (Z * rng).

#[local] Abbreviation reachable := (Env.reachable pow rng np_seed np_uniform np_randint).
#[local] Abbreviation rollout :=
  (Service.rollout pow Net Opt rng forward_train random_random random_randrange np_choice).
#[local] Abbreviation optimize_with_rl :=
  (Service.optimize_with_rl pow sin cos atan2 round2 np_round2 osrm Net Opt rng forward_train
     random_random random_randrange np_choice np_seed np_uniform np_randint).

(** X23. The inference loop of [optimize_with_rl] always comes to an end: the
    strategy returns a result or raises, whatever the policy answers. *)
Theorem rl_inference_ends (agent : option (Agent.t Net Opt)) (model_loaded : bool)
    (depot : Data.Depot) (customers : list Data.CustomerData)
    (vehicles : list Data.VehicleData) (use_real_roads : bool) (g : rng) :
  is_Some (optimize_with_rl agent model_loaded depot customers vehicles use_real_roads g).
Proof.
  unfold Service.optimize_with_rl.
  destruct agent as [a|]; [|eauto]. destruct (negb model_loaded); [eauto|].
  destruct (Env.real_reset _ _ _ _ _ _ _ _) as [[[[env state] i0] g0]|]; [|eauto].
  destruct (rollout_rounds_enough pow Net Opt rng forward_train random_random
              random_randrange np_choice a (Service.rollout_rounds (Env.base env))
              (Env.base env) state (Py.Int 0) g0) as [run ->].
  { unfold Service.rollout_rounds. lia. }
  simpl. eauto.
Qed.

(** The stop [p] is the customer at index [id] of the instance. *)
#[local] Abbreviation stop_at customers p id :=
  (∃ c, Py.getitem (customers : list Data.CustomerData) id = Some c
        ∧ Service.customer_id p = Data.cd_id c
        ∧ Service.location p = Service.mkCoord (Data.cd_lat c) (Data.cd_lon c)
        ∧ Service.demand p = Data.demand_of c).

Lemma route_stops (customers : list Data.CustomerData) (route : list Z) :
  ∀ (k : nat) (pts : list Service.RoutePoint),
    mapM (λ '(seq, customer_idx),
            c ← Py.getitem customers customer_idx;
            Some (Service.mkRoutePoint (Data.cd_id c)
                    (Service.mkCoord (Data.cd_lat c) (Data.cd_lon c))
                    (Data.demand_of c) (Z.of_nat seq)))
      (imap (λ i customer_idx, ((k + i)%nat, customer_idx)) route) = Some pts →
    Forall2 (λ p id, stop_at customers p id) pts route.
Proof.
  induction route as [|x route IH]; intros k pts; simpl.
  { intros [= <-]. constructor. }
  destruct (Py.getitem customers x) as [c|] eqn:Hc; simpl; [|done].
  intros Hrun. destruct (mapM _ _) as [rest|] eqn:Hrest; simpl in Hrun; [|done].
  injection Hrun as <-. constructor; [by exists c|].
  apply (IH (S k) rest). rewrite <- Hrest. f_equal. apply imap_ext. intros i y _. simpl.
  f_equal. lia.
Qed.

Lemma build_routes_stops (customers : list Data.CustomerData)
    (vehicles : list Data.VehicleData) (vs : list Env.Vehicle) :
  ∀ (k : nat) rs,
    mapM (λ '(i, vehicle), Service.vehicle_route np_round2 customers vehicles i vehicle)
      (imap (λ i vehicle, ((k + i)%nat, vehicle)) vs) = Some rs →
    Forall2 (λ p id, stop_at customers p id)
      (concat (Service.points <$> omap id rs)) (concat (Env.v_route <$> vs)).
Proof.
  induction vs as [|v vs IH]; intros k rs; simpl.
  { intros [= <-]. constructor. }
  destruct (Service.vehicle_route np_round2 customers vehicles (k + 0) v) as [o|] eqn:Ho;
    simpl; [|done].
  intros Hrun. destruct (mapM _ _) as [rest|] eqn:Hrest; simpl in Hrun; [|done].
  injection Hrun as <-.
  assert (Htail : Forall2 (λ p id, stop_at customers p id)
                    (concat (Service.points <$> omap id rest)) (concat (Env.v_route <$> vs))).
  { apply (IH (S k) rest). rewrite <- Hrest. f_equal. apply imap_ext. intros i y _. simpl.
    f_equal. lia. }
  unfold Service.vehicle_route in Ho.
  destruct (Env.v_route v) as [|x route] eqn:Hroute; [by injection Ho as <-|].
  rewrite <- Hroute in *.
  destruct (mapM _ _) as [pts|] eqn:Hpts; simpl in Ho; [|done].
  apply (route_stops customers _ 0%nat) in Hpts.
  destruct pts as [|p ps].
  { apply Forall2_nil_inv_l in Hpts. rewrite Hpts in Hroute. done. }
  destruct (vehicles !! _) as [vd|]; simpl in Ho; [|done].
  destruct (Py.int_of_float _); simpl in Ho; [|done].
  injection Ho as <-.
  change (Forall2 (λ p id, stop_at customers p id)
            ((p :: ps) ++ concat (Service.points <$> omap id rest))
            (Env.v_route v ++ concat (Env.v_route <$> vs))).
  by apply Forall2_app.
Qed.

Lemma rollout_reachable (agent : Agent.t Net Opt) (rounds : nat) :
  ∀ e state total g e' i total' g',
    rollout rounds agent e state total g = Some (Some (e', i, total', g')) →
    reachable e →
    reachable e' ∧ i = Env._get_info e'
    ∧ length (Env.customers e') = length (Env.customers e).
Proof.
  induction rounds as [|k IH]; intros e state total g e' i total' g' Hrun Hreach; [done|].
  simpl in Hrun.
  destruct (Env.get_action_mask e) as [mask|]; simpl in Hrun; [|done].
  destruct (Service.select_action _ _ _ _ _ _ _ _ _ _ _ _) as [[action g1]|];
    simpl in Hrun; [|done].
  destruct (Env.step pow e action) as [[e1 r]|] eqn:Hstep; simpl in Hrun; [|done].
  assert (Hreach1 : reachable e1) by (by eapply Env.reach_step).
  apply step_inv in Hstep as (vs & cs & idx & rw & Hact & _ & _ & Hcs & H).
  apply step_action_customers in Hact. rewrite <- Hcs in Hact.
  destruct (Env.terminated r || Env.truncated r).
  - injection Hrun as <- <- <- <-. split; [done|]. split; [|done].
    by destruct H as (_ & _ & _ & _ & _ & _ & _ & _ & _ & _ & _ & ? & _).
  - destruct (IH _ _ _ _ _ _ _ _ Hrun Hreach1) as (? & ? & ?). split; [done|].
    split; [done|]. congruence.
Qed.

(** X24. What the learned-policy strategy reports is what its routes show: no
    customer stands twice on the routes, every stop is a customer of the
    instance, the stops are as many as are reported served, and served
    and unserved customers add up to all of them. *)
Theorem rl_result_accounts (agent : Agent.t Net Opt) (depot : Data.Depot)
    (customers : list Data.CustomerData) (vehicles : list Data.VehicleData)
    (use_real_roads : bool) (g g' : rng) (r : Service.Result) :
  optimize_with_rl (Some agent) true depot customers vehicles use_real_roads g
    = Some (Some (r, g')) →
  Service.success r = true
  ∧ Service.customers_served r + Service.customers_unserved r = Z.of_nat (length customers)
  ∧ ∃ ids : list Z,
      NoDup ids
      ∧ Service.customers_served r = Z.of_nat (length ids)
      ∧ Forall2 (λ p id, ∃ c, Py.getitem customers id = Some c
                   ∧ Service.customer_id p = Data.cd_id c
                   ∧ Service.location p = Service.mkCoord (Data.cd_lat c) (Data.cd_lon c)
                   ∧ Service.demand p = Data.demand_of c)
          (concat (Service.points <$> Service.routes r)) ids.
Proof.
  unfold Service.optimize_with_rl. cbn [negb]. intros Hrun.
  destruct (Env.real_reset _ _ _ _ _ _ _ _) as [[[[env state] i0] g0]|] eqn:Hreset; [|done].
  destruct (rollout _ _ _ _ _ _) as [[[[[e i] total] g1]|]|] eqn:Hroll;
    cbn [mbind option_bind] in Hrun; [|done|done].
  injection Hrun as Hrun.
  destruct (Service._build_routes_from_env _ _ _ _) as [routes|] eqn:Hroutes;
    simpl in Hrun; [|done].
  destruct (Py.int _); simpl in Hrun; [|done].
  destruct (Env.get_solution_quality _ _); simpl in Hrun; [|done].
  injection Hrun as <- <-. simpl.
  assert (Hreach : reachable (Env.base env)).
  { eapply Env.reach_real_reset; [|exact Hreset]. simpl. done. }
  assert (Hlen0 : length (Env.customers (Env.base env)) = length customers).
  { unfold Env.real_reset in Hreset. bind_inv. simpl. by rewrite length_imap. }
  apply rollout_reachable in Hroll as (Hreach' & -> & Hlen); [|done].
  pose proof (reachable_served_once _ _ _ _ _ _ Hreach') as Hinv.
  pose proof (count_visits _ Hinv) as Hcount. destruct Hinv as (_ & Hnd & _).
  unfold Service._build_routes_from_env in Hroutes.
  destruct (mapM _ _) as [rs|] eqn:Hrs; simpl in Hroutes; [|done]. injection Hroutes as <-.
  apply (build_routes_stops customers vehicles _ 0%nat) in Hrs.
  split; [done|]. split.
  - simpl. rewrite count_split. lia.
  - exists (concat (Env.v_route <$> Env.vehicles e)). split; [done|]. split; [|done].
    simpl. by rewrite <- Hcount.
Qed.

End LearnedPolicyResult.

(** ** The endpoint [POST /optimize] *)
Section Endpoint.

Variable pow : float → float → float.
Variable sin : float → float.
Variable cos : float → float.
Variable atan2 : float → float → float.
Variable round2 : float → float.
Variable osrm : list Service.Coord → option (list Service.Coord * float * float).
Variable ortools : option (list (list Z) → list Z → list Z → Service.SolverAnswer).
Variable db_depot : string → option Data.Depot.
Variable db_customers : list string → list Data.CustomerData.
Variable db_vehicles : list string → list Data.VehicleData.

#[local] Abbreviation optimize_greedy := (Service.optimize_greedy pow sin cos atan2 round2 osrm).
#[local] Abbreviation optimize_with_ortools :=
  (Service.optimize_with_ortools pow sin cos atan2 round2 osrm ortools).
#[local] Abbreviation optimize_routes :=
  (Api.optimize_routes pow sin cos atan2 round2 osrm ortools db_depot db_customers db_vehicles).



End Endpoint.

(** ** The further properties on the sample instances *)

(** The first step of the sample environment, onto its first customer. *)
Lemma sample_first_step :
  ∃ e' r, Env.step Sample.pow Sample.env1 0 = Some (e', r).
Proof. vm_compute. by eexists _, _. Qed.

Lemma step_marks_one_customer_witness :
  ∃ e' r,
    Env.step Sample.pow Sample.env1 0 = Some (e', r)
    ∧ length (Env.customers e') = length (Env.customers Sample.env1)
    ∧ ∀ (i : nat) c, Env.customers Sample.env1 !! i = Some c →
        Env.customers e' !! i = Some c
        ∨ (Env.customers e' !! i = Some (Env.set_visited c true)
           ∧ 0 = Z.of_nat i
           ∧ Env.c_visited c = false
           ∧ ∃ vehicle,
               Py.getitem (Env.vehicles Sample.env1) (Env.current_vehicle_idx Sample.env1)
                 = Some vehicle
               ∧ Env.v_current_load vehicle + Env.c_demand c ≤ Env.v_capacity vehicle).
Proof.
  destruct sample_first_step as (e' & r & Hstep). exists e', r. split; [exact Hstep|].
  exact (step_marks_one_customer Sample.pow Sample.env1 e' 0 r Hstep).
Defined.

Lemma no_customer_served_twice_witness :
  let e := Sample.after Sample.env1 [0] in
  NoDup (concat (Env.v_route <$> Env.vehicles e))
  ∧ (∀ id, id ∈ concat (Env.v_route <$> Env.vehicles e)
       ↔ ∃ c, 0 ≤ id ∧ Env.customers e !! Z.to_nat id = Some c ∧ Env.c_visited c = true)
  ∧ Z.of_nat (length (concat (Env.v_route <$> Env.vehicles e)))
    = Env.i_customers_visited (Env._get_info e).
Proof.
  apply (no_customer_served_twice Sample.pow Sample.rng Sample.np_seed Sample.np_uniform
           Sample.np_randint).
  apply sample_after_reachable, sample_env1_reachable.
Defined.

Lemma loads_within_capacity_witness :
  Forall (λ v, Env.v_current_load v ≤ Env.v_capacity v)
    (Env.vehicles (Sample.after Sample.env1 [0])).
Proof.
  apply (loads_within_capacity Sample.pow Sample.rng Sample.np_seed Sample.np_uniform
           Sample.np_randint).
  - apply sample_after_reachable, sample_env1_reachable.
  - vm_compute. repeat constructor. discriminate.
Defined.

Lemma episode_within_budget_witness :
  ∃ e' r,
    Env.episode Sample.pow Sample.real1 [r] e'
    ∧ Z.of_nat (length [r]) ≤ Env.max_steps Sample.real1 - Env.steps Sample.real1
    ∧ Env.steps e' = Env.steps Sample.real1 + Z.of_nat (length [r])
    ∧ Env.max_steps e' = Env.max_steps Sample.real1.
Proof.
  destruct (Env.step Sample.pow Sample.real1 0) as [[e' r]|] eqn:Hstep; [|by vm_compute in Hstep].
  assert (Hep : Env.episode Sample.pow Sample.real1 [r] e').
  { eapply Env.episode_last; [exact Hstep|]. vm_compute in Hstep. by injection Hstep as <- <-. }
  exists e', r. split; [exact Hep|].
  apply (episode_within_budget Sample.pow Sample.real1 e' [r] Hep). vm_compute. reflexivity.
Defined.

Lemma step_reports_witness :
  ∃ e' r,
    Env.step Sample.pow Sample.env1 0 = Some (e', r)
    ∧ Env.i_customers_visited (Env.info r) + Env.i_customers_remaining (Env.info r)
      = Env.num_customers Sample.env1
    ∧ (Env.terminated r = true ↔ Env.i_customers_remaining (Env.info r) = 0)
    ∧ (Env.truncated r = true ↔ Env.max_steps Sample.env1 ≤ Env.steps Sample.env1 + 1)
    ∧ Env.i_steps (Env.info r) = Env.steps Sample.env1 + 1
    ∧ Env.i_current_vehicle (Env.info r) = Env.current_vehicle_idx e'.
Proof.
  destruct sample_first_step as (e' & r & Hstep). exists e', r. split; [exact Hstep|].
  exact (step_reports Sample.pow Sample.rng Sample.np_seed Sample.np_uniform Sample.np_randint
           Sample.env1 e' 0 r sample_env1_reachable Hstep).
Defined.



Lemma step_out_of_range_witness :
  let e := Sample.env1 in
  ∃ obs,
    Env._get_observation Sample.pow e = Some obs ∧
    let e' := Env.set_counters e (Env.current_vehicle_idx e)
                (Env.total_reward e + -1.0)%float (Env.steps e + 1) in
    Env.step Sample.pow e 7 =
      Some (e', Env.mkStepResult obs
                  (if Env.max_steps e <=? Env.steps e + 1
                   then (-1.0 - Py.float_of_Z
                                  (Py.count (λ c, negb (Env.c_visited c)) (Env.customers e))
                                * 2.0)%float
                   else (-1.0)%float)
                  false (Env.max_steps e <=? Env.steps e + 1) (Env._get_info e')).
Proof.
  apply (step_out_of_range Sample.pow Sample.rng Sample.np_seed Sample.np_uniform
           Sample.np_randint Sample.env1 7).
  - apply sample_env1_reachable.
  - right. vm_compute. reflexivity.
  - vm_compute. reflexivity.
Defined.

Lemma observation_shape_witness :
  ∃ obs,
    Env._get_observation Sample.pow Sample.env1 = Some obs
    ∧ Z.of_nat (length obs) = Env.num_customers Sample.env1 * 5 + 4
    ∧ ∀ action e' r, Env.step Sample.pow Sample.env1 action = Some (e', r) →
        Z.of_nat (length (Env.observation r)) = Env.num_customers Sample.env1 * 5 + 4.
Proof.
  exact (observation_shape Sample.pow Sample.rng Sample.np_seed Sample.np_uniform
           Sample.np_randint Sample.env1 sample_env1_reachable).
Defined.

Lemma depot_return_hands_over_witness :
  ∃ e' r,
    Env.step Sample.pow Sample.env1 (Env.num_customers Sample.env1) = Some (e', r)
    ∧ Env.current_vehicle_idx e'
      = (Env.current_vehicle_idx Sample.env1 + 1) mod Env.num_vehicles Sample.env1
    ∧ Env.customers e' = Env.customers Sample.env1.
Proof.
  destruct (Env.step Sample.pow Sample.env1 (Env.num_customers Sample.env1))
    as [[e' r]|] eqn:Hstep; [|by vm_compute in Hstep].
  exists e', r. split; [reflexivity|].
  destruct (depot_return_hands_over Sample.pow Sample.rng Sample.np_seed Sample.np_uniform
              Sample.np_randint Sample.env1 e' r sample_env1_reachable Hstep)
    as (Hidx & _ & Hcs & _).
  split; [exact Hidx|exact Hcs].
Defined.

Lemma bounding_box_contains_witness :
  let r := Env.real_init Sample.customers Sample.vehicles Sample.depot in
  let inside lat lon :=
    (Env.lat_min r <=? lat)%float = true ∧ (lat <=? Env.lat_max r)%float = true
    ∧ (Env.lon_min r <=? lon)%float = true ∧ (lon <=? Env.lon_max r)%float = true in
  inside (Data.d_lat Sample.depot) (Data.d_lon Sample.depot)
  ∧ Forall (λ c, inside (Data.cd_lat c) (Data.cd_lon c)) Sample.customers.
Proof.
  apply (bounding_box_contains Sample.customers Sample.vehicles Sample.depot).
  - repeat constructor.
  - reflexivity.
  - reflexivity.
Defined.

#[local] Abbreviation sample_agent := (Sample.agent [3; 2; 1; 0]%float).

Lemma store_transition_bounded_witness :
  let a := sample_agent in
  let tr := Agent.mkTransition [0%float] 1 0.5 [1%float] false (default [1%float] None) in
  let a' := Agent.store_transition Sample.Net Sample.Opt a [0%float] 1 0.5 [1%float] false
              None in
  Z.of_nat (length (Agent.memory a')) ≤ Agent.memory_size a
  ∧ (Z.of_nat (length (Agent.memory a)) < Agent.memory_size a →
     Agent.memory a' = Agent.memory a ++ [tr])
  ∧ (Z.of_nat (length (Agent.memory a)) = Agent.memory_size a →
     Agent.memory a' = tail (Agent.memory a ++ [tr]))
  ∧ a' = Agent.mkAgent (Agent.state_dim a) (Agent.action_dim a) (Agent.gamma a)
           (Agent.epsilon a) (Agent.epsilon_end a) (Agent.epsilon_decay a)
           (Agent.batch_size a) (Agent.target_update_freq a) (Agent.double_dqn a)
           (Agent.policy_net a) (Agent.target_net a) (Agent.optimizer a)
           (Agent.memory a') (Agent.memory_size a) (Agent.steps_done a)
           (Agent.episodes_done a) (Agent.losses a) (Agent.rewards a).
Proof.
  apply (store_transition_bounded Sample.Net Sample.Opt sample_agent [0%float] 1 0.5%float
           [1%float] false None).
  vm_compute. discriminate.
Defined.

Lemma end_episode_spec_witness :
  ∃ a',
    Agent.end_episode Sample.Net Sample.Opt Sample.scheduler_step sample_agent 1.5 = Some a'
    ∧ Agent.episodes_done a' = Agent.episodes_done sample_agent + 1
    ∧ Agent.rewards a' = Agent.rewards sample_agent ++ [1.5%float]
    ∧ (Agent.epsilon_end sample_agent <=? Agent.epsilon a')%float = true.
Proof.
  destruct (Agent.end_episode Sample.Net Sample.Opt Sample.scheduler_step sample_agent 1.5)
    as [a'|] eqn:Hend; [|by vm_compute in Hend].
  exists a'. split; [reflexivity|].
  destruct (end_episode_spec Sample.Net Sample.Opt Sample.scheduler_step sample_agent 1.5)
    as [_ Hspec].
  destruct (Hspec a' Hend) as (Hep & Hrw & _ & Hfloor & _).
  split; [exact Hep|]. split; [exact Hrw|]. apply Hfloor. reflexivity.
Defined.

Lemma train_step_frame_witness :
  ∃ loss a' g',
    Agent.train_step Sample.Net Sample.Opt Sample.rng Sample.forward_train Sample.forward_eval
      Sample.smooth_l1_loss Sample.optimizer_step Sample.random_sample
      (Agent.store_transition Sample.Net Sample.Opt
         (Agent.mkAgent 19 4 0.99 0.01 0.01 0.995 1 10 true [3; 2; 1; 0]%float
            [3; 2; 1; 0]%float () [] 100000 0 0 [] [])
         [0%float] 1 0.5 [1%float] false None) 0 = Some (Some loss, a', g')
    ∧ Agent.target_net a' = [3; 2; 1; 0]%float
    ∧ Agent.steps_done a' = 1
    ∧ Agent.losses a' = [loss].
Proof.
  match goal with |- ∃ loss a' g', ?run = _ ∧ _ =>
    destruct run as [[[[loss|] a'] g']|] eqn:Hrun; try (by vm_compute in Hrun) end.
  exists loss, a', g'. split; [reflexivity|].
  destruct (train_step_frame Sample.Net Sample.Opt Sample.rng Sample.forward_train
              Sample.forward_eval Sample.smooth_l1_loss Sample.optimizer_step
              Sample.random_sample _ a' 0 g' (Some loss) Hrun)
    as (Htarget & _ & _ & _ & _ & _ & _ & Hsteps & Hlosses).
  split; [exact Htarget|]. split; [exact Hsteps|exact Hlosses].
Defined.


Lemma prioritized_buffer_in_step_witness :
  ∃ b',
    PrioritizedReplayBuffer.push float Sample.float_pow Sample.prioritized [0%float] 1 0.5
      [1%float] false None 2 = Some b'
    ∧ length (PrioritizedReplayBuffer.buffer b') = length (PrioritizedReplayBuffer.priorities b')
    ∧ Z.of_nat (length (PrioritizedReplayBuffer.buffer b')) = 1.
Proof.
  match goal with |- ∃ b', ?run = _ ∧ _ =>
    destruct run as [b'|] eqn:Hrun; [|by vm_compute in Hrun] end.
  exists b'. split; [reflexivity|].
  destruct (prioritized_buffer_in_step float Sample.float_pow Sample.pow Sample.prioritized
              eq_refl ltac:(vm_compute; discriminate)) as [Hpush _].
  destruct (Hpush _ _ _ _ _ _ _ _ Hrun) as (Heq & Hlen & _).
  split; [exact Heq|exact Hlen].
Defined.

#[local] Abbreviation sample_run_episode :=
  (Training._run_episode Sample.pow Sample.Net Sample.Opt Sample.rng Sample.forward_train
     Sample.forward_eval Sample.smooth_l1_loss Sample.optimizer_step Sample.scheduler_step
     Sample.random_random Sample.random_randrange Sample.random_sample Sample.np_choice
     Sample.np_seed Sample.np_uniform Sample.np_randint).

Lemma sample_episode_returns :
  ∃ a' e' total g',
    sample_run_episode (Sample.agent [2; 1; 3]%float) Sample.env0 0
    = Some (Some (a', e', total, g')).
Proof. vm_compute. by eexists _, _, _, _. Qed.

Lemma run_episode_spec_witness :
  ∃ a' e' total g',
    sample_run_episode (Sample.agent [2; 1; 3]%float) Sample.env0 0
    = Some (Some (a', e', total, g'))
    ∧ 1 ≤ Env.steps e' ≤ Z.max 1 (Env.max_steps Sample.env0)
    ∧ Z.of_nat (length (Agent.memory a'))
      = Z.min (Agent.memory_size (Sample.agent [2; 1; 3]%float))
          (Z.of_nat (length (Agent.memory (Sample.agent [2; 1; 3]%float))) + Env.steps e')
    ∧ Agent.memory_size a' = Agent.memory_size (Sample.agent [2; 1; 3]%float)
    ∧ Agent.episodes_done a' = Agent.episodes_done (Sample.agent [2; 1; 3]%float) + 1
    ∧ Agent.rewards a'
      = Agent.rewards (Sample.agent [2; 1; 3]%float) ++ [Py.to_float total].
Proof.
  destruct sample_episode_returns as (a' & e' & total & g' & Hrun).
  exists a', e', total, g'. split; [exact Hrun|].
  apply (run_episode_spec Sample.pow Sample.Net Sample.Opt Sample.rng Sample.forward_train
           Sample.forward_eval Sample.smooth_l1_loss Sample.optimizer_step
           Sample.scheduler_step Sample.random_random Sample.random_randrange
           Sample.random_sample Sample.np_choice Sample.np_seed Sample.np_uniform
           Sample.np_randint _ a' Sample.env0 e' 0 g' total Hrun).
  vm_compute. discriminate.
Defined.

Lemma greedy_serves_once_witness :
  ∃ r (js : list nat),
    sample_greedy Sample.depot Sample.customers Sample.vehicles false = Some r
    ∧ NoDup js
    ∧ Service.customers_served r = Z.of_nat (length js)
    ∧ Service.customers_unserved r = Z.of_nat (length Sample.customers) - Z.of_nat (length js).
Proof.
  destruct sample_greedy_returns as [r Hr]. exists r.
  destruct (greedy_serves_once Sample.pow Sample.sin Sample.cos Sample.atan2 Sample.round2
              Sample.osrm Sample.depot Sample.customers Sample.vehicles false r Hr)
    as (js & Hnd & _ & Hserved & Hun).
  exists js. split; [exact Hr|]. split; [exact Hnd|]. split; [exact Hserved|exact Hun].
Defined.

Lemma greedy_unserved_fit_nowhere_witness :
  ∃ r (outcomes : list (option Service.Route)) (js : list nat),
    sample_greedy Sample.depot Sample.customers Sample.vehicles false = Some r
    ∧ Service.routes r = omap id outcomes
    ∧ Forall2 (λ vehicle o,
        ∀ (j : nat) c, Sample.customers !! j = Some c → j ∉ js →
          match o with
          | Some route =>
              Service.vehicle_id route = Data.vd_id vehicle
              ∧ default 100 (Data.vd_capacity vehicle)
                < Service.total_demand route + Data.demand_of c
          | None => default 100 (Data.vd_capacity vehicle) < Data.demand_of c
          end) Sample.vehicles outcomes.
Proof.
  destruct sample_greedy_returns as [r Hr]. exists r.
  assert (Hproper : Service.proper_legs Sample.pow Sample.sin Sample.cos Sample.atan2
                      (Service.places Sample.depot Sample.customers) = true).
  { vm_compute. reflexivity. }
  destruct (greedy_unserved_fit_nowhere Sample.pow Sample.sin Sample.cos Sample.atan2
              Sample.round2 Sample.osrm Sample.depot Sample.customers Sample.vehicles false r
              Hproper Hr)
    as (outcomes & js & Hroutes & _ & Hall).
  exists outcomes, js. split; [exact Hr|]. split; [exact Hroutes|exact Hall].
Defined.

Lemma greedy_router_down_witness :
  ∃ r1 r2,
    sample_greedy Sample.depot Sample.customers Sample.vehicles false = Some r2
    ∧ sample_greedy Sample.depot Sample.customers Sample.vehicles true = Some r1
    ∧ Service.r_total_distance_km r1 = Service.r_total_distance_km r2
    ∧ Service.customers_served r1 = Service.customers_served r2.
Proof.
  destruct sample_greedy_returns as [r2 Hr].
  destruct (greedy_router_down Sample.pow Sample.sin Sample.cos Sample.atan2 Sample.round2
              Sample.osrm (λ _, eq_refl) Sample.depot Sample.customers Sample.vehicles r2 Hr)
    as (r1 & Hr1 & _ & Hd & _ & Hs & _).
  exists r1, r2. split; [exact Hr|]. split; [exact Hr1|]. split; [exact Hd|exact Hs].
Defined.

Lemma rl_result_accounts_witness :
  ∃ r g,
    sample_rl (Some (Sample.agent [3; 2; 1; 0]%float)) true Sample.depot Sample.customers
      Sample.vehicles false 0 = Some (Some (r, g))
    ∧ Service.success r = true
    ∧ Service.customers_served r + Service.customers_unserved r
      = Z.of_nat (length Sample.customers).
Proof.
  destruct sample_rl_returns as (r & g & Hr). exists r, g. split; [exact Hr|].
  destruct (rl_result_accounts Sample.pow Sample.sin Sample.cos Sample.atan2 Sample.round2
              Sample.np_round2 Sample.osrm Sample.Net Sample.Opt Sample.rng
              Sample.forward_train Sample.random_random Sample.random_randrange
              Sample.np_choice Sample.np_seed Sample.np_uniform Sample.np_randint
              _ _ _ _ _ _ _ _ Hr) as (Hs & Hacc & _).
  split; [exact Hs|exact Hacc].
Defined.

Lemma stops_numbered_in_order_witness :
  ∃ r, sample_greedy Sample.depot Sample.customers Sample.vehicles false = Some r
       ∧ Forall (λ route, Service.sequence <$> Service.points route
                          = Z.of_nat <$> seq 0 (length (Service.points route)))
           (Service.routes r).
Proof.
  destruct sample_greedy_returns as [r Hr]. exists r. split; [exact Hr|].
  destruct (stops_numbered_in_order Sample.pow Sample.sin Sample.cos Sample.atan2
              Sample.round2 Sample.np_round2 Sample.osrm (Some Sample.solver) Sample.Net
              Sample.Opt Sample.rng Sample.forward_train Sample.random_random
              Sample.random_randrange Sample.np_choice Sample.np_seed Sample.np_uniform
              Sample.np_randint Sample.depot Sample.customers Sample.vehicles false)
    as [Hgreedy _].
  exact (Hgreedy r Hr).
Defined.


